(** * gojson: a shallow embedding of [gojson.go] and its checked properties

    The Go program wraps a decoded JSON document ([interface{}]) in
    [*GoJson] handles that point back to the handle they were obtained
    from.  Maps, slices and [*GoJson] are reference types, and the
    properties of interest (write-back into the parent, deep copy) are
    about sharing, so the embedding keeps an explicit store: every
    function that reads or writes through a reference takes the store and
    returns the new one. *)

From Stdlib Require Import ZArith Lia Ascii String Floats.SpecFloat.
From stdpp Require Import base option list gmap strings.

(** ** Dynamic values ([interface{}]) *)

(** A reference is an index into one of the three stores below. *)
Abbreviation loc := nat (only parsing).

(** The ten Go integer types that [ToInt] and [ToFloat64] switch on. *)
Inductive intkind :=
| KInt | KInt8 | KInt16 | KInt32 | KInt64
| KUint | KUint8 | KUint16 | KUint32 | KUint64.

(** [map[string]interface{}] and the named type [Dict] have the same
    representation but are different dynamic types: a type switch tells
    them apart.  Likewise [[]interface{}] and [List]. *)
Inductive mapty := RawMap | DictT.
Inductive slicety := RawSlice | ListT.

(** The dynamic values the program distinguishes.  A map is a pointer to a
    map object ([None] is the nil map); a slice is a header: backing
    array, offset into it, length and capacity.  [VNode] is a (non-nil)
    [*GoJson]. *)
Inductive value :=
| VNil
| VBool (b : bool)
| VNumber (s : string)
| VInt (k : intkind) (n : Z)
| VFloat32 (f : spec_float)
| VFloat64 (f : spec_float)
| VString (s : string)
| VBytes (s : string)
| VMap (t : mapty) (m : option loc)
| VSlice (t : slicety) (a : loc) (off len cap : nat)
| VNode (p : loc).

(** [type GoJson struct].  The embedded [sync.RWMutex] is never locked by
    any method and is left out. *)
Record GoJson := mkGoJson {
  prev : option loc;
  prevKey : string;
  prevIndex : Z;
  data : value
}.

(** ** The store *)

Record heap := mkHeap {
  nodes : list GoJson;
  maps : list (gmap string value);
  arrays : list (list value)
}.

(** Run-time faults that end the program. *)
Inductive fault :=
| IndexOutOfRange
| SliceBoundsOutOfRange
| NilMapAssignment
| InvalidPointer
| InputInvalid.

(** Outcome of a call: a value, a panic, or (for the recursive copy, which
    Go runs on an unbounded stack) exhausted fuel. *)
Inductive outcome (A : Type) :=
| Ok (a : A)
| Panic (f : fault)
| OutOfFuel.
Arguments Ok {A} a.
Arguments Panic {A} f.
Arguments OutOfFuel {A}.

(** Calls that may allocate or write thread the store. *)
Definition M (A : Type) := heap -> outcome (A * heap).

#[export] Instance M_ret : MRet M := fun A a h => Ok (a, h).

#[export] Instance M_bind : MBind M := fun A B k m h =>
  match m h with
  | Ok (a, h') => k a h'
  | Panic f => Panic f
  | OutOfFuel => OutOfFuel
  end.

Definition throw {A} (f : fault) : M A := fun _ => Panic f.

(** *** Nodes *)

Definition read_node (p : loc) : M GoJson := fun h =>
  match nodes h !! p with
  | Some n => Ok (n, h)
  | None => Panic InvalidPointer
  end.

(** [&GoJson{...}] *)
Definition new_node (n : GoJson) : M loc := fun h =>
  Ok (length (nodes h), mkHeap (nodes h ++ [n]) (maps h) (arrays h)).

(** [j.data = v] *)
Definition write_data (p : loc) (v : value) : M unit := fun h =>
  match nodes h !! p with
  | Some n =>
      Ok (tt, mkHeap (<[p := mkGoJson (prev n) (prevKey n) (prevIndex n) v]> (nodes h))
                     (maps h) (arrays h))
  | None => Panic InvalidPointer
  end.

(** *** Map objects *)

Definition map_of (h : heap) (m : option loc) : gmap string value :=
  match m with
  | Some l => default ∅ (maps h !! l)
  | None => ∅
  end.

(** [v[key]]: the zero value [nil] for an absent key, also on a nil map. *)
Definition map_index (h : heap) (m : option loc) (key : string) : value :=
  default VNil (map_of h m !! key).

(** [v[key] = val]: assignment to an entry of a nil map panics. *)
Definition map_assign (m : option loc) (key : string) (val : value) : M unit := fun h =>
  match m with
  | Some l =>
      Ok (tt, mkHeap (nodes h) (<[l := <[key := val]> (map_of h m)]> (maps h)) (arrays h))
  | None => Panic NilMapAssignment
  end.

(** [make(map[string]interface{})] *)
Definition new_map : M loc := fun h =>
  Ok (length (maps h), mkHeap (nodes h) (maps h ++ [∅]) (arrays h)).

(** *** Backing arrays *)

Definition array_of (h : heap) (a : loc) : list value :=
  default [] (arrays h !! a).

(** The elements a slice header gives access to. *)
Definition slice_elems (h : heap) (a : loc) (off len : nat) : list value :=
  take len (drop off (array_of h a)).

Definition array_write (a : loc) (i : nat) (vals : list value) : M unit := fun h =>
  Ok (tt, mkHeap (nodes h) (maps h)
                 (<[a := list_inserts i vals (array_of h a)]> (arrays h))).

Definition new_array (contents : list value) : M loc := fun h =>
  Ok (length (arrays h), mkHeap (nodes h) (maps h) (arrays h ++ [contents])).

Definition in_range (i : Z) (len : nat) : bool :=
  (0 <=? i)%Z && (i <? Z.of_nat len)%Z.

(** [v[key]] on a slice: bounds-checked by the run time. *)
Definition slice_index (a : loc) (off len : nat) (key : Z) : M value := fun h =>
  if in_range key len
  then Ok (default VNil (array_of h a !! (off + Z.to_nat key)), h)
  else Panic IndexOutOfRange.

(** [v[index] = val] *)
Definition slice_assign (a : loc) (off len : nat) (index : Z) (val : value) : M unit :=
  if in_range index len
  then array_write a (off + Z.to_nat index) [val]
  else throw IndexOutOfRange.

Definition get_heap : M heap := fun h => Ok (h, h).

(** ** Container accessors *)

(** [func (j *GoJson) Value() interface{}] *)
Definition Value (j : loc) : M value :=
  n ← read_node j; mret (data n).

(** The prologue shared by [setMap], [appendSlice], [setSlice],
    [insertSlice] and [Append]:
    when the argument is a [*GoJson] its [Value()] is taken, otherwise the
    argument itself. *)
Definition unwrap (d : value) : M value :=
  match d with
  | VNode p => Value p
  | _ => mret d
  end.

(** [func getMap(key string, mapBody interface{}) (interface{}, bool)].
    The two map cases of the source have the same body. *)
Definition getMap (key : string) (mapBody : value) (h : heap) : value * bool :=
  match mapBody with
  | VMap _ m => (map_index h m key, true)
  | _ => (VNil, false)
  end.

(** [func setMap(key string, mapBody, data interface{}) bool] *)
Definition setMap (key : string) (mapBody data : value) : M bool :=
  val ← unwrap data;
  match mapBody with
  | VMap _ m => map_assign m key val;; mret true
  | _ => mret false
  end.

(** [func getSlice(key int, sliceBody interface{}) (interface{}, bool)]:
    [v[key]] with no guard of its own. *)
Definition getSlice (key : Z) (sliceBody : value) : M (value * bool) :=
  match sliceBody with
  | VSlice _ a off len _ => v ← slice_index a off len key; mret (v, true)
  | _ => mret (VNil, false)
  end.

(** [func setSlice(index int, sliceBody, data interface{}) bool] *)
Definition setSlice (index : Z) (sliceBody data : value) : M bool :=
  val ← unwrap data;
  match sliceBody with
  | VSlice _ a off len _ => slice_assign a off len index val;; mret true
  | _ => mret false
  end.

Section Runtime.

(** The capacity the run time picks when [append] has to reallocate, from
    the old capacity and the length needed.  It is an implementation
    detail of the Go run time; the allocation below never uses less than
    the length needed. *)
Variable growcap : nat -> nat -> nat.

(** The built-in [append(s, vals...)]: in place when the capacity allows,
    otherwise into a fresh backing array. *)
Definition go_append (t : slicety) (a : loc) (off len cap : nat)
    (vals : list value) : M value :=
  let n := len + length vals in
  if decide (n ≤ cap) then
    array_write a (off + len) vals;;
    mret (VSlice t a off n cap)
  else
    h ← get_heap;
    let newcap := n `max` growcap cap n in
    a' ← new_array (slice_elems h a off len ++ vals ++ replicate (newcap - n) VNil);
    mret (VSlice t a' 0 n newcap).

(** [func appendSlice(sliceBody, data interface{}) (interface{}, bool)] *)
Definition appendSlice (sliceBody data : value) : M (value * bool) :=
  val ← unwrap data;
  match sliceBody with
  | VSlice t a off len cap => v ← go_append t a off len cap [val]; mret (v, true)
  | _ => mret (VNil, false)
  end.

(** [func insertSlice(index int, sliceBody, data interface{}) (interface{}, bool)]
<<
    rear := append([]interface{}{}, v[index:]...)
    v = append(v[0:index], val)
    return append(v, rear...), true
>> *)
Definition insertSlice (index : Z) (sliceBody data : value) : M (value * bool) :=
  val ← unwrap data;
  match sliceBody with
  | VSlice t a off len cap =>
      if (0 <=? index)%Z && (index <=? Z.of_nat len)%Z then
        let i := Z.to_nat index in
        h ← get_heap;
        rear ← go_append RawSlice 0 0 0 0 (slice_elems h a (off + i) (len - i));
        v ← go_append t a off i cap [val];
        h' ← get_heap;
        match rear, v with
        | VSlice _ ra roff rlen _, VSlice t' a' off' len' cap' =>
            r ← go_append t' a' off' len' cap' (slice_elems h' ra roff rlen);
            mret (r, true)
        | _, _ => mret (VNil, false)
        end
      else throw SliceBoundsOutOfRange
  | _ => mret (VNil, false)
  end.

(** ** Node methods *)

(** [func (j *GoJson) Get(key string) *GoJson] *)
Definition Get (j : loc) (key : string) : M loc :=
  n ← read_node j;
  h ← get_heap;
  let '(m, ok) := getMap key (data n) h in
  if negb ok
  then new_node (mkGoJson (Some j) key 0 VNil)
  else new_node (mkGoJson (Some j) key 0 m).

(** [func (j *GoJson) Index(key int) *GoJson] *)
Definition Index (j : loc) (key : Z) : M loc :=
  n ← read_node j;
  '(v, ok) ← getSlice key (data n);
  if negb ok
  then new_node (mkGoJson (Some j) "" key VNil)
  else new_node (mkGoJson (Some j) "" key v).

(** [func (j *GoJson) Set(key interface{}, val interface{}) *GoJson].
    The key is switched on its dynamic type: [string], [int], or anything
    else (no case, nothing happens).  The two failure branches only log.
    ([Set] is reserved, hence the underscore.) *)
Definition Set_ (j : loc) (key val : value) : M loc :=
  n ← read_node j;
  match key with
  | VString v => ok ← setMap v (data n) val; mret j
  | VInt KInt v => ok ← setSlice v (data n) val; mret j
  | _ => mret j
  end.

(** [func maintainParent(child *GoJson)] *)
Definition maintainParent (child : loc) : M unit :=
  c ← read_node child;
  match prev c with
  | None => mret tt
  | Some p =>
      pv ← Value p;
      match pv with
      | VMap RawMap _ => Set_ p (VString (prevKey c)) (VNode child);; mret tt
      | VSlice RawSlice _ _ _ _ => Set_ p (VInt KInt (prevIndex c)) (VNode child);; mret tt
      | _ => mret tt
      end
  end.

(** [func (j *GoJson) Append(val interface{}) *GoJson] *)
Definition Append (j : loc) (val : value) : M loc :=
  v ← unwrap val;
  n ← read_node j;
  '(d, ok) ← appendSlice (data n) v;
  if negb ok then mret j
  else
    write_data j d;;
    maintainParent j;;
    mret j.

(** [func (j *GoJson) Insert(index int, val interface{}) *GoJson] *)
Definition Insert (j : loc) (index : Z) (val : value) : M loc :=
  n ← read_node j;
  '(v, ok) ← insertSlice index (data n) val;
  if negb ok then mret j
  else
    write_data j v;;
    maintainParent j;;
    mret j.

End Runtime.

(** [func (j *GoJson) IsNil() bool] *)
Definition IsNil (j : loc) : M bool :=
  n ← read_node j;
  match data n with
  | VNil => mret true
  | _ => mret false
  end.

(** [func (j *GoJson) IsSlice() bool] *)
Definition IsSlice (j : loc) : M bool :=
  n ← read_node j;
  match data n with
  | VSlice ListT _ _ _ _ => mret true
  | VSlice RawSlice _ _ _ _ => mret true
  | _ => mret false
  end.

(** [func (j *GoJson) IsMap() bool] *)
Definition IsMap (j : loc) : M bool :=
  n ← read_node j;
  match data n with
  | VMap _ _ => mret true
  | _ => mret false
  end.

(** [func (j *GoJson) Len() int] *)
Definition Len (j : loc) : M nat :=
  n ← read_node j;
  match data n with
  | VSlice _ _ _ len _ => mret len
  | _ => mret 0
  end.

(** [func (j *GoJson) Keys() []string].  The keys come in the iteration
    order of the map, which Go leaves open; the list of entries of the
    finite map stands for one such order. *)
Definition Keys (j : loc) : M (list string) :=
  n ← read_node j;
  match data n with
  | VNil => mret []
  | VMap RawMap m => h ← get_heap; mret ((map_to_list (map_of h m)).*1)
  | _ => throw InputInvalid
  end.

(** ** Coercion helpers *)

(** *** The imported library functions

    [strconv.ParseInt(s, 10, 64)], [strconv.Atoi], [strings.Contains] and
    [strings.Split] belong to the Go standard library, not to this
    package.  They are written out here after their documented behaviour
    so that the package's own functions can be run. *)

Inductive numerr := ErrSyntax | ErrRange.

Definition maxUint64 : Z := 2 ^ 64 - 1.
Definition MaxInt64 : Z := 2 ^ 63 - 1.
Definition MinInt64 : Z := - 2 ^ 63.

Definition is_digit (c : ascii) : bool :=
  (48 <=? nat_of_ascii c) && (nat_of_ascii c <=? 57).

Definition digit_val (c : ascii) : Z := Z.of_nat (nat_of_ascii c - 48).

(** The digit loop of [strconv.ParseUint] in base 10: a non-digit is a
    syntax error, leaving the 64-bit range a range error that yields the
    largest value. *)
Fixpoint parse_digits (s : string) (n : Z) : Z * option numerr :=
  match s with
  | EmptyString => (n, None)
  | String c s' =>
      if is_digit c then
        if (maxUint64 / 10 + 1 <=? n)%Z then (maxUint64, Some ErrRange)
        else
          let n1 := (n * 10 + digit_val c)%Z in
          if (maxUint64 <? n1)%Z then (maxUint64, Some ErrRange)
          else parse_digits s' n1
      else (0%Z, Some ErrSyntax)
  end.

Definition ParseUint (s : string) : Z * option numerr :=
  match s with
  | EmptyString => (0%Z, Some ErrSyntax)
  | _ => parse_digits s 0
  end.

(** [strconv.ParseInt(s, 10, 64)] *)
Definition ParseInt (s : string) : Z * option numerr :=
  match s with
  | EmptyString => (0%Z, Some ErrSyntax)
  | String c s' =>
      let neg := Ascii.eqb c "-" in
      let body := if Ascii.eqb c "+" || neg then s' else s in
      match ParseUint body with
      | (_, Some ErrSyntax) => (0%Z, Some ErrSyntax)
      | (un, _) =>
          if negb neg && (2 ^ 63 <=? un)%Z then (MaxInt64, Some ErrRange)
          else if neg && (2 ^ 63 <? un)%Z then (MinInt64, Some ErrRange)
          else ((if neg then - un else un)%Z, None)
      end
  end.

(** [strconv.Atoi]: on a 64-bit platform the same results as
    [ParseInt(s, 10, 64)] (its short-string fast path is an optimisation). *)
Definition Atoi (s : string) : Z * option numerr := ParseInt s.

(** [strings.Contains(s, sep)] for a one-byte separator. *)
Fixpoint Contains (s : string) (sep : ascii) : bool :=
  match s with
  | EmptyString => false
  | String c s' => Ascii.eqb c sep || Contains s' sep
  end.

(** [strings.Split(s, sep)] for a one-byte separator: the pieces between
    the occurrences of [sep], never an empty list. *)
Fixpoint Split (s : string) (sep : ascii) : list string :=
  match s with
  | EmptyString => [EmptyString]
  | String c s' =>
      if Ascii.eqb c sep then EmptyString :: Split s' sep
      else match Split s' sep with
           | p :: ps => String c p :: ps
           | [] => [String c EmptyString]
           end
  end.

(** *** Numeric conversions of the language *)

(** Conversion of an integer to [int], which the source takes to be 64
    bits wide (its comment in [ToInt]: int is int64, on a 64-bit
    machine): two's-complement wrap-around, the identity on values that
    fit. *)
Definition to_int (n : Z) : Z :=
  ((n + 2 ^ 63) mod 2 ^ 64 - 2 ^ 63)%Z.

(** The values a Go integer type holds. *)
Definition kind_range (k : intkind) : Z * Z :=
  match k with
  | KInt | KInt64 => (MinInt64, MaxInt64)
  | KInt8 => (-128, 127)%Z
  | KInt16 => (-32768, 32767)%Z
  | KInt32 => (-2147483648, 2147483647)%Z
  | KUint | KUint64 => (0%Z, maxUint64)
  | KUint8 => (0, 255)%Z
  | KUint16 => (0, 65535)%Z
  | KUint32 => (0, 4294967295)%Z
  end.

Definition in_kind (k : intkind) (n : Z) : Prop :=
  (fst (kind_range k) <= n <= snd (kind_range k))%Z.

(** [float64(n)] for an integer [n]: the nearest double, ties to even. *)
Definition float64_of_int (n : Z) : spec_float :=
  binary_normalize 53 1024 n 0 false.

(** [float64(v)] for a [float32]: exact. *)
Definition float64_of_float32 (f : spec_float) : spec_float :=
  match f with
  | S754_finite s m e => binary_normalize 53 1024 (cond_Zopp s (Z.pos m)) e s
  | _ => f
  end.

(** [int(v)] for a float: the fractional part is dropped.  The language
    leaves the result open when the value does not fit (or is not a
    number); the amd64 compiler yields the smallest [int] there. *)
Definition int_of_float (f : spec_float) : Z :=
  match f with
  | S754_zero _ => 0%Z
  | S754_finite s m e =>
      let t := cond_Zopp s (Z.shiftl (Z.pos m) e) in
      if (MinInt64 <=? t)%Z && (t <=? MaxInt64)%Z then t else MinInt64
  | _ => MinInt64
  end.

(** *** [ToInt], [ToFloat64] *)

(** The error values.  The source formats the offending value into a
    message; the value itself is kept here instead of the text. *)
Inductive error :=
| NumError (e : numerr)
| NotInt (v : value)
| NotFloat64 (v : value)
| Overflowed (v : value)
| CannotConvertToInt (v : value)
| CannotConvertToFloat (v : value).

(** [func ToInt(intObj interface{}) (int, error)] *)
Definition ToInt (intObj : value) : Z * option error :=
  match intObj with
  | VNumber v =>
      let '(vint64, err) := ParseInt v in (to_int vint64, NumError <$> err)
  | VInt KInt v => (v, None)
  | VInt KInt8 v => (to_int v, None)
  | VInt KInt16 v => (to_int v, None)
  | VInt KInt32 v => (to_int v, None)
  | VInt KInt64 v => (to_int v, None)
  | VInt KUint v => (to_int v, None)
  | VInt KUint8 v => (to_int v, None)
  | VInt KUint16 v => (to_int v, None)
  | VInt KUint32 v => (to_int v, None)
  | VInt KUint64 v =>
      if (MaxInt64 <? v)%Z then (0%Z, Some (Overflowed intObj))
      else (to_int v, None)
  | VFloat32 v => (int_of_float v, None)
  | VFloat64 v => (int_of_float v, None)
  | VString v =>
      let strv := if Contains v "." then hd EmptyString (Split v ".") else v in
      if String.eqb strv "" then (0%Z, None)
      else match Atoi strv with
           | (intv, None) => (intv, None)
           | _ => (0%Z, Some (CannotConvertToInt intObj))
           end
  | _ => (0%Z, Some (CannotConvertToInt intObj))
  end.

Section Coercion.

(** [strconv.ParseFloat(s, 64)], taken as given. *)
Variable ParseFloat : string -> spec_float * option numerr.

(** [func ToFloat64(item interface{}) (float64, error)].  The integer case
    lists nine of the ten integer types; [int32] is not among them. *)
Definition ToFloat64 (item : value) : spec_float * option error :=
  match item with
  | VNumber v =>
      let '(f, err) := ParseFloat v in (f, NumError <$> err)
  | VInt KInt _ | VInt KInt8 _ | VInt KInt16 _ | VInt KInt64 _
  | VInt KUint _ | VInt KUint8 _ | VInt KUint16 _ | VInt KUint32 _
  | VInt KUint64 _ =>
      let '(intVal, err) := ToInt item in (float64_of_int intVal, err)
  | VFloat64 v => (v, None)
  | VFloat32 v => (float64_of_float32 v, None)
  | VString v =>
      match ParseFloat v with
      | (floatNum, None) => (floatNum, None)
      | _ => (S754_zero false, Some (CannotConvertToFloat item))
      end
  | _ => (S754_zero false, Some (CannotConvertToFloat item))
  end.

(** [func (j *GoJson) Float64() (float64, error)] *)
Definition Float64 (j : loc) : M (spec_float * option error) :=
  n ← read_node j;
  let v := data n in
  match v with
  | VNil => mret (S754_zero false, Some (NotFloat64 v))
  | _ => mret (ToFloat64 v)
  end.

End Coercion.

(** [func (j *GoJson) Int() (int, error)] *)
Definition Int (j : loc) : M (Z * option error) :=
  n ← read_node j;
  let v := data n in
  match v with
  | VNil => mret (0%Z, Some (NotInt v))
  | _ => mret (ToInt v)
  end.

(** ** Deep copy: [Clone] and [ShortNiceJson] *)

(** [func handlerString(js string, cutLongStr bool) string].  A Go string
    is a byte sequence; [len] and [js[:120]] count bytes. *)
Definition handlerString (js : string) (cutLongStr : bool) : string :=
  if cutLongStr && (120 <? String.length js)
  then (substring 0 120 js ++ "......")%string
  else js.

(** [for _, x := range l { ... }] with the loop-carried variable [s]. *)
Fixpoint range_loop {A S : Type} (l : list A) (s : S) (body : S -> A -> M S) : M S :=
  match l with
  | [] => mret s
  | x :: l' => s' ← body s x; range_loop l' s' body
  end.

Section Copy.

Variable growcap : nat -> nat -> nat.

(** The JSON text decoder ([jsoniter]'s [Decoder.Decode] with
    [UseNumber]), taken as given: it either fails or builds the decoded
    value in the store. *)
Variable decode : string -> heap -> option (value * heap).

(** [NewDict()] and [NewList()] *)
Definition NewDict : M value := l ← new_map; mret (VMap DictT (Some l)).
Definition NewList : M value := mret (VSlice ListT 0 0 0 0).

(** The body of [handlerMap], with the call to [handlerVal] as [rec].
    The entries are visited in the map's iteration order; nothing the loop
    does writes to the map it ranges over. *)
Definition handlerMap_body (rec : value -> M value) (js : value) : M value :=
  ret ← NewDict;
  match ret, js with
  | VMap _ r, VMap _ m =>
      h ← get_heap;
      range_loop (map_to_list (map_of h m)) tt
        (fun _ '(key, val) => x ← rec val; map_assign r key x);;
      mret ret
  | _, _ => mret ret
  end.

(** The body of [handlerSlice]. *)
Definition handlerSlice_body (rec : value -> M value) (js : value) : M value :=
  ret ← NewList;
  match js with
  | VSlice _ a off len _ =>
      h ← get_heap;
      range_loop (slice_elems h a off len) ret
        (fun ret val =>
           x ← rec val;
           match ret with
           | VSlice t ra roff rlen rcap => go_append growcap t ra roff rlen rcap [x]
           | _ => mret ret
           end)
  | _ => mret ret
  end.

(** [func handlerVal(val interface{}, cutLongStr bool) interface{}].  The
    three handlers call each other; [fuel] bounds the nesting depth. *)
Fixpoint handlerVal (fuel : nat) (cutLongStr : bool) (val : value) : M value :=
  match fuel with
  | 0 => fun _ => OutOfFuel
  | S fuel' =>
      match val with
      | VMap _ _ => handlerMap_body (handlerVal fuel' cutLongStr) val
      | VSlice _ _ _ _ _ => handlerSlice_body (handlerVal fuel' cutLongStr) val
      | VString valV => mret (VString (handlerString valV cutLongStr))
      | _ => mret val
      end
  end.

(** [func handlerMap(js interface{}, cutLongStr bool) Dict] *)
Definition handlerMap (fuel : nat) (js : value) (cutLongStr : bool) : M value :=
  handlerMap_body (handlerVal fuel cutLongStr) js.

(** [func handlerSlice(js interface{}, cutLongStr bool) List] *)
Definition handlerSlice (fuel : nat) (js : value) (cutLongStr : bool) : M value :=
  handlerSlice_body (handlerVal fuel cutLongStr) js.

(** [func decodeJson(r io.Reader)], returning a handle or an error
    ([None]). *)
Definition decodeJson (text : string) : M (option loc) := fun h =>
  match decode text h with
  | Some (f, h') => (j ← new_node (mkGoJson None "" 0 f); mret (Some j)) h'
  | None => Ok (None, h)
  end.

(** [func NewJsonFromString(str string) *GoJson]; [NewJsonFromBytes] is
    the same on a byte slice.  A decoding error is dropped and an empty
    handle returned. *)
Definition NewJsonFromString (str : string) : M loc :=
  r ← decodeJson str;
  match r with
  | Some js => mret js
  | None => new_node (mkGoJson None "" 0 VNil)
  end.

Definition NewJsonFromBytes (b : string) : M loc :=
  r ← decodeJson b;
  match r with
  | Some js => mret js
  | None => new_node (mkGoJson None "" 0 VNil)
  end.

(** [func NewJsonFromData(d interface{}) *GoJson] *)
Definition NewJsonFromData (d : value) : M loc :=
  new_node (mkGoJson None "" 0 d).

(** [func NewJson(data interface{}) *GoJson] *)
Definition NewJson (d : value) : M loc :=
  match d with
  | VString v => NewJsonFromString v
  | VBytes v => NewJsonFromBytes v
  | _ => NewJsonFromData d
  end.

(** [func (j *GoJson) ShortNiceJson() *GoJson] *)
Definition ShortNiceJson (fuel : nat) (j : loc) : M loc :=
  let cutLongStr := true in
  n ← read_node j;
  s ← IsSlice j;
  if (s : bool) then x ← handlerSlice fuel (data n) cutLongStr; NewJson x
  else
    m ← IsMap j;
    if (m : bool) then x ← handlerMap fuel (data n) cutLongStr; NewJson x
    else NewJson (data n).

(** [func (j *GoJson) Clone() *GoJson] *)
Definition Clone (fuel : nat) (j : loc) : M loc :=
  let cutLongStr := false in
  n ← read_node j;
  s ← IsSlice j;
  if (s : bool) then x ← handlerSlice fuel (data n) cutLongStr; NewJson x
  else
    m ← IsMap j;
    if (m : bool) then x ← handlerMap fuel (data n) cutLongStr; NewJson x
    else NewJson (data n).

End Copy.

(** ** Stores used in the statements and examples below *)

(** The handle a navigation call returns sits at the end of the node
    store. *)
Definition child_of (h : heap) (c : GoJson) : heap :=
  mkHeap (nodes h ++ [c]) (maps h) (arrays h).

(** A handle on the one-element array [[1]]. *)
Definition h_one : heap :=
  mkHeap [mkGoJson None "" 0 (VSlice RawSlice 0 0 1 1)] [] [[VNumber "1"]].


(** A handle on [Dict{"a": 1}], the type [Clone] builds. *)
Definition h_dict : heap :=
  mkHeap [mkGoJson None "" 0 (VMap DictT (Some 0))] [{[ "a" := VInt KInt 1 ]}] [].

(** The decoded document [{"a": 1}]. *)
Definition h_obj : heap :=
  mkHeap [mkGoJson None "" 0 (VMap RawMap (Some 0))] [{[ "a" := VNumber "1" ]}] [].

(** The decoded document [{"a": null}]. *)
Definition h_null : heap :=
  mkHeap [mkGoJson None "" 0 (VMap RawMap (Some 0))] [{[ "a" := VNil ]}] [].

(** "[k] is absent from the wrapped mapping or the wrapped Value is not a
    mapping", for a wrapped value [d]. *)
Definition absent_or_not_map (h : heap) (d : value) (k : string) : Prop :=
  match d with
  | VMap _ m => map_of h m !! k = None
  | _ => True
  end.

(** The same, with a key bound to [nil] counted as well. *)
Definition absent_nil_or_not_map (h : heap) (d : value) (k : string) : Prop :=
  match d with
  | VMap _ m => map_of h m !! k = None \/ map_of h m !! k = Some VNil
  | _ => True
  end.

(** The double 10.0: [5629499534213120 * 2^-49]. *)
Definition float_ten : spec_float := S754_finite false 5629499534213120 (-49).

(** A handle on the [int32] value 7. *)
Definition h_int32 : heap := mkHeap [mkGoJson None "" 0 (VInt KInt32 7)] [] [].

(** The integer types wider than what [int] holds. *)
Definition wide_unsigned (k : intkind) : bool :=
  match k with KUint | KUint64 => true | _ => false end.

(** "Truncate [s] at the first ['.']": the longest prefix without a dot. *)
Fixpoint before_dot (s : string) : string :=
  match s with
  | EmptyString => EmptyString
  | String c s' => if Ascii.eqb c "." then EmptyString else String c (before_dot s')
  end.

(** What the specification says [Int()] yields on a string: the prefix
    before the first dot parsed as an integer, [0] when that prefix is
    empty. *)
Definition Int_of_string_spec (s : string) : Z * option error :=
  match before_dot s with
  | EmptyString => (0%Z, None)
  | p => match Atoi p with
         | (n, None) => (n, None)
         | (_, Some _) => (0%Z, Some (CannotConvertToInt (VString s)))
         end
  end.

(** Handles on the strings ["42.9"] and [""], and an empty handle. *)
Definition h_str (s : string) : heap := mkHeap [mkGoJson None "" 0 (VString s)] [] [].
Definition h_nil : heap := mkHeap [mkGoJson None "" 0 VNil] [] [].

(** ** Well-formedness and framing *)

(** A slice header is within its backing array (the run time keeps this
    true of every slice value). *)
Definition slice_ok (h : heap) (a : loc) (off len cap : nat) : Prop :=
  len ≤ cap ∧ off + cap ≤ length (array_of h a).

(** What the unwrapping prologue yields, read off the store. *)
Definition unwrapped (h : heap) (x : value) : option value :=
  match x with
  | VNode p => data <$> nodes h !! p
  | _ => Some x
  end.

(** [h'] differs from [h] at most in the cells [lo .. hi-1] of the array
    [a] and in arrays allocated since. *)
Definition modifies (h h' : heap) (a : loc) (lo hi : nat) : Prop :=
  nodes h' = nodes h ∧ maps h' = maps h ∧
  length (arrays h) ≤ length (arrays h') ∧
  ∀ b, b < length (arrays h) →
    length (array_of h' b) = length (array_of h b) ∧
    ∀ i, ¬ (b = a ∧ lo ≤ i < hi) → array_of h' b !! i = array_of h b !! i.

(** The value a handle wraps, read off the store. *)
Definition node_data (h : heap) (j : loc) : option value :=
  data <$> nodes h !! j.

(** The store after [j.data = d]. *)
Definition set_data (h : heap) (j : loc) (n : GoJson) (d : value) : heap :=
  mkHeap (<[j := mkGoJson (prev n) (prevKey n) (prevIndex n) d]> (nodes h))
         (maps h) (arrays h).

(** The write-back into a parent wrapping [pv] is well defined: a plain
    map is allocated, and the stored index is within a plain slice.  A
    handle that [Get] or [Index] returned, and that wraps a slice,
    satisfies this. *)
Definition parent_ok (h : heap) (pv : value) (idx : Z) : Prop :=
  match pv with
  | VMap RawMap m => ∃ l, m = Some l ∧ l < length (maps h)
  | VSlice RawSlice pa poff plen pcap =>
      in_range idx plen = true ∧ slice_ok h pa poff plen pcap
  | _ => True
  end.

(** The parent link of the handle [j] (with record [c]) is sound. *)
Definition linked (h : heap) (j : loc) (c : GoJson) : Prop :=
  match prev c with
  | None => True
  | Some p => p ≠ j ∧ ∃ pn, nodes h !! p = Some pn ∧ parent_ok h (data pn) (prevIndex c)
  end.

(** What the parent's container holds under the key or index through
    which the handle [c] was reached. *)
Definition parent_slot (h : heap) (c : GoJson) : option value :=
  match prev c with
  | None => None
  | Some p =>
      match node_data h p with
      | Some (VMap _ m) => map_of h m !! prevKey c
      | Some (VSlice _ pa poff plen _) =>
          slice_elems h pa poff plen !! Z.to_nat (prevIndex c)
      | _ => None
      end
  end.

(** The dynamic types on which [maintainParent] writes back. *)
Definition is_raw (pv : value) : bool :=
  match pv with
  | VMap RawMap _ | VSlice RawSlice _ _ _ _ => true
  | _ => false
  end.

(** A slice value is within its backing array; other values carry no
    condition. *)
Definition value_ok (h : heap) (v : value) : Prop :=
  match v with
  | VSlice _ a off len cap => slice_ok h a off len cap
  | _ => True
  end.

(** The backing array [a] of a handle is not the one its parent's slice
    lives in: in a document tree the parent's array holds the child's
    slice header, and the child's elements are elsewhere. *)
Definition own_array (h : heap) (c : GoJson) (a : loc) : Prop :=
  match prev c with
  | None => True
  | Some p =>
      match node_data h p with
      | Some (VSlice _ pa _ _ _) => pa ≠ a
      | _ => True
      end
  end.

(** The entries of a container value: of a map, or of a slice. *)
Definition contents (h : heap) (v : value) : gmap string value * list value :=
  match v with
  | VMap _ m => (map_of h m, [])
  | VSlice _ a off len _ => (∅, slice_elems h a off len)
  | _ => (∅, [])
  end.

(** The store after [maintainParent] has run for a handle with record [c]
    (as a function of the store; the monadic [maintainParent] is shown to
    compute it). *)
Definition write_back (h : heap) (c : GoJson) : heap :=
  match prev c with
  | None => h
  | Some p =>
      match node_data h p with
      | Some (VMap RawMap (Some l)) =>
          mkHeap (nodes h)
                 (<[l := <[prevKey c := data c]> (map_of h (Some l))]> (maps h))
                 (arrays h)
      | Some (VSlice RawSlice pa poff _ _) =>
          mkHeap (nodes h) (maps h)
                 (<[pa := list_inserts (poff + Z.to_nat (prevIndex c)) [data c]
                            (array_of h pa)]> (arrays h))
      | _ => h
      end
  end.

(** A growth policy for the examples: double the old capacity (and, as
    always, at least the length needed). *)
Definition double_cap (old need : nat) : nat := 2 * old.

(** The decoded document [{"a": [1, 2, 3]}] with the handle that
    [Get("a")] returns (handle 1, child of the root handle 0). *)
Definition doc_child : GoJson := mkGoJson (Some 0) "a" 0 (VSlice RawSlice 0 0 3 3).

Definition h_doc : heap :=
  mkHeap [mkGoJson None "" 0 (VMap RawMap (Some 0)); doc_child]
         [{[ "a" := VSlice RawSlice 0 0 3 3 ]}]
         [[VNumber "1"; VNumber "2"; VNumber "3"]].

(** The same after [Get("a").Append(4)] under [double_cap]: the array was
    full, so the elements moved to a fresh array, and the root's map
    entry was redirected to it. *)
Definition h_doc_appended : heap :=
  mkHeap [mkGoJson None "" 0 (VMap RawMap (Some 0));
          mkGoJson (Some 0) "a" 0 (VSlice RawSlice 1 0 4 6)]
         [{[ "a" := VSlice RawSlice 1 0 4 6 ]}]
         [[VNumber "1"; VNumber "2"; VNumber "3"];
          [VNumber "1"; VNumber "2"; VNumber "3"; VInt KInt 4; VNil; VNil]].

(** An empty array handle (0), a handle on the integer 5 (1), and a
    handle whose value is handle 1 (2), as [NewJson(NewJson(5))] builds. *)
Definition h_nested : heap :=
  mkHeap [mkGoJson None "" 0 (VSlice RawSlice 0 0 0 0);
          mkGoJson None "" 0 (VInt KInt 5);
          mkGoJson None "" 0 (VNode 1)]
         [] [].

(** The clone of [{"a": [1, 2, 3]}] (a [Dict] holding a [List]) with the
    handle [Get("a")] returns, and the same for a [List] in a [List]. *)
Definition h_dict_doc : heap :=
  mkHeap [mkGoJson None "" 0 (VMap DictT (Some 0));
          mkGoJson (Some 0) "a" 0 (VSlice ListT 0 0 3 3)]
         [{[ "a" := VSlice ListT 0 0 3 3 ]}]
         [[VNumber "1"; VNumber "2"; VNumber "3"]].

Definition h_list_doc : heap :=
  mkHeap [mkGoJson None "" 0 (VSlice ListT 1 0 1 1);
          mkGoJson (Some 0) "" 0 (VSlice ListT 0 0 3 3)]
         []
         [[VNumber "1"; VNumber "2"; VNumber "3"]; [VSlice ListT 0 0 3 3]].

(** [h_nested] after [Append] of handle 2 to handle 0. *)
Definition h_nested_appended : heap :=
  mkHeap [mkGoJson None "" 0 (VSlice RawSlice 0 0 1 1);
          mkGoJson None "" 0 (VInt KInt 5);
          mkGoJson None "" 0 (VNode 1)]
         [] [[VInt KInt 5]].

(** A decoder for the three JSON literals only, used to run the examples:
    like every JSON decoder it rejects a text whose first byte cannot
    start a JSON value, such as [hello] or [aaa...]. *)
Definition decode_literal (s : string) (h : heap) : option (value * heap) :=
  if String.eqb s "null" then Some (VNil, h)
  else if String.eqb s "true" then Some (VBool true, h)
  else if String.eqb s "false" then Some (VBool false, h)
  else None.

(** A string of 200 bytes. *)
Definition long_string : string :=
  Eval cbv in String.concat "" (replicate 200 "a"%string).

(** ** Document trees *)

(** The JSON-shaped tree a value stands for.  A leaf is a scalar; the
    fields of an object are listed in any order.  (The type is nested
    through lists and pairs; the proofs below go by induction on [depth],
    so no induction scheme is generated.) *)
#[local] Unset Elimination Schemes.

Inductive json :=
| JLeaf (v : value)
| JObj (fields : list (string * json))
| JArr (items : list json).

(** Scalars: everything but containers, handles and byte slices. *)
Definition is_scalar (v : value) : bool :=
  match v with
  | VMap _ _ | VSlice _ _ _ _ _ | VNode _ | VBytes _ => false
  | _ => true
  end.

(** Nesting depth. *)
Fixpoint depth (t : json) : nat :=
  match t with
  | JLeaf _ => 0
  | JObj fields => S (max_list (map (fun kt => depth kt.2) fields))
  | JArr items => S (max_list (map depth items))
  end.

(** The tree with [handlerString] applied to every string leaf. *)
Fixpoint cut_json (cutLongStr : bool) (t : json) : json :=
  match t with
  | JLeaf (VString s) => JLeaf (VString (handlerString s cutLongStr))
  | JLeaf v => JLeaf v
  | JObj fields => JObj (map (fun kt => (kt.1, cut_json cutLongStr kt.2)) fields)
  | JArr items => JArr (map (cut_json cutLongStr) items)
  end.

(** [repr_in Pm Pa h v t]: in the store [h] the value [v] stands for the
    tree [t], and every map object and backing array it needs lies in
    [Pm], resp. [Pa]. *)
Inductive repr_in (Pm Pa : nat -> Prop) (h : heap) : value -> json -> Prop :=
| repr_leaf v :
    is_scalar v = true -> repr_in Pm Pa h v (JLeaf v)
| repr_nil_map ty :
    repr_in Pm Pa h (VMap ty None) (JObj [])
| repr_obj ty l m fields :
    Pm l -> maps h !! l = Some m ->
    NoDup fields.*1 ->
    (forall k, is_Some (m !! k) -> k ∈ fields.*1) ->
    Forall (fun kt => exists v, m !! kt.1 = Some v /\ repr_in Pm Pa h v kt.2) fields ->
    repr_in Pm Pa h (VMap ty (Some l)) (JObj fields)
| repr_arr ty a off len cap items :
    len <= cap -> (0 < cap -> Pa a /\ off + cap <= length (array_of h a)) ->
    Forall2 (repr_in Pm Pa h) (slice_elems h a off len) items ->
    length items = len ->
    repr_in Pm Pa h (VSlice ty a off len cap) (JArr items).

#[local] Set Elimination Schemes.

(** [v] stands for [t] somewhere in the store. *)
Definition repr (h : heap) (v : value) (t : json) : Prop :=
  repr_in (fun _ => True) (fun _ => True) h v t.

(** The store [h'] has everything of [h] where it was, and possibly more
    map objects and arrays. *)
Definition extends (h h' : heap) : Prop :=
  nodes h' = nodes h /\
  length (maps h) <= length (maps h') /\
  (forall l, l < length (maps h) -> maps h' !! l = maps h !! l) /\
  length (arrays h) <= length (arrays h') /\
  (forall a, a < length (arrays h) -> arrays h' !! a = arrays h !! a).

(** The map objects, resp. arrays, allocated between [h] and [h']. *)
Definition new_maps (h h' : heap) (l : nat) : Prop :=
  length (maps h) <= l < length (maps h').
Definition new_arrays (h h' : heap) (a : nat) : Prop :=
  length (arrays h) <= a < length (arrays h').

(** What a copy made from the store [h] looks like: the old part of the
    store is as it was, and the copy [v'] stands for [t'] using only map
    objects and arrays allocated since. *)
Definition copied (h : heap) (t' : json) (v' : value) (h' : heap) : Prop :=
  extends h h' /\ repr_in (new_maps h h') (new_arrays h h') h' v' t'.

(** The tree of the field [k]. *)
Definition field_tree (fields : list (string * json)) (k : string) : json :=
  default (JLeaf VNil) ((list_to_map fields : gmap string json) !! k).

(** The values [Clone] and [ShortNiceJson] rebuild: maps and slices. *)
Definition is_container (v : value) : bool :=
  match v with
  | VMap _ _ | VSlice _ _ _ _ _ => true
  | _ => false
  end.

(** The tree of the document in [h_doc]. *)
Definition t_doc : json :=
  JObj [("a", JArr [JLeaf (VNumber "1"); JLeaf (VNumber "2"); JLeaf (VNumber "3")])].

(** Only the child [j] was updated: it now wraps a slice with the
    elements [elems], while its parent [p] (with record [pn]), every map
    object, and the entries of the parent's container are as in [h]. *)
Definition child_only_update (h h' : heap) (j p : loc) (pn : GoJson)
    (t : slicety) (elems : list value) : Prop :=
  exists a' off' cap',
    node_data h' j = Some (VSlice t a' off' (length elems) cap') /\
    slice_elems h' a' off' (length elems) = elems /\
    nodes h' !! p = Some pn /\
    maps h' = maps h /\
    contents h' (data pn) = contents h (data pn).

(** The number a string of decimal digits denotes, continuing from
    [acc]. *)
Fixpoint digits_value (s : string) (acc : Z) : Z :=
  match s with
  | EmptyString => acc
  | String c s' => digits_value s' (acc * 10 + digit_val c)
  end.

Fixpoint all_digits (s : string) : bool :=
  match s with
  | EmptyString => true
  | String c s' => is_digit c && all_digits s'
  end.

(** ** The remaining accessors: [Remove], [Array], [RangeMap], [RangeSlice] *)

(** [delete(v, key)]: nothing happens on a nil map or for an absent key. *)
Definition map_delete (m : option loc) (key : string) : M unit := fun h =>
  match m with
  | Some l =>
      Ok (tt, mkHeap (nodes h) (<[l := delete key (map_of h m)]> (maps h)) (arrays h))
  | None => Ok (tt, h)
  end.

(** [func (j *GoJson) Remove(key interface{}) *GoJson].  The [int] case of
    the source is empty (removing from a slice is not implemented). *)
Definition Remove (j : loc) (key : value) : M loc :=
  match key with
  | VString keyVal =>
      m ← IsMap j;
      if (m : bool) then
        n ← read_node j;
        match data n with
        | VMap RawMap v => map_delete v keyVal;; mret j
        | VMap DictT v => map_delete v keyVal;; mret j
        | _ => mret j
        end
      else mret j
  | VInt KInt _ => mret j
  | _ => mret j
  end.

(** The errors of [Array], [RangeMap] and [RangeSlice], with the value
    the source formats into the message. *)
Inductive shape_error :=
| NotArray (v : value)
| NotMap (v : value)
| NotSlice (v : value).

(** The nil slice of type [[]interface{}]: the zero header. *)
Definition nil_slice : value := VSlice RawSlice 0 0 0 0.

(** [func (j *GoJson) Array() ([]interface{}, error)].  The result has
    the static type [[]interface{}], so a [List] comes back as a plain
    slice with the same header. *)
Definition Array (j : loc) : M (value * option shape_error) :=
  s ← IsSlice j;
  n ← read_node j;
  if negb s then mret (nil_slice, Some (NotArray (data n)))
  else
    match data n with
    | VSlice ListT a off len cap => mret (VSlice RawSlice a off len cap, None)
    | VSlice RawSlice a off len cap => mret (VSlice RawSlice a off len cap, None)
    | _ => mret (nil_slice, Some (NotArray (data n)))
    end.

(** The visitor handed to [RangeMap] and [RangeSlice] is a closure: it
    is called with a key and a value, may read and write the store (the
    document it is shown included), and answers whether to go on.  [St] is
    the state of the variables it captures; a visitor that panics ends
    the program. *)
Definition visitor (K St : Type) : Type := St -> K -> value -> M (St * bool).

(** [for key, val := range v { ret := f(key, val); if !ret { break } }]
    for a slice [v]: the header is read once, before the loop; the
    element [v[i]] is read when the iteration [i] begins, so the loop
    sees what the visitor wrote into later cells. *)
Fixpoint range_slice {St : Type} (a off i n : nat) (f : visitor Z St) (s : St) : M St :=
  match n with
  | 0 => mret s
  | S n' =>
      h ← get_heap;
      '(s', ret) ← f s (Z.of_nat i) (default VNil (array_of h a !! (off + i)));
      if negb ret then mret s' else range_slice a off (S i) n' f s'
  end.

(** The same loop for a map [v].  [keys] is the iteration order, fixed
    when the loop begins.  An entry the visitor removed before it was
    reached is not produced; an entry it changed is produced with the
    value held when it is reached.  For an entry created during the loop
    the language allows both producing and skipping it; here it is
    skipped. *)
Fixpoint range_map {St : Type} (m : option loc) (keys : list string)
    (f : visitor string St) (s : St) : M St :=
  match keys with
  | [] => mret s
  | key :: keys' =>
      h ← get_heap;
      match map_of h m !! key with
      | None => range_map m keys' f s
      | Some val =>
          '(s', ret) ← f s key val;
          if negb ret then mret s' else range_map m keys' f s'
      end
  end.

(** [func (j *GoJson) RangeMap(f func(key string, val interface{}) bool) error].
    As in [Keys], the list of entries of the finite map stands for the
    iteration order. *)
Definition RangeMap {St : Type} (j : loc) (f : visitor string St) (s : St)
    : M (St * option shape_error) :=
  m ← IsMap j;
  n ← read_node j;
  if negb m then mret (s, Some (NotMap (data n)))
  else
    match data n with
    | VMap DictT v =>
        h ← get_heap;
        s' ← range_map v (map_to_list (map_of h v)).*1 f s;
        mret (s', None)
    | VMap RawMap v =>
        h ← get_heap;
        s' ← range_map v (map_to_list (map_of h v)).*1 f s;
        mret (s', None)
    | _ => mret (s, None)
    end.

(** [func (j *GoJson) RangeSlice(f func(index int, val interface{}) bool) error] *)
Definition RangeSlice {St : Type} (j : loc) (f : visitor Z St) (s : St)
    : M (St * option shape_error) :=
  b ← IsSlice j;
  n ← read_node j;
  if negb b then mret (s, Some (NotSlice (data n)))
  else
    match data n with
    | VSlice ListT a off len _ =>
        s' ← range_slice a off 0 len f s; mret (s', None)
    | VSlice RawSlice a off len _ =>
        s' ← range_slice a off 0 len f s; mret (s', None)
    | _ => mret (s, None)
    end.

(** ** [List.Add] *)

Section ListAdd.

Variable growcap : nat -> nat -> nat.

(** [func (l List) Add(i interface{}) List]:
<<
    tp, _ := appendSlice(l, i)
    return tp.(List)
>>
    The receiver is a slice header passed by value.  [None] stands for a
    failed type assertion, which ends the program. *)
Definition List_Add (a : loc) (off len cap : nat) (i : value) : M (option value) :=
  '(tp, _) ← appendSlice growcap (VSlice ListT a off len cap) i;
  match tp with
  | VSlice ListT _ _ _ _ => mret (Some tp)
  | _ => mret None
  end.

End ListAdd.

(** ** [NewErrJson] *)

Section ErrJson.

Variable decode : string -> heap -> option (value * heap).

(** [func NewErrJson(errcode int, errmsg string) *GoJson] *)
Definition NewErrJson (errcode : Z) (errmsg : string) : M loc :=
  result ← NewJsonFromString decode "{}";
  Set_ result (VString "err_msg") (VString errmsg);;
  Set_ result (VString "err") (VInt KInt errcode);;
  mret result.

End ErrJson.

(** ** Notions used in the further properties *)

(** [Get] along a path of keys, as in [j.Get(k1).Get(k2)...]. *)
Fixpoint GetPath (j : loc) (keys : list string) : M loc :=
  match keys with
  | [] => mret j
  | k :: keys' => c ← Get j k; GetPath c keys'
  end.

(** The value found under a path of keys, read off the store: [nil] as
    soon as a key is absent or the value reached is not a map. *)
Fixpoint lookup_path (h : heap) (v : value) (keys : list string) : value :=
  match keys with
  | [] => v
  | k :: keys' => lookup_path h (fst (getMap k v h)) keys'
  end.

(** One call of a visitor: the key and value it was shown, the store at
    the time of the call, and its answer. *)
Record call (K : Type) := mkCall {
  call_key : K;
  call_val : value;
  call_store : heap;
  call_ans : bool
}.
Arguments mkCall {K} _ _ _ _.
Arguments call_key {K} _.
Arguments call_val {K} _.
Arguments call_store {K} _.
Arguments call_ans {K} _.

(** The visitor [f] with a record of its calls kept beside its state. *)
Definition logged {K St : Type} (f : visitor K St) : visitor K (St * list (call K)) :=
  fun sl key val =>
    h ← get_heap;
    '(s', ret) ← f sl.1 key val;
    mret ((s', sl.2 ++ [mkCall key val h ret]), ret).

(** The visitor returns from every call (it does not panic). *)
Definition returns {K St : Type} (f : visitor K St) : Prop :=
  forall s k v h, exists r h', f s k v h = Ok (r, h').

(** The visitor leaves the store as it finds it. *)
Definition keeps_store {K St : Type} (f : visitor K St) : Prop :=
  forall s k v h r h', f s k v h = Ok (r, h') -> h' = h.

(** Answers of a loop that stops at the first [false]: all [true], but
    for a final [false]. *)
Definition until_false (answers : list bool) : Prop :=
  exists m, answers = replicate m true \/ answers = replicate m true ++ [false].

(** One step of navigation: [Get(key)] or [Index(idx)]. *)
Inductive step := SKey (key : string) | SIdx (idx : Z).

(** Navigation along a path, as in [j.Get("a").Index(0).Get("b")]. *)
Fixpoint Navigate (j : loc) (path : list step) : M loc :=
  match path with
  | [] => mret j
  | SKey key :: path' => c ← Get j key; Navigate c path'
  | SIdx idx :: path' => c ← Index j idx; Navigate c path'
  end.

(** A decoder that knows the empty object besides the three literals; it
    builds the object as a fresh map. *)
Definition decode_object (s : string) (h : heap) : option (value * heap) :=
  if String.eqb s "{}"
  then Some (VMap RawMap (Some (length (maps h))),
             mkHeap (nodes h) (maps h ++ [∅]) (arrays h))
  else decode_literal s h.

(** A handle on the plain array [[1, 2, 3]] with room for a fourth
    element, and a second handle on the same array. *)
Definition h_shared : heap :=
  mkHeap [mkGoJson None "" 0 (VSlice RawSlice 0 0 3 4);
          mkGoJson None "" 0 (VSlice RawSlice 0 0 3 4)]
         []
         [[VNumber "1"; VNumber "2"; VNumber "3"; VNil]].
(** * Properties *)

(** ** Running calls *)

Lemma bind_Ok {A B} (m : M A) (k : A -> M B) h a h' :
  m h = Ok (a, h') -> (m ≫= k) h = k a h'.
Proof. intros E. unfold mbind, M_bind. by rewrite E. Qed.

Lemma bind_Panic {A B} (m : M A) (k : A -> M B) h f :
  m h = Panic f -> (m ≫= k) h = Panic f.
Proof. intros E. unfold mbind, M_bind. by rewrite E. Qed.

Lemma ret_Ok {A} (a : A) h : mret (M := M) a h = Ok (a, h).
Proof. reflexivity. Qed.

Lemma read_node_Ok h j n :
  nodes h !! j = Some n -> read_node j h = Ok (n, h).
Proof. intros E. unfold read_node. by rewrite E. Qed.

Lemma Value_Ok h j n :
  nodes h !! j = Some n -> Value j h = Ok (data n, h).
Proof. intros E. unfold Value. by rewrite (bind_Ok _ _ _ _ _ (read_node_Ok _ _ _ E)). Qed.

Lemma bind_assoc {A B C} (m : M A) (k1 : A -> M B) (k2 : B -> M C) h :
  ((m ≫= k1) ≫= k2) h = (m ≫= (fun x => k1 x ≫= k2)) h.
Proof. unfold mbind, M_bind. by destruct (m h) as [[] | |]. Qed.

(** Equations for single steps are collected in [gorun]; [run] pushes a
    computation forward with them. *)
Create HintDb gorun.
#[local] Hint Resolve read_node_Ok Value_Ok : gorun.

Ltac run :=
  repeat first
    [ rewrite ret_Ok
    | rewrite bind_assoc
    | erewrite bind_Ok by (first [ eassumption | reflexivity | eauto with gorun ])
    | progress cbn [negb fst snd] ].

Lemma child_lookup h c : nodes (child_of h c) !! length (nodes h) = Some c.
Proof. cbn. by rewrite lookup_app_r, Nat.sub_diag. Qed.

(** ** [Index] *)

(** On anything but a slice, [Index] returns a nil child linked to the
    receiver. *)
Lemma Index_non_slice h j n key :
  nodes h !! j = Some n ->
  (forall t a off len cap, data n <> VSlice t a off len cap) ->
  Index j key h =
    Ok (length (nodes h), child_of h (mkGoJson (Some j) "" key VNil)).
Proof.
  intros Hj Hns. unfold Index. run.
  destruct (data n); try reflexivity. by edestruct Hns.
Qed.

(** Within bounds it returns the element. *)
Lemma Index_in_range h j n t a off len cap key :
  nodes h !! j = Some n ->
  data n = VSlice t a off len cap ->
  in_range key len = true ->
  Index j key h =
    Ok (length (nodes h),
        child_of h (mkGoJson (Some j) "" key
                      (default VNil (array_of h a !! (off + Z.to_nat key))))).
Proof.
  intros Hj Hd Hr. unfold Index. run. rewrite Hd. cbn.
  unfold mbind, M_bind, slice_index. by rewrite Hr.
Qed.

(** Out of bounds the run-time check of [v[key]] in [getSlice] fires:
    there is no guard before it. *)
Lemma Index_out_of_range h j n t a off len cap key :
  nodes h !! j = Some n ->
  data n = VSlice t a off len cap ->
  in_range key len = false ->
  Index j key h = Panic IndexOutOfRange.
Proof.
  intros Hj Hd Hr. unfold Index. run. rewrite Hd. cbn.
  unfold mbind, M_bind, slice_index. by rewrite Hr.
Qed.

(** C2 (the code departs from the specification): the specification has
    [Index] return a nil child for an index out of range and never panic.  On a handle wrapping the
    one-element array [[1]], [Index(5)] panics with an index-out-of-range
    fault, and so does [Index(-1)]; the doc comment of [Index] promises a
    handle whose [IsNil] is true. *)
Theorem C2_Index_out_of_range_panics :
  Index 0 5 h_one = Panic IndexOutOfRange /\
  Index 0 (-1) h_one = Panic IndexOutOfRange.
Proof.
  split; eapply Index_out_of_range; reflexivity.
Qed.

(** ** [Keys] *)

Lemma Keys_nil h j n :
  nodes h !! j = Some n -> data n = VNil -> Keys j h = Ok ([], h).
Proof. intros Hj Hd. unfold Keys. run. by rewrite Hd. Qed.

(** On a plain map the result lists every key once. *)
Lemma Keys_raw_map h j n m :
  nodes h !! j = Some n -> data n = VMap RawMap m ->
  exists ks, Keys j h = Ok (ks, h) /\ NoDup ks /\
             forall k, k ∈ ks <-> is_Some (map_of h m !! k).
Proof.
  intros Hj Hd. exists ((map_to_list (map_of h m)).*1).
  split; [| split].
  - unfold Keys. run. by rewrite Hd.
  - apply NoDup_fst_map_to_list.
  - intros k. rewrite list_elem_of_fmap. split.
    + intros [[k' v] [-> Hin]]. apply elem_of_map_to_list in Hin. by exists v.
    + intros [v Hv]. exists (k, v). split; [done |]. by apply elem_of_map_to_list.
Qed.

(** Every other non-nil value, the type [Dict] included, aborts. *)
Lemma Keys_panics h j n :
  nodes h !! j = Some n ->
  data n <> VNil -> (forall m, data n <> VMap RawMap m) ->
  Keys j h = Panic InputInvalid.
Proof.
  intros Hj Hnil Hmap. unfold Keys. run.
  destruct (data n) as [| | | | | | | | [] ? | |]; try done. by edestruct Hmap.
Qed.

(** C3 (the code departs from the specification): the specification has
    [Keys] return all keys whenever the wrapped value is a mapping.  A handle on a [Dict] is a
    mapping for [IsMap] (and for [Get], [Set], [Remove], [RangeMap]), yet
    [Keys] aborts on it; and since [Clone] builds [Dict]s, [Keys] aborts on
    the clone of the decoded document [{"a": 1}]. *)
Theorem C3_Keys_panics_on_Dict :
  IsMap 0 h_dict = Ok (true, h_dict) /\
  Keys 0 h_dict = Panic InputInvalid /\
  forall growcap decode,
    (c ← Clone growcap decode 2 0; Keys c) h_obj = Panic InputInvalid.
Proof.
  split; [reflexivity |]. split.
  - eapply Keys_panics; [reflexivity | done | done].
  - intros growcap decode. vm_compute. reflexivity.
Qed.

(** ** [Get] and [IsNil] *)

Lemma Get_Ok h j n key :
  nodes h !! j = Some n ->
  Get j key h =
    Ok (length (nodes h),
        child_of h (mkGoJson (Some j) key 0 (fst (getMap key (data n) h)))).
Proof.
  intros Hj. unfold Get. run. unfold get_heap.
  unfold mbind, M_bind. destruct (data n); reflexivity.
Qed.

Lemma IsNil_Ok h j n :
  nodes h !! j = Some n ->
  IsNil j h = Ok (match data n with VNil => true | _ => false end, h).
Proof. intros Hj. unfold IsNil. run. by destruct (data n). Qed.

(** C4 (counterexample): in the decoded document [{"a": null}] the key
    ["a"] is present and the wrapped value is a mapping, yet
    [Get("a").IsNil()] is true. *)
Lemma C4_counterexample :
  (c ← Get 0 "a"; IsNil c) h_null
    = Ok (true, child_of h_null (mkGoJson (Some 0) "a" 0 VNil)) /\
  ~ absent_or_not_map h_null (VMap RawMap (Some 0)) "a".
Proof. split; [reflexivity | by vm_compute]. Qed.

(** C4 (amended): for every handle [j] and key [k], [j.Get(k)] returns a
    handle, and [IsNil] on it is true exactly when [k] is absent from the
    wrapped mapping, or bound to [nil] in it, or the wrapped value of [j]
    is not a mapping. *)
Theorem C4_Get_IsNil h j n k :
  nodes h !! j = Some n ->
  exists c h' b,
    Get j k h = Ok (c, h') /\ IsNil c h' = Ok (b, h') /\
    (b = true <-> absent_nil_or_not_map h (data n) k).
Proof.
  intros Hj. eexists _, _, _. split; [by apply Get_Ok |].
  split; [apply IsNil_Ok, child_lookup |]. cbn [data].
  unfold absent_nil_or_not_map, getMap, map_index.
  destruct (data n); cbn; try tauto.
  destruct (map_of h m !! k) as [[]|]; cbn; intuition congruence.
Qed.

Lemma C4_Get_IsNil_witness :
  exists c h' b,
    Get 0 "a" h_null = Ok (c, h') /\ IsNil c h' = Ok (b, h') /\
    (b = true <-> absent_nil_or_not_map h_null (VMap RawMap (Some 0)) "a").
Proof.
  apply (C4_Get_IsNil h_null 0 (mkGoJson None "" 0 (VMap RawMap (Some 0))) "a").
  reflexivity.
Defined.

(** ** [ToInt] and [ToFloat64] on the integer types *)

Lemma to_int_id n : (MinInt64 <= n <= MaxInt64)%Z -> to_int n = n.
Proof.
  unfold to_int, MinInt64, MaxInt64. intros Hn.
  rewrite Z.mod_small by lia. lia.
Qed.

Lemma in_kind_int k n :
  in_kind k n -> (wide_unsigned k = true -> (n <= MaxInt64)%Z) ->
  (MinInt64 <= n <= MaxInt64)%Z.
Proof.
  unfold in_kind.
  destruct k; cbn; unfold MinInt64, MaxInt64, maxUint64; intros Hk Hw;
    try lia; specialize (Hw eq_refl); lia.
Qed.

(** Every integer value that fits in [int] is returned as it is. *)
Lemma ToInt_width k n :
  in_kind k n -> (wide_unsigned k = true -> (n <= MaxInt64)%Z) ->
  ToInt (VInt k n) = (n, None).
Proof.
  intros Hk Hw. pose proof (in_kind_int k n Hk Hw) as Hr.
  destruct k; cbn [ToInt]; rewrite ?to_int_id by done; try reflexivity.
  destruct (Z.ltb_spec MaxInt64 n); [lia | reflexivity].
Qed.

(** A [uint64] above the largest [int] is an error. *)
Lemma ToInt_uint64_overflow n :
  (MaxInt64 < n)%Z ->
  ToInt (VInt KUint64 n) = (0%Z, Some (Overflowed (VInt KUint64 n))).
Proof.
  intros Hn. cbn [ToInt]. destruct (Z.ltb_spec MaxInt64 n); [reflexivity | lia].
Qed.

Section CoercionProps.
Variable ParseFloat : string -> spec_float * option numerr.

(** [ToFloat64] converts through [ToInt] for every integer type it
    lists. *)
Lemma ToFloat64_width k n :
  k <> KInt32 ->
  in_kind k n -> (wide_unsigned k = true -> (n <= MaxInt64)%Z) ->
  ToFloat64 ParseFloat (VInt k n) = (float64_of_int n, None).
Proof.
  intros Hk Hin Hw. pose proof (ToInt_width k n Hin Hw) as E.
  destruct k; try done; unfold ToFloat64; by rewrite E.
Qed.

Lemma ToFloat64_uint64_overflow n :
  (MaxInt64 < n)%Z ->
  snd (ToFloat64 ParseFloat (VInt KUint64 n)) = Some (Overflowed (VInt KUint64 n)).
Proof.
  intros Hn. unfold ToFloat64. by rewrite ToInt_uint64_overflow.
Qed.

(** [ToFloat64(uint64(10))] is 10.0 with no error. *)
Lemma ToFloat64_uint64_ten :
  ToFloat64 ParseFloat (VInt KUint64 10) = (float_ten, None).
Proof. reflexivity. Qed.

Lemma float_ten_exact :
  float_ten = float64_of_int 10 /\ int_of_float float_ten = 10%Z /\
  (5629499534213120 = 10 * 2 ^ 49)%Z.
Proof. repeat split. Qed.

Lemma Float64_Ok h j n :
  nodes h !! j = Some n ->
  Float64 ParseFloat j h =
    Ok (match data n with
        | VNil => (S754_zero false, Some (NotFloat64 VNil))
        | v => ToFloat64 ParseFloat v
        end, h).
Proof. intros Hj. unfold Float64. run. by destruct (data n). Qed.

End CoercionProps.

Lemma Int_Ok h j n :
  nodes h !! j = Some n ->
  Int j h =
    Ok (match data n with
        | VNil => (0%Z, Some (NotInt VNil))
        | v => ToInt v
        end, h).
Proof. intros Hj. unfold Int. run. by destruct (data n). Qed.

(** C5 (the code departs from the specification): the specification has
    [Float64()] coerce every 8/16/32/64-bit integer variant.  The integer case of [ToFloat64] lists
    nine integer types and leaves [int32] out, so an [int32] falls through
    to the error return, for every value and also through a handle
    ([Int()] on the same handle succeeds).  Besides, [ToInt] guards only
    [uint64] against overflow: a [uint] above the largest [int] wraps
    around silently. *)
Theorem C5_Float64_rejects_int32 :
  forall ParseFloat,
    (forall n, ToFloat64 ParseFloat (VInt KInt32 n)
               = (S754_zero false, Some (CannotConvertToFloat (VInt KInt32 n)))) /\
    Float64 ParseFloat 0 h_int32
      = Ok ((S754_zero false, Some (CannotConvertToFloat (VInt KInt32 7))), h_int32) /\
    Int 0 h_int32 = Ok ((7%Z, None), h_int32) /\
    ToInt (VInt KUint (2 ^ 63)) = (MinInt64, None).
Proof.
  intros ParseFloat. split; [reflexivity |].
  split; [by rewrite (Float64_Ok _ h_int32 0 _ eq_refl) |].
  split; reflexivity.
Qed.

(** ** [Int] on strings *)

(** The digit loop returns the number the digits denote, as long as it
    fits. *)
Lemma digit_val_range c : is_digit c = true -> (0 <= digit_val c <= 9)%Z.
Proof.
  unfold is_digit, digit_val. intros H. apply andb_true_iff in H as [H1 H2].
  apply Nat.leb_le in H1, H2. lia.
Qed.

Lemma digits_value_ge s acc :
  all_digits s = true -> (0 <= acc)%Z -> (acc <= digits_value s acc)%Z.
Proof.
  revert acc. induction s as [| c s IH]; cbn; intros acc Hd Hacc; [lia |].
  apply andb_true_iff in Hd as [Hc Hs]. pose proof (digit_val_range c Hc).
  specialize (IH (acc * 10 + digit_val c)%Z Hs ltac:(lia)). lia.
Qed.

Lemma parse_digits_ok s acc :
  all_digits s = true -> (0 <= acc)%Z -> (digits_value s acc <= maxUint64)%Z ->
  parse_digits s acc = (digits_value s acc, None).
Proof.
  revert acc. induction s as [| c s IH]; cbn; intros acc Hd Hacc Hfit; [done |].
  apply andb_true_iff in Hd as [Hc Hs]. rewrite Hc.
  pose proof (digit_val_range c Hc).
  pose proof (digits_value_ge s (acc * 10 + digit_val c)%Z Hs ltac:(lia)) as Hge.
  unfold maxUint64 in *.
  destruct (Z.leb_spec (((2 ^ 64 - 1) / 10 + 1))%Z acc) as [Hcut | _].
  { exfalso. change ((2 ^ 64 - 1) / 10 + 1)%Z with 1844674407370955162%Z in Hcut. lia. }
  destruct (Z.ltb_spec (2 ^ 64 - 1)%Z (acc * 10 + digit_val c)%Z); [lia |].
  apply IH; [done | lia | done].
Qed.

(** [Atoi] on a non-empty string of digits that fits in [int]. *)
Lemma Atoi_digits c s :
  all_digits (String c s) = true ->
  (digits_value (String c s) 0 <= MaxInt64)%Z ->
  Atoi (String c s) = (digits_value (String c s) 0, None).
Proof.
  intros Hd Hfit. unfold Atoi, ParseInt.
  assert (Hc : is_digit c = true) by (cbn in Hd; by apply andb_true_iff in Hd as [? _]).
  assert (Hp : Ascii.eqb c "+" = false /\ Ascii.eqb c "-" = false).
  { split; apply Ascii.eqb_neq; intros ->; done. }
  destruct Hp as [-> ->]. cbn [orb negb andb].
  unfold ParseUint. unfold MaxInt64 in Hfit.
  rewrite (parse_digits_ok (String c s) 0 Hd ltac:(lia))
    by (unfold maxUint64; lia).
  destruct (Z.leb_spec (2 ^ 63) (digits_value (String c s) 0)); [lia | done].
Qed.

(** The source's [Contains]/[Split] pair computes the prefix before the
    first dot. *)
Lemma Split_nonempty s sep : Split s sep <> [].
Proof. destruct s as [| c s]; cbn; [done |]. destruct (Ascii.eqb c sep); [done |]. by destruct (Split s sep). Qed.

Lemma Split_hd s : hd EmptyString (Split s ".") = before_dot s.
Proof.
  induction s as [| c s IH]; cbn; [done |].
  destruct (Ascii.eqb c "."); [done |].
  pose proof (Split_nonempty s ".") as Hne.
  destruct (Split s "."); [done |]. cbn in *. by rewrite IH.
Qed.

Lemma before_dot_no_dot s : Contains s "." = false -> before_dot s = s.
Proof.
  induction s as [| c s IH]; cbn; [done |].
  destruct (Ascii.eqb c "."); cbn; [done |]. intros H. by rewrite IH.
Qed.

(** [before_dot s] is a dot-free prefix of [s], and what follows it is
    empty or starts with a dot. *)
Lemma before_dot_spec s :
  exists rest,
    s = (before_dot s ++ rest)%string /\
    Contains (before_dot s) "." = false /\
    (rest = EmptyString \/ exists r, rest = String "." r).
Proof.
  induction s as [| c s (rest & Hs & Hnd & Hrest)]; cbn.
  - exists EmptyString. auto.
  - destruct (Ascii.eqb_spec c ".") as [-> | Hc].
    + exists (String "." s). eauto.
    + exists rest. split; [exact (f_equal (String c) Hs) |]. split; [| done].
      cbn.
      rewrite Hnd. by destruct (Ascii.eqb_spec c ".").
Qed.

Lemma ToInt_string s : ToInt (VString s) = Int_of_string_spec s.
Proof.
  unfold ToInt, Int_of_string_spec.
  replace (if Contains s "." then hd EmptyString (Split s ".") else s)
    with (before_dot s).
  2:{ destruct (Contains s ".") eqn:E; [by rewrite Split_hd | by apply before_dot_no_dot]. }
  destruct (before_dot s) as [| c p]; [done |].
  cbn [String.eqb]. by destruct (Atoi (String c p)) as [? []].
Qed.

(** C6: for a handle wrapping a string [s], [Int()] yields the prefix of
    [s] before the first ['.'] parsed as an integer, and [0] without error
    when that prefix is empty; for a handle wrapping [nil], [Int()]
    returns an error.  (The instances ["42.9"], [""] and [nil] follow the
    theorem.) *)
Theorem C6_Int_string_truncates h j n :
  nodes h !! j = Some n ->
  match data n with
  | VString s =>
      Int j h = Ok (Int_of_string_spec s, h) /\
      (before_dot s = EmptyString -> Int j h = Ok ((0%Z, None), h))
  | VNil => Int j h = Ok ((0%Z, Some (NotInt VNil)), h)
  | _ => True
  end.
Proof.
  intros Hj. rewrite (Int_Ok h j n Hj).
  destruct (data n) as [| | | | | | s | | | |]; try done.
  rewrite ToInt_string. split; [done |].
  intros E. unfold Int_of_string_spec. by rewrite E.
Qed.

Lemma C6_Int_string_truncates_witness :
  Int 0 (h_str "42.9") = Ok ((42%Z, None), h_str "42.9") /\
  Int 0 (h_str "") = Ok ((0%Z, None), h_str "") /\
  Int 0 h_nil = Ok ((0%Z, Some (NotInt VNil)), h_nil).
Proof.
  split; [| split].
  - exact (proj1 (C6_Int_string_truncates (h_str "42.9") 0 _ eq_refl)).
  - exact (proj1 (C6_Int_string_truncates (h_str "") 0 _ eq_refl)).
  - exact (C6_Int_string_truncates h_nil 0 _ eq_refl).
Defined.

(** ** Slices and [append] *)

Lemma slice_elems_lookup h a off len k :
  slice_elems h a off len !! k
    = if decide (k < len) then array_of h a !! (off + k) else None.
Proof. unfold slice_elems. rewrite lookup_take, lookup_drop. done. Qed.

Lemma slice_elems_length h a off len cap :
  slice_ok h a off len cap -> length (slice_elems h a off len) = len.
Proof.
  intros [Hl Hc]. unfold slice_elems. rewrite length_take, length_drop. lia.
Qed.

Lemma slice_elems_ext h h' a a' off off' len :
  (forall k, k < len -> array_of h' a' !! (off' + k) = array_of h a !! (off + k)) ->
  slice_elems h' a' off' len = slice_elems h a off len.
Proof.
  intros H. apply list_eq. intros k. rewrite !slice_elems_lookup.
  case_decide; auto.
Qed.

Lemma unwrap_Ok h x v : unwrapped h x = Some v -> unwrap x h = Ok (v, h).
Proof.
  destruct x; cbn; try (by intros [= ->]).
  intros E. destruct (nodes h !! p) as [n |] eqn:Hp; [| done].
  injection E as <-. by apply Value_Ok.
Qed.

#[local] Hint Resolve unwrap_Ok : gorun.

Lemma array_of_write h a i vals b :
  array_of (mkHeap (nodes h) (maps h)
              (<[a := list_inserts i vals (array_of h a)]> (arrays h))) b
    = if decide (b = a) then list_inserts i vals (array_of h a) else array_of h b.
Proof.
  set (w := list_inserts i vals (array_of h a)).
  assert (Hw : a < length (arrays h) \/ w = []).
  { destruct (decide (a < length (arrays h))) as [| Hge]; [by left | right].
    unfold w, array_of. rewrite (lookup_ge_None_2 (arrays h) a) by lia.
    apply list_inserts_nil. }
  unfold array_of at 1. change (arrays (mkHeap _ _ ?x)) with x.
  case_decide as E.
  - subst b. destruct Hw as [Hlt | Hnil].
    + by rewrite list_lookup_insert_eq.
    + destruct (decide (a < length (arrays h))).
      * by rewrite list_lookup_insert_eq.
      * rewrite list_insert_ge, (lookup_ge_None_2 (arrays h) a) by lia.
        by rewrite Hnil.
  - by rewrite list_lookup_insert_ne.
Qed.

Lemma modifies_refl h a lo hi : modifies h h a lo hi.
Proof. repeat split; auto. Qed.

(** Writes compose when the later one stays inside the earlier window or
    goes to an array allocated in between. *)
Lemma modifies_trans h h1 h2 a lo hi a' lo' hi' :
  modifies h h1 a lo hi -> modifies h1 h2 a' lo' hi' ->
  (a' = a /\ lo <= lo' /\ hi' <= hi) \/ length (arrays h) <= a' \/ hi' <= lo' ->
  modifies h h2 a lo hi.
Proof.
  intros (Hn1 & Hm1 & Hl1 & Hc1) (Hn2 & Hm2 & Hl2 & Hc2) Hw.
  split; [congruence |]. split; [congruence |]. split; [lia |].
  intros b Hb. destruct (Hc1 b Hb) as [Hlen1 Hcell1].
  destruct (Hc2 b ltac:(lia)) as [Hlen2 Hcell2].
  split; [congruence |]. intros i Hi.
  rewrite Hcell2, Hcell1; [done | done |].
  intros [-> Hr]. destruct Hw as [(-> & ? & ?) | [? | ?]]; [| lia | lia].
  apply Hi. split; [done | lia].
Qed.

(** Cells outside the window keep their content. *)
Lemma modifies_slice_elems h h' a lo hi pa poff plen pcap :
  modifies h h' a lo hi ->
  slice_ok h pa poff plen pcap ->
  pa <> a \/ poff + plen <= lo \/ hi <= poff ->
  slice_elems h' pa poff plen = slice_elems h pa poff plen.
Proof.
  intros (_ & _ & _ & Hc) [Hlc Hcap] Hsep.
  apply slice_elems_ext. intros k Hk.
  assert (pa < length (arrays h)) as Hpa.
  { destruct (decide (pa < length (arrays h))); [done |].
    unfold array_of in Hcap. rewrite (lookup_ge_None_2 (arrays h) pa) in Hcap by lia.
    cbn in Hcap. lia. }
  apply (Hc pa Hpa). intros [-> Hr]. lia.
Qed.

Section AppendProps.
Variable growcap : nat -> nat -> nat.

(** The built-in [append]: the result has the old elements followed by
    the new ones; only the cells past the old length (or a fresh array)
    are written. *)
Lemma go_append_spec t a off len cap vals h :
  slice_ok h a off len cap ->
  exists a' off' cap' h',
    go_append growcap t a off len cap vals h
      = Ok (VSlice t a' off' (len + length vals) cap', h') /\
    slice_ok h' a' off' (len + length vals) cap' /\
    slice_elems h' a' off' (len + length vals) = slice_elems h a off len ++ vals /\
    modifies h h' a (off + len) (off + len + length vals) /\
    ((a' = a /\ off' = off /\ cap' = cap) \/
     (a' = length (arrays h) /\ off' = 0 /\ modifies h h' a 0 0)).
Proof.
  intros [Hlc Hcap]. unfold go_append. cbn zeta.
  destruct (decide (len + length vals <= cap)) as [Hfit | Hgrow].
  - eexists a, off, cap, _. split; [reflexivity |].
    assert (Hlenw : forall b,
      length (array_of (mkHeap (nodes h) (maps h)
                 (<[a := list_inserts (off + len) vals (array_of h a)]> (arrays h))) b)
      = length (array_of h b)).
    { intros b. rewrite array_of_write. case_decide; [subst|]; by rewrite ?length_inserts. }
    split; [| split; [| split]].
    + split; [lia |]. by rewrite Hlenw.
    + apply list_eq. intros k. rewrite slice_elems_lookup, array_of_write.
      destruct (decide (a = a)) as [_ |]; [| done].
      destruct (decide (k < len)) as [Hk | Hk].
      * rewrite decide_True by lia. rewrite list_lookup_inserts_lt by lia.
        rewrite lookup_app_l by (rewrite (slice_elems_length h a off len cap); [lia | done]).
        rewrite slice_elems_lookup. by rewrite decide_True.
      * rewrite lookup_app_r by (rewrite (slice_elems_length h a off len cap); [lia | done]).
        rewrite (slice_elems_length h a off len cap) by done.
        case_decide.
        -- rewrite list_lookup_inserts by lia. f_equal. lia.
        -- symmetry. apply lookup_ge_None_2. lia.
    + split; [done |]. split; [done |]. split.
      { cbn. by rewrite length_insert. }
      intros b Hb. split; [apply Hlenw |].
      intros i Hi. rewrite array_of_write. case_decide as E; [| done]. subst b.
      destruct (decide (i < off + len)).
      * by rewrite list_lookup_inserts_lt.
      * rewrite list_lookup_inserts_ge; [done |].
        destruct (decide (off + len + length vals <= i)); [lia |].
        exfalso. apply Hi. split; [done | lia].
    + by left.
  - set (n := len + length vals).
    set (newcap := n `max` growcap cap n).
    set (contents := slice_elems h a off len ++ vals ++ replicate (newcap - n) VNil).
    assert (Hlen_e : length (slice_elems h a off len) = len)
      by (by apply (slice_elems_length h a off len cap)).
    assert (Hcl : length contents = newcap).
    { unfold contents. rewrite !length_app, length_replicate, Hlen_e. lia. }
    assert (Hnew : forall b,
      array_of (mkHeap (nodes h) (maps h) (arrays h ++ [contents])) b
      = if decide (b = length (arrays h)) then contents else array_of h b).
    { intros b. unfold array_of. cbn. case_decide as E.
      - subst b. by rewrite lookup_app_r, Nat.sub_diag.
      - destruct (decide (b < length (arrays h))).
        + by rewrite lookup_app_l.
        + rewrite !lookup_ge_None_2; [done | lia | rewrite length_app; cbn; lia]. }
    exists (length (arrays h)), 0, newcap, (mkHeap (nodes h) (maps h) (arrays h ++ [contents])).
    split; [reflexivity |]. split; [| split; [| split]].
    + split; [lia |]. rewrite Hnew, decide_True by done. lia.
    + unfold slice_elems at 1. rewrite Hnew, decide_True by done. cbn [drop].
      unfold contents. rewrite app_assoc.
      apply take_app_length'. rewrite length_app, Hlen_e. done.
    + split; [done |]. split; [done |]. split.
      { cbn. rewrite length_app. lia. }
      intros b Hb. rewrite Hnew, decide_False by lia. done.
    + right. split; [done |]. split; [done |].
      split; [done |]. split; [done |]. split.
      { cbn. rewrite length_app. lia. }
      intros b Hb. rewrite Hnew, decide_False by lia. done.
Qed.

Lemma appendSlice_spec t a off len cap v v' h :
  slice_ok h a off len cap ->
  unwrapped h v = Some v' ->
  exists a' off' cap' h',
    appendSlice growcap (VSlice t a off len cap) v h
      = Ok ((VSlice t a' off' (S len) cap', true), h') /\
    slice_ok h' a' off' (S len) cap' /\
    slice_elems h' a' off' (S len) = slice_elems h a off len ++ [v'] /\
    modifies h h' a (off + len) (off + len + 1) /\
    ((a' = a /\ off' = off /\ cap' = cap) \/
     (a' = length (arrays h) /\ off' = 0 /\ modifies h h' a 0 0)).
Proof.
  intros Hok Hv.
  destruct (go_append_spec t a off len cap [v'] h Hok)
    as (a' & off' & cap' & h' & E & Hok' & Hel & Hmod & Hwhere).
  cbn [length] in *. replace (len + 1) with (S len) in * by lia.
  exists a', off', cap', h'. split; [| done].
  unfold appendSlice. rewrite (bind_Ok _ _ _ _ _ (unwrap_Ok _ _ _ Hv)).
  by rewrite (bind_Ok _ _ _ _ _ E).
Qed.

Lemma appendSlice_non_slice d v v' h :
  unwrapped h v = Some v' ->
  (forall t a off len cap, d <> VSlice t a off len cap) ->
  appendSlice growcap d v h = Ok ((VNil, false), h).
Proof.
  intros Hv Hd. unfold appendSlice. rewrite (bind_Ok _ _ _ _ _ (unwrap_Ok _ _ _ Hv)).
  destruct d; try reflexivity. by edestruct Hd.
Qed.

Lemma write_data_Ok h j n d :
  nodes h !! j = Some n -> write_data j d h = Ok (tt, set_data h j n d).
Proof. intros E. unfold write_data. by rewrite E. Qed.

#[local] Hint Resolve write_data_Ok : gorun.

Lemma set_data_lookup h j n d :
  nodes h !! j = Some n ->
  nodes (set_data h j n d) !! j = Some (mkGoJson (prev n) (prevKey n) (prevIndex n) d).
Proof. intros E. cbn. apply list_lookup_insert_eq. by eapply lookup_lt_Some. Qed.

Lemma set_data_lookup_ne h j n d p :
  p <> j -> nodes (set_data h j n d) !! p = nodes h !! p.
Proof. intros E. cbn. by apply list_lookup_insert_ne. Qed.

(** *** [Set] and [maintainParent] *)

Lemma Set_string_map h j n key t l x v :
  nodes h !! j = Some n -> data n = VMap t (Some l) ->
  unwrapped h x = Some v ->
  Set_ j (VString key) x h
    = Ok (j, mkHeap (nodes h) (<[l := <[key := v]> (map_of h (Some l))]> (maps h)) (arrays h)).
Proof.
  intros Hj Hd Hx. unfold Set_. run. rewrite Hd. unfold setMap. run.
  reflexivity.
Qed.

Lemma Set_int_slice h j n idx t a off len cap x v :
  nodes h !! j = Some n -> data n = VSlice t a off len cap ->
  unwrapped h x = Some v ->
  in_range idx len = true ->
  Set_ j (VInt KInt idx) x h
    = Ok (j, mkHeap (nodes h) (maps h)
               (<[a := list_inserts (off + Z.to_nat idx) [v] (array_of h a)]> (arrays h))).
Proof.
  intros Hj Hd Hx Hr. unfold Set_. run. rewrite Hd. unfold setSlice. run.
  unfold slice_assign. rewrite Hr. reflexivity.
Qed.

(** No parent, or a parent wrapping anything but a plain map or plain
    slice: nothing is written. *)
Lemma maintainParent_none h j c :
  nodes h !! j = Some c -> prev c = None -> maintainParent j h = Ok (tt, h).
Proof. intros Hj Hp. unfold maintainParent. run. by rewrite Hp. Qed.

Lemma maintainParent_not_raw h j c p pn :
  nodes h !! j = Some c -> prev c = Some p ->
  nodes h !! p = Some pn -> is_raw (data pn) = false ->
  maintainParent j h = Ok (tt, h).
Proof.
  intros Hj Hp Hpn Hraw. unfold maintainParent. run. rewrite Hp. run.
  destruct (data pn) as [| | | | | | | | [] ? | [] ? ? ? ? |]; done.
Qed.

Lemma maintainParent_map h j c p pn l :
  nodes h !! j = Some c -> prev c = Some p ->
  nodes h !! p = Some pn -> data pn = VMap RawMap (Some l) ->
  maintainParent j h
    = Ok (tt, mkHeap (nodes h)
                (<[l := <[prevKey c := data c]> (map_of h (Some l))]> (maps h))
                (arrays h)).
Proof.
  intros Hj Hp Hpn Hd. unfold maintainParent. run. rewrite Hp. run. rewrite Hd.
  erewrite bind_Ok; [reflexivity |].
  eapply Set_string_map; [done | done |]. cbn. by rewrite Hj.
Qed.

Lemma maintainParent_slice h j c p pn pa poff plen pcap :
  nodes h !! j = Some c -> prev c = Some p ->
  nodes h !! p = Some pn -> data pn = VSlice RawSlice pa poff plen pcap ->
  in_range (prevIndex c) plen = true ->
  maintainParent j h
    = Ok (tt, mkHeap (nodes h) (maps h)
                (<[pa := list_inserts (poff + Z.to_nat (prevIndex c)) [data c]
                           (array_of h pa)]> (arrays h))).
Proof.
  intros Hj Hp Hpn Hd Hr. unfold maintainParent. run. rewrite Hp. run. rewrite Hd.
  erewrite bind_Ok; [reflexivity |].
  eapply Set_int_slice; [done | done | | done]. cbn. by rewrite Hj.
Qed.

(** *** [Append] *)

(** [Append] up to the call of [maintainParent]: the element is stored
    past the old length and the handle's header replaced. *)
Lemma Append_steps h j n t a off len cap x v1 v2 :
  nodes h !! j = Some n -> data n = VSlice t a off len cap ->
  slice_ok h a off len cap ->
  unwrapped h x = Some v1 -> unwrapped h v1 = Some v2 ->
  exists a' off' cap' h1,
    Append growcap j x h
      = (maintainParent j ≫= fun _ => mret j)
          (set_data h1 j n (VSlice t a' off' (S len) cap')) /\
    slice_ok h1 a' off' (S len) cap' /\
    slice_elems h1 a' off' (S len) = slice_elems h a off len ++ [v2] /\
    modifies h h1 a (off + len) (off + len + 1) /\
    ((a' = a /\ off' = off /\ cap' = cap) \/
     (a' = length (arrays h) /\ off' = 0 /\ modifies h h1 a 0 0)).
Proof.
  intros Hj Hd Hok Hx1 Hx2.
  destruct (appendSlice_spec t a off len cap v1 v2 h Hok Hx2)
    as (a' & off' & cap' & h1 & E & Hok1 & Hel & Hmod & Hwhere).
  exists a', off', cap', h1. split; [| done].
  assert (Hj1 : nodes h1 !! j = Some n) by (destruct Hmod as [-> _]; done).
  unfold Append. run. rewrite Hd. run. reflexivity.
Qed.

(** On anything but a slice [Append] changes nothing and returns the
    receiver. *)
Lemma Append_non_slice h j n x v1 :
  nodes h !! j = Some n ->
  (forall t a off len cap, data n <> VSlice t a off len cap) ->
  unwrapped h x = Some v1 -> is_Some (unwrapped h v1) ->
  Append growcap j x h = Ok (j, h).
Proof.
  intros Hj Hd Hx1 [v2 Hx2]. unfold Append. run.
  rewrite (bind_Ok _ _ _ _ _ (appendSlice_non_slice _ _ _ _ Hx2 Hd)). reflexivity.
Qed.

Lemma slice_ok_allocated h a off len cap :
  slice_ok h a off len cap -> 0 < cap -> a < length (arrays h).
Proof.
  intros [Hlc Hcap] Hpos. destruct (decide (a < length (arrays h))); [done |].
  unfold array_of in Hcap. rewrite (lookup_ge_None_2 (arrays h) a) in Hcap by lia.
  cbn in Hcap. lia.
Qed.

Lemma in_range_lt idx len : in_range idx len = true -> Z.to_nat idx < len.
Proof. unfold in_range. intros H. apply andb_true_iff in H as [H1 H2]. lia. Qed.

Lemma modifies_length_le h h' a lo hi b :
  modifies h h' a lo hi -> length (array_of h b) <= length (array_of h' b).
Proof.
  intros (_ & _ & _ & Hc). destruct (decide (b < length (arrays h))) as [Hb | Hb].
  - by destruct (Hc b Hb) as [-> _].
  - unfold array_of at 1. rewrite (lookup_ge_None_2 (arrays h) b) by lia. cbn. lia.
Qed.

Lemma slice_ok_modifies h h' a lo hi pa poff plen pcap :
  modifies h h' a lo hi -> slice_ok h pa poff plen pcap ->
  slice_ok h' pa poff plen pcap.
Proof.
  intros Hmod [? ?]. pose proof (modifies_length_le h h' a lo hi pa Hmod).
  split; [done | lia].
Qed.

Lemma parent_ok_modifies h h' a lo hi pv idx :
  modifies h h' a lo hi -> parent_ok h pv idx -> parent_ok h' pv idx.
Proof.
  intros Hmod. destruct pv as [| | | | | | | | [] m | [] pa poff plen pcap |]; try done.
  - intros (l & -> & Hl). exists l. destruct Hmod as (_ & -> & _). done.
  - intros [Hr Hok]. split; [done |]. by eapply slice_ok_modifies.
Qed.

Lemma parent_ok_set_data h j n d pv idx :
  parent_ok h pv idx -> parent_ok (set_data h j n d) pv idx.
Proof. by destruct pv as [| | | | | | | | [] m | [] pa poff plen pcap |]. Qed.

(** With a sound parent link, [maintainParent] computes [write_back]. *)
Lemma maintainParent_linked h j c :
  nodes h !! j = Some c -> linked h j c ->
  maintainParent j h = Ok (tt, write_back h c).
Proof.
  intros Hj Hl. unfold linked, write_back in *.
  destruct (prev c) as [p |] eqn:Hp; [| by eapply maintainParent_none].
  destruct Hl as (Hne & pn & Hpn & Hok). unfold node_data. rewrite Hpn. cbn.
  destruct (data pn) as [| | | | | | | | [] m | [] pa poff plen pcap |] eqn:Hd;
    try (eapply maintainParent_not_raw; [done | done | done | by rewrite Hd]).
  - destruct Hok as (l & -> & _). by eapply maintainParent_map.
  - destruct Hok as [Hr _]. by eapply maintainParent_slice.
Qed.

Lemma linked_set_data h h1 j n d a lo hi :
  nodes h !! j = Some n -> modifies h h1 a lo hi -> linked h j n ->
  linked (set_data h1 j n d) j (mkGoJson (prev n) (prevKey n) (prevIndex n) d).
Proof.
  intros Hj Hmod Hl. unfold linked in *. cbn [prev prevIndex].
  destruct (prev n) as [p |]; [| done].
  destruct Hl as (Hne & pn & Hpn & Hok). split; [done |]. exists pn. split.
  - rewrite set_data_lookup_ne by done. destruct Hmod as [-> _]. done.
  - apply parent_ok_set_data. by eapply parent_ok_modifies.
Qed.

(** [Append] on a slice, in full: the element goes past the old length,
    the handle gets the new header, then the write-back runs. *)
Lemma Append_result h j n t a off len cap x v1 v2 :
  nodes h !! j = Some n -> data n = VSlice t a off len cap ->
  slice_ok h a off len cap ->
  unwrapped h x = Some v1 -> unwrapped h v1 = Some v2 ->
  linked h j n ->
  exists a' off' cap' h1,
    let c := mkGoJson (prev n) (prevKey n) (prevIndex n) (VSlice t a' off' (S len) cap') in
    Append growcap j x h = Ok (j, write_back (set_data h1 j n (data c)) c) /\
    slice_ok h1 a' off' (S len) cap' /\
    slice_elems h1 a' off' (S len) = slice_elems h a off len ++ [v2] /\
    modifies h h1 a (off + len) (off + len + 1) /\
    ((a' = a /\ off' = off /\ cap' = cap) \/
     (a' = length (arrays h) /\ off' = 0 /\ modifies h h1 a 0 0)).
Proof.
  intros Hj Hd Hok Hx1 Hx2 Hl.
  destruct (Append_steps h j n t a off len cap x v1 v2 Hj Hd Hok Hx1 Hx2)
    as (a' & off' & cap' & h1 & E & Hrest).
  exists a', off', cap', h1. split; [| done]. rewrite E.
  destruct Hrest as (_ & _ & Hmod & _).
  assert (Hj1 : nodes h1 !! j = Some n) by (destruct Hmod as [-> _]; done).
  erewrite bind_Ok; [reflexivity |]. cbn [data].
  apply maintainParent_linked.
  - by apply set_data_lookup.
  - by apply (linked_set_data h h1 j n _ a (off + len) (off + len + 1)).
Qed.

(** *** [Insert] *)

Lemma modifies_mono h h' a lo hi lo' hi' :
  modifies h h' a lo hi -> lo' <= lo -> hi <= hi' -> modifies h h' a lo' hi'.
Proof.
  intros (Hn & Hm & Hl & Hc) ? ?. repeat (split; [done |]).
  intros b Hb. destruct (Hc b Hb) as [Hlen Hcell]. split; [done |].
  intros i Hi. apply Hcell. intros [-> ?]. apply Hi. split; [done | lia].
Qed.

Lemma modifies_nothing h h' a lo b lo' hi' :
  modifies h h' a lo lo -> modifies h h' b lo' hi'.
Proof.
  intros (Hn & Hm & Hl & Hc). repeat (split; [done |]).
  intros c Hc'. destruct (Hc c Hc') as [Hlen Hcell]. split; [done |].
  intros i _. apply Hcell. lia.
Qed.

Lemma slice_elems_take_drop h a off len i :
  i <= len ->
  slice_elems h a off i = take i (slice_elems h a off len) /\
  slice_elems h a (off + i) (len - i) = drop i (slice_elems h a off len).
Proof.
  intros Hi. split; apply list_eq; intros k.
  - rewrite lookup_take, !slice_elems_lookup.
    repeat case_decide; try done; lia.
  - rewrite lookup_drop, !slice_elems_lookup.
    repeat case_decide; try lia; [f_equal; lia | done].
Qed.

(** [insertSlice] at a position within the slice: the element lands at
    that position, the tail moves up by one; the cells written are those
    from the position on (or a fresh array). *)
Lemma insertSlice_spec t a off len cap idx x v h :
  slice_ok h a off len cap ->
  unwrapped h x = Some v ->
  (0 <= idx <= Z.of_nat len)%Z ->
  exists a' off' cap' h',
    insertSlice growcap idx (VSlice t a off len cap) x h
      = Ok ((VSlice t a' off' (S len) cap', true), h') /\
    slice_ok h' a' off' (S len) cap' /\
    slice_elems h' a' off' (S len)
      = take (Z.to_nat idx) (slice_elems h a off len) ++ [v]
        ++ drop (Z.to_nat idx) (slice_elems h a off len) /\
    modifies h h' a (off + Z.to_nat idx) (off + len + 1) /\
    ((a' = a /\ off' = off /\ cap' = cap) \/ length (arrays h) <= a').
Proof.
  intros Hok Hv Hidx. set (i := Z.to_nat idx). assert (Hi : i <= len) by lia.
  destruct (slice_elems_take_drop h a off len i Hi) as [Htake Hdrop].
  set (R := slice_elems h a (off + i) (len - i)).
  assert (HR : length R = len - i).
  { subst R. rewrite Hdrop, length_drop, (slice_elems_length h a off len cap); done. }
  (* rear *)
  destruct (go_append_spec RawSlice 0 0 0 0 R h) as
    (ra & roff & rcap & h1 & E1 & Hok1 & Hel1 & _ & Hw1).
  { split; cbn; lia. }
  cbn [Nat.add] in E1, Hok1, Hel1.
  assert (Hmod1 : modifies h h1 a (off + i) (off + i)).
  { destruct Hw1 as [(-> & -> & ->) | (_ & _ & Hm)]; [| by eapply modifies_nothing].
    destruct Hok1 as [Hz _]. assert (R = []) as HRnil by (apply nil_length_inv; lia).
    revert E1. unfold go_append. rewrite HRnil. cbn.
    intros [= <-]. split; [done |]. split; [done |]. split.
    { cbn. by rewrite length_insert. }
    intros b Hb. pose proof (array_of_write h 0 0 [] b) as Hwr. cbn in Hwr.
    rewrite Hwr. by case_decide; subst. }
  (* the element *)
  destruct Hok as [Hlc Hcap].
  assert (Hoki : slice_ok h1 a off i cap).
  { eapply slice_ok_modifies; [exact Hmod1 |]. split; [lia | done]. }
  destruct (go_append_spec t a off i cap [v] h1 Hoki) as
    (a2 & off2 & cap2 & h2 & E2 & Hok2 & Hel2 & Hmod2 & Hw2).
  cbn [length] in E2, Hok2, Hel2, Hmod2.
  (* the tail *)
  destruct (go_append_spec t a2 off2 (i + 1) cap2 R h2 Hok2) as
    (a3 & off3 & cap3 & h3 & E3 & Hok3 & Hel3 & Hmod3 & Hw3).
  assert (Hel1' : slice_elems h1 ra roff (length R) = R).
  { rewrite Hel1. unfold slice_elems. by rewrite take_0. }
  assert (Hrear2 : slice_elems h2 ra roff (length R) = R).
  { etransitivity; [| exact Hel1']. destruct (decide (length R = 0)) as [Hz | Hnz].
    - rewrite Hz. unfold slice_elems. by rewrite !take_0.
    - eapply modifies_slice_elems; [exact Hmod2 | exact Hok1 |].
      left. destruct Hw1 as [(-> & -> & ->) | (-> & _ & _)].
      + destruct Hok1. lia.
      + assert (a < length (arrays h)); [| lia].
        apply (slice_ok_allocated h a off len cap (conj Hlc Hcap)). lia. }
  assert (Hsz : i + 1 + length R = S len) by lia.
  rewrite Hsz in *.
  exists a3, off3, cap3, h3. split; [| split; [| split; [| split]]].
  - unfold insertSlice. run.
    replace ((0 <=? idx)%Z && (idx <=? Z.of_nat len)%Z) with true
      by (symmetry; apply andb_true_iff; split; lia).
    fold i. run. rewrite Hrear2.
    by rewrite (bind_Ok _ _ _ _ _ E3).
  - done.
  - rewrite Hel3, Hel2, <- Htake, <- Hdrop. fold R. rewrite <- app_assoc.
    f_equal.
    eapply (modifies_slice_elems h h1 a _ _ a off i cap); [exact Hmod1 | | right; left; lia].
    split; [lia | exact Hcap].
  - assert (Hm12 : modifies h h2 a (off + i) (off + len + 1)).
    { eapply (modifies_trans h h1 h2).
      - eapply modifies_nothing, Hmod1.
      - exact Hmod2.
      - left. split; [done | lia]. }
    eapply (modifies_trans h h2 h3); [exact Hm12 | exact Hmod3 |].
    destruct Hw2 as [(-> & -> & ->) | (-> & _ & _)].
    + left. split; [done | lia].
    + right; left. destruct Hmod1 as (_ & _ & ? & _). lia.
  - destruct Hw3 as [(-> & -> & ->) | (-> & _ & _)].
    + destruct Hw2 as [(-> & -> & ->) | (-> & _ & _)]; [by left | right].
      destruct Hmod1 as (_ & _ & ? & _). lia.
    + right. destruct Hmod1 as (_ & _ & ? & _), Hmod2 as (_ & _ & ? & _). lia.
Qed.

Lemma Insert_result h j n t a off len cap idx x v :
  nodes h !! j = Some n -> data n = VSlice t a off len cap ->
  slice_ok h a off len cap ->
  unwrapped h x = Some v ->
  (0 <= idx <= Z.of_nat len)%Z ->
  linked h j n ->
  exists a' off' cap' h1,
    let c := mkGoJson (prev n) (prevKey n) (prevIndex n) (VSlice t a' off' (S len) cap') in
    Insert growcap j idx x h = Ok (j, write_back (set_data h1 j n (data c)) c) /\
    slice_ok h1 a' off' (S len) cap' /\
    slice_elems h1 a' off' (S len)
      = take (Z.to_nat idx) (slice_elems h a off len) ++ [v]
        ++ drop (Z.to_nat idx) (slice_elems h a off len) /\
    modifies h h1 a (off + Z.to_nat idx) (off + len + 1) /\
    ((a' = a /\ off' = off /\ cap' = cap) \/ length (arrays h) <= a').
Proof.
  intros Hj Hd Hok Hx Hidx Hl.
  destruct (insertSlice_spec t a off len cap idx x v h Hok Hx Hidx)
    as (a' & off' & cap' & h1 & E & Hok1 & Hel & Hmod & Hwhere).
  exists a', off', cap', h1. split; [| done].
  assert (Hj1 : nodes h1 !! j = Some n) by (destruct Hmod as [-> _]; done).
  unfold Insert. run. rewrite Hd. run. cbn [data].
  erewrite bind_Ok; [reflexivity |].
  apply maintainParent_linked.
  - by apply set_data_lookup.
  - by apply (linked_set_data h h1 j n _ a (off + Z.to_nat idx) (off + len + 1)).
Qed.

(** *** The cell [insertSlice] overwrites *)

Lemma go_append_fits t a off len cap vals h :
  len + length vals <= cap ->
  go_append growcap t a off len cap vals h
    = Ok (VSlice t a off (len + length vals) cap,
          mkHeap (nodes h) (maps h)
            (<[a := list_inserts (off + len) vals (array_of h a)]> (arrays h))).
Proof. intros Hfit. unfold go_append. cbn zeta. by rewrite decide_True. Qed.

(** After an insertion below the length, the cell of the old array at
    the position holds the inserted value. *)
Lemma insertSlice_old_cell t a off len cap idx x v h r h' :
  slice_ok h a off len cap ->
  unwrapped h x = Some v ->
  (0 <= idx < Z.of_nat len)%Z ->
  insertSlice growcap idx (VSlice t a off len cap) x h = Ok (r, h') ->
  array_of h' a !! (off + Z.to_nat idx) = Some v.
Proof.
  intros Hok Hv Hidx. set (i := Z.to_nat idx). assert (Hi : i < len) by lia.
  set (R := slice_elems h a (off + i) (len - i)).
  destruct (go_append_spec RawSlice 0 0 0 0 R h) as
    (ra & roff & rcap & h1 & E1 & Hok1 & Hel1 & _ & Hw1).
  { split; cbn; lia. }
  cbn [Nat.add] in E1, Hok1, Hel1.
  assert (HR : length R = len - i).
  { subst R. destruct (slice_elems_take_drop h a off len i ltac:(lia)) as [_ ->].
    rewrite length_drop, (slice_elems_length h a off len cap); done. }
  assert (Hmod1 : modifies h h1 a (off + i) (off + i)).
  { destruct Hw1 as [(-> & -> & ->) | (_ & _ & Hm)]; [| by eapply modifies_nothing].
    destruct Hok1 as [Hz _]. lia. }
  destruct Hok as [Hlc Hcap].
  assert (Ha : a < length (arrays h)).
  { apply (slice_ok_allocated h a off len cap (conj Hlc Hcap)). lia. }
  assert (Hoki : slice_ok h1 a off i cap).
  { eapply slice_ok_modifies; [exact Hmod1 |]. split; [lia | done]. }
  pose proof (go_append_fits t a off i cap [v] h1 ltac:(cbn; lia)) as E2.
  set (h2 := mkHeap (nodes h1) (maps h1)
               (<[a := list_inserts (off + i) [v] (array_of h1 a)]> (arrays h1))) in E2.
  destruct (go_append_spec t a off i cap [v] h1 Hoki) as
    (a2 & off2 & cap2 & h2' & E2' & Hok2 & Hel2 & Hmod2 & _).
  rewrite E2 in E2'. assert (a2 = a /\ off2 = off /\ cap2 = cap /\ h2' = h2) as (-> & -> & -> & ->)
    by (by injection E2' as <- <- <- <-).
  clear E2'. cbn [length] in E2, Hok2, Hel2, Hmod2.
  assert (Hcell2 : array_of h2 a !! (off + i) = Some v).
  { pose proof (slice_elems_lookup h2 a off (i + 1) i) as El.
    rewrite decide_True in El by lia. rewrite <- El, Hel2.
    assert (length (slice_elems h1 a off i) = i)
      by (by eapply slice_elems_length).
    rewrite lookup_app_r by lia. replace (i - _) with 0 by lia. done. }
  destruct (go_append_spec t a off (i + 1) cap R h2 Hok2) as
    (a3 & off3 & cap3 & h3 & E3 & Hok3 & Hel3 & Hmod3 & Hw3).
  assert (Hel1' : slice_elems h1 ra roff (length R) = R).
  { rewrite Hel1. unfold slice_elems. by rewrite take_0. }
  assert (Hrear2 : slice_elems h2 ra roff (length R) = R).
  { etransitivity; [| exact Hel1'].
    eapply modifies_slice_elems; [exact Hmod2 | exact Hok1 |].
    left. destruct Hw1 as [(-> & -> & ->) | (-> & _ & _)].
    - destruct Hok1. lia.
    - lia. }
  unfold insertSlice. run.
  replace ((0 <=? idx)%Z && (idx <=? Z.of_nat len)%Z) with true
    by (symmetry; apply andb_true_iff; split; lia).
  fold i. run. rewrite Hrear2.
  rewrite (bind_Ok _ _ _ _ _ E3). run. intros [= _ <-].
  destruct Hmod3 as (_ & _ & _ & Hc3).
  assert (Ha2 : a < length (arrays h2)).
  { destruct Hmod1 as (_ & _ & ? & _), Hmod2 as (_ & _ & ? & _). lia. }
  destruct (Hc3 a Ha2) as [_ Hc]. rewrite Hc; [exact Hcell2 | lia].
Qed.

(** *** What [write_back] changes *)

Lemma array_of_write1 h a i v b :
  array_of (mkHeap (nodes h) (maps h) (<[a := <[i := v]> (array_of h a)]> (arrays h))) b
    = if decide (b = a) then <[i := v]> (array_of h a) else array_of h b.
Proof. exact (array_of_write h a i [v] b). Qed.

Lemma write_back_nodes h c : nodes (write_back h c) = nodes h.
Proof.
  unfold write_back. destruct (prev c); [| done].
  by destruct (node_data h _) as [[| | | | | | | | [] [] | [] ? ? ? ? |] |].
Qed.

Lemma write_back_not_raw h c p pv :
  prev c = Some p -> node_data h p = Some pv -> is_raw pv = false ->
  write_back h c = h.
Proof.
  intros Hp Hpv Hraw. unfold write_back. rewrite Hp, Hpv.
  by destruct pv as [| | | | | | | | [] [] | [] ? ? ? ? |].
Qed.

(** Arrays other than the parent's are left alone. *)
Lemma write_back_array h c b :
  match prev c with
  | Some p => match node_data h p with
              | Some (VSlice RawSlice pa _ _ _) => pa <> b
              | _ => True
              end
  | None => True
  end ->
  array_of (write_back h c) b = array_of h b.
Proof.
  unfold write_back. destruct (prev c); [| done].
  destruct (node_data h _) as [[| | | | | | | | [] [] | [] pa ? ? ? |] |]; try done.
  intros Hne. rewrite array_of_write. by rewrite decide_False.
Qed.

(** After the write-back into a plain map or plain slice, the parent
    holds the child's wrapped value under the stored key or index. *)
Lemma write_back_slot h j c p pn :
  linked h j c -> prev c = Some p -> nodes h !! p = Some pn ->
  is_raw (data pn) = true ->
  parent_slot (write_back h c) c = Some (data c).
Proof.
  intros Hl Hp Hpn Hraw. unfold linked in Hl. rewrite Hp in Hl.
  destruct Hl as (_ & pn' & Hpn' & Hok). rewrite Hpn in Hpn'. injection Hpn' as <-.
  unfold parent_slot, write_back. rewrite Hp. unfold node_data at 2. rewrite Hpn. cbn.
  destruct (data pn) as [| | | | | | | | [] m | [] pa poff plen pcap |] eqn:Hd; try done.
  - destruct Hok as (l & -> & Hl). unfold node_data. cbn. rewrite Hpn. cbn. rewrite Hd.
    unfold map_of at 1. cbn. rewrite list_lookup_insert_eq by done. cbn.
    apply lookup_insert_eq.
  - destruct Hok as [Hr [Hlc Hcap]]. unfold node_data. cbn. rewrite Hpn. cbn. rewrite Hd.
    apply in_range_lt in Hr.
    rewrite slice_elems_lookup, decide_True by done.
    rewrite array_of_write1, decide_True by done.
    apply list_lookup_insert_eq. lia.
Qed.

(** ** [Append], [Insert] and the write-back: the main statements *)

Lemma node_data_write_back_set h1 j n d c :
  nodes h1 !! j = Some n ->
  c = mkGoJson (prev n) (prevKey n) (prevIndex n) d ->
  nodes (write_back (set_data h1 j n d) c) !! j = Some c.
Proof. intros Hj ->. rewrite write_back_nodes. by apply set_data_lookup. Qed.

(** C1 (amended): for every sequence-shaped handle whose parent wraps a
    plain map or a plain slice (and whose parent link is sound), [Append]
    succeeds, walks to the parent and stores through [Set] under the
    stored key or index; afterwards the parent's container holds, at that
    key or index, the child's unwrapped value -- the grown slice itself --
    and not the handle: [setMap] and [setSlice] unwrap a handle argument
    before storing. *)
Theorem C1_Append_writes_back_value h j n t a off len cap x v1 v2 p pn :
  nodes h !! j = Some n -> data n = VSlice t a off len cap ->
  slice_ok h a off len cap ->
  unwrapped h x = Some v1 -> unwrapped h v1 = Some v2 ->
  linked h j n ->
  prev n = Some p -> nodes h !! p = Some pn -> is_raw (data pn) = true ->
  exists h' c a' off' cap',
    Append growcap j x h = Ok (j, h') /\
    nodes h' !! j = Some c /\
    data c = VSlice t a' off' (S len) cap' /\
    parent_slot h' c = Some (data c) /\
    parent_slot h' c <> Some (VNode j).
Proof.
  intros Hj Hd Hok Hx1 Hx2 Hl Hp Hpn Hraw.
  destruct (Append_result h j n t a off len cap x v1 v2 Hj Hd Hok Hx1 Hx2 Hl)
    as (a' & off' & cap' & h1 & E & Hok1 & Hel & Hmod & Hw).
  cbn zeta in E. cbn [data] in E.
  set (d := VSlice t a' off' (S len) cap') in *.
  set (c := mkGoJson (prev n) (prevKey n) (prevIndex n) d) in *.
  assert (Hj1 : nodes h1 !! j = Some n) by (destruct Hmod as [-> _]; done).
  assert (Hslot : parent_slot (write_back (set_data h1 j n d) c) c = Some (data c)).
  { pose proof Hl as Hl'. unfold linked in Hl'. rewrite Hp in Hl'.
    destruct Hl' as [Hne _].
    eapply (write_back_slot _ j c p pn); [| exact Hp | | exact Hraw].
    - by apply (linked_set_data h h1 j n _ a (off + len) (off + len + 1)).
    - rewrite set_data_lookup_ne by done. destruct Hmod as [-> _]. done. }
  exists (write_back (set_data h1 j n d) c), c, a', off', cap'.
  split; [exact E |]. split; [by apply node_data_write_back_set |].
  split; [done |]. split; [exact Hslot |]. by rewrite Hslot.
Qed.

(** [Append] on any handle: on a sequence of length [n] the handle ends
    up wrapping a sequence of length [n+1] whose elements are the old
    ones followed by the argument unwrapped twice ([Append] takes the
    [Value()] of a handle argument and [appendSlice] does so once more);
    on anything else the store is unchanged and the receiver returned.
    The handle's parent link is sound and its backing array its own. *)
Lemma Append_extends h j n x v1 v2 :
  nodes h !! j = Some n ->
  unwrapped h x = Some v1 -> unwrapped h v1 = Some v2 ->
  value_ok h (data n) -> linked h j n ->
  match data n with
  | VSlice t a off len cap =>
      own_array h n a ->
      exists h' a' off' cap',
        Append growcap j x h = Ok (j, h') /\
        node_data h' j = Some (VSlice t a' off' (S len) cap') /\
        slice_elems h' a' off' (S len) = slice_elems h a off len ++ [v2] /\
        length (slice_elems h' a' off' (S len)) = S len /\
        last (slice_elems h' a' off' (S len)) = Some v2
  | _ => Append growcap j x h = Ok (j, h)
  end.
Proof.
  intros Hj Hx1 Hx2 Hvok Hl.
  destruct (data n) as [| | | | | | | | | t a off len cap |] eqn:Hd;
    try (eapply Append_non_slice; [exact Hj | by rewrite Hd | exact Hx1 | by eexists]).
  intros Hown. cbn in Hvok.
  destruct (Append_result h j n t a off len cap x v1 v2 Hj Hd Hvok Hx1 Hx2 Hl)
    as (a' & off' & cap' & h1 & E & Hok1 & Hel & Hmod & Hw).
  cbn zeta in E. cbn [data] in E.
  set (d := VSlice t a' off' (S len) cap') in *.
  set (c := mkGoJson (prev n) (prevKey n) (prevIndex n) d) in *.
  assert (Hj1 : nodes h1 !! j = Some n) by (destruct Hmod as [-> _]; done).
  assert (Hels : slice_elems (write_back (set_data h1 j n d) c) a' off' (S len)
                 = slice_elems h a off len ++ [v2]).
  { rewrite <- Hel. apply slice_elems_ext. intros k _.
    rewrite write_back_array; [done |]. cbn [prev c].
    unfold linked, own_array in *. destruct (prev n) as [p |]; [| done].
    destruct Hl as (Hne & pn & Hpn & Hpok).
    unfold node_data in *. rewrite set_data_lookup_ne by done.
    destruct Hmod as (Hn1 & _). rewrite Hn1, Hpn in *. cbn in *.
    destruct (data pn) as [| | | | | | | | | [] pa poff plen pcap |]; try done.
    destruct Hpok as [Hr Hpok]. apply in_range_lt in Hr.
    assert (pa < length (arrays h)).
    { eapply slice_ok_allocated; [exact Hpok |]. destruct Hpok. lia. }
    destruct Hw as [(-> & _) | (-> & _)]; [done | lia]. }
  exists (write_back (set_data h1 j n d) c), a', off', cap'.
  split; [exact E |]. split.
  { unfold node_data. by erewrite node_data_write_back_set. }
  split; [exact Hels |]. rewrite Hels. split.
  - rewrite length_app, (slice_elems_length h a off len cap) by done. cbn. lia.
  - apply last_snoc.
Qed.

(** C7 (code bug): [Append] unwraps a handle argument twice.  The
    claim has [Append(x)] store [x], a handle argument unwrapped to its
    [Value()].  When [x] is a handle [q] whose value is again a handle
    [p] (as [NewJson(NewJson(5))] builds), that value is the handle [p];
    but [Append] takes [x.Value()] and hands it to [appendSlice], which
    takes the [Value()] once more, so the element stored is the value of
    [p].  The sibling [Insert] at the end of the same sequence, which
    unwraps once, stores the handle [p]. *)
Theorem C7_Append_unwraps_twice h j n t a off len cap q qn p pn :
  nodes h !! j = Some n -> data n = VSlice t a off len cap ->
  slice_ok h a off len cap -> prev n = None ->
  nodes h !! q = Some qn -> data qn = VNode p -> nodes h !! p = Some pn ->
  exists h1 a1 off1 cap1 h2 a2 off2 cap2,
    Value q h = Ok (VNode p, h) /\
    Append growcap j (VNode q) h = Ok (j, h1) /\
    node_data h1 j = Some (VSlice t a1 off1 (S len) cap1) /\
    last (slice_elems h1 a1 off1 (S len)) = Some (data pn) /\
    (data pn <> VNode p -> last (slice_elems h1 a1 off1 (S len)) <> Some (VNode p)) /\
    Insert growcap j (Z.of_nat len) (VNode q) h = Ok (j, h2) /\
    node_data h2 j = Some (VSlice t a2 off2 (S len) cap2) /\
    last (slice_elems h2 a2 off2 (S len)) = Some (VNode p).
Proof.
  intros Hj Hd Hok Hprev Hq Hdq Hp.
  assert (Hx1 : unwrapped h (VNode q) = Some (VNode p)) by (cbn; by rewrite Hq, <- Hdq).
  assert (Hx2 : unwrapped h (VNode p) = Some (data pn)) by (cbn; by rewrite Hp).
  assert (Hl : linked h j n) by (unfold linked; by rewrite Hprev).
  assert (Hlen : length (slice_elems h a off len) = len)
    by (by eapply slice_elems_length).
  destruct (Append_result h j n t a off len cap (VNode q) (VNode p) (data pn)
              Hj Hd Hok Hx1 Hx2 Hl)
    as (a1 & off1 & cap1 & h1 & E1 & _ & Hel1 & Hmod1 & _).
  destruct (Insert_result h j n t a off len cap (Z.of_nat len) (VNode q) (VNode p)
              Hj Hd Hok Hx1 ltac:(lia) Hl)
    as (a2 & off2 & cap2 & h2 & E2 & _ & Hel2 & Hmod2 & _).
  cbn zeta in E1, E2. cbn [data] in E1, E2.
  unfold write_back in E1, E2. cbn [prev] in E1, E2. rewrite Hprev in E1, E2.
  assert (Hj1 : nodes h1 !! j = Some n) by (destruct Hmod1 as [-> _]; done).
  assert (Hj2 : nodes h2 !! j = Some n) by (destruct Hmod2 as [-> _]; done).
  assert (Hlast1 : last (slice_elems h1 a1 off1 (S len)) = Some (data pn)).
  { rewrite Hel1. apply last_snoc. }
  eexists _, a1, off1, cap1, _, a2, off2, cap2.
  split; [by apply Value_Ok in Hq; rewrite Hq, Hdq |].
  split; [exact E1 |].
  split; [unfold node_data; by rewrite set_data_lookup |].
  split; [exact Hlast1 |].
  split; [intros Hne; change (slice_elems (set_data h1 j n _) a1 off1 (S len))
            with (slice_elems h1 a1 off1 (S len)); rewrite Hlast1; congruence |].
  split; [exact E2 |].
  split; [unfold node_data; by rewrite set_data_lookup |].
  change (slice_elems (set_data h2 j n (VSlice t a2 off2 (S len) cap2)) a2 off2 (S len))
    with (slice_elems h2 a2 off2 (S len)).
  rewrite Hel2, Nat2Z.id, take_ge, drop_ge by lia.
  rewrite app_nil_r. apply last_snoc.
Qed.

(** When the parent wraps anything but a plain map or plain slice, the
    store after the child's update is final, and the parent and all it
    holds are as before. *)
Lemma no_write_back_frame h h1 j n t off len cap d a lo hi p pn :
  nodes h !! j = Some n -> data n = VSlice t a off len cap ->
  prev n = Some p -> nodes h !! p = Some pn ->
  is_raw (data pn) = false -> value_ok h (data pn) -> own_array h n a ->
  modifies h h1 a lo hi ->
  let c := mkGoJson (prev n) (prevKey n) (prevIndex n) d in
  let h' := write_back (set_data h1 j n d) c in
  p <> j /\ h' = set_data h1 j n d /\
  nodes h' !! p = Some pn /\ maps h' = maps h /\
  contents h' (data pn) = contents h (data pn).
Proof.
  intros Hj Hd Hp Hpn Hraw Hvok Hown Hmod c h'.
  assert (Hne : p <> j).
  { intros ->. rewrite Hj in Hpn. injection Hpn as <-.
    unfold own_array, node_data in Hown. rewrite Hp, Hj in Hown. cbn in Hown.
    by rewrite Hd in Hown. }
  assert (Hp2 : nodes (set_data h1 j n d) !! p = Some pn).
  { rewrite set_data_lookup_ne by done. destruct Hmod as [-> _]. done. }
  assert (Hh' : h' = set_data h1 j n d).
  { eapply write_back_not_raw; [exact Hp | | exact Hraw].
    unfold node_data. by rewrite Hp2. }
  split; [done |]. split; [done |]. rewrite Hh'. split; [done |].
  pose proof Hmod as (Hn1 & Hm1 & _). split; [done |].
  unfold own_array, node_data in Hown. rewrite Hp, Hpn in Hown. cbn in Hown.
  destruct (data pn) as [| | | | | | | | tm m | ts pa poff plen pcap |]; try done.
  - unfold contents, map_of. cbn. by rewrite Hm1.
  - unfold contents. f_equal. cbn in Hvok.
    eapply (modifies_slice_elems h h1 a lo hi pa poff plen pcap);
      [exact Hmod | done | by left].
Qed.

(** The write-back after [Append] or [Insert] happens only into a
    parent that wraps a plain [map[string]interface{}] or a plain
    [[]interface{}].  When the parent wraps anything else -- in particular
    a [Dict] or a [List], as [Clone] and [ShortNiceJson] produce -- the
    child's own value is updated (one element longer, with the element in
    place) while the parent handle, every map object, and the entries of
    the parent's container (for a child sequence: its slice header) are
    exactly as before. *)
Lemma no_write_back_unless_raw h j n t a off len cap p pn x v1 v2 idx :
  nodes h !! j = Some n -> data n = VSlice t a off len cap ->
  slice_ok h a off len cap ->
  prev n = Some p -> nodes h !! p = Some pn ->
  is_raw (data pn) = false ->
  value_ok h (data pn) -> own_array h n a ->
  unwrapped h x = Some v1 -> unwrapped h v1 = Some v2 ->
  (0 <= idx <= Z.of_nat len)%Z ->
  (exists h',
     Append growcap j x h = Ok (j, h') /\
     child_only_update h h' j p pn t (slice_elems h a off len ++ [v2])) /\
  (exists h',
     Insert growcap j idx x h = Ok (j, h') /\
     child_only_update h h' j p pn t
       (take (Z.to_nat idx) (slice_elems h a off len) ++ [v1]
        ++ drop (Z.to_nat idx) (slice_elems h a off len))).
Proof.
  intros Hj Hd Hok Hp Hpn Hraw Hvok Hown Hx1 Hx2 Hidx.
  assert (Hl : linked h j n).
  { unfold linked. rewrite Hp.
    destruct (no_write_back_frame h h j n t off len cap VNil a 0 0 p pn
                Hj Hd Hp Hpn Hraw Hvok Hown (modifies_refl _ _ _ _)) as [Hne _].
    split; [done |]. exists pn. split; [done |].
    by destruct (data pn) as [| | | | | | | | [] ? | [] ? ? ? ? |]. }
  pose proof (slice_elems_length h a off len cap Hok) as Hlen.
  split.
  - destruct (Append_result h j n t a off len cap x v1 v2 Hj Hd Hok Hx1 Hx2 Hl)
      as (a' & off' & cap' & h1 & E & Hok1 & Hel & Hmod & Hw).
    cbn zeta in E. cbn [data] in E.
    destruct (no_write_back_frame h h1 j n t off len cap
                (VSlice t a' off' (S len) cap') a _ _ p pn
                Hj Hd Hp Hpn Hraw Hvok Hown Hmod) as (Hne & Hh' & Hpar & Hmaps & Hcont).
    assert (Hj1 : nodes h1 !! j = Some n) by (destruct Hmod as [-> _]; done).
    eexists. split; [exact E |]. exists a', off', cap'.
    replace (length (slice_elems h a off len ++ [v2])) with (S len)
      by (rewrite length_app, Hlen; cbn; lia).
    split; [unfold node_data; by erewrite node_data_write_back_set |].
    split; [by rewrite Hh' |]. done.
  - destruct (Insert_result h j n t a off len cap idx x v1 Hj Hd Hok Hx1 Hidx Hl)
      as (a' & off' & cap' & h1 & E & Hok1 & Hel & Hmod & Hw).
    cbn zeta in E. cbn [data] in E.
    destruct (no_write_back_frame h h1 j n t off len cap
                (VSlice t a' off' (S len) cap') a _ _ p pn
                Hj Hd Hp Hpn Hraw Hvok Hown Hmod) as (Hne & Hh' & Hpar & Hmaps & Hcont).
    assert (Hj1 : nodes h1 !! j = Some n) by (destruct Hmod as [-> _]; done).
    eexists. split; [exact E |]. exists a', off', cap'.
    replace (length (take (Z.to_nat idx) (slice_elems h a off len) ++ [v1]
                     ++ drop (Z.to_nat idx) (slice_elems h a off len))) with (S len).
    2:{ rewrite !length_app, length_take, length_drop, Hlen. cbn. lia. }
    split; [unfold node_data; by erewrite node_data_write_back_set |].
    split; [by rewrite Hh' |]. done.
Qed.

(** C10 (code bug): with a parent that wraps a [Dict], a [List] or any
    other value that is not a plain map or plain slice, there is indeed
    no write-back: after [Insert] the parent's entry for the child still
    is the child's old slice, of the old length.  But the parent's
    container is not left unchanged.  [insertSlice] appends the new value
    to the prefix [v[0:index]], which writes it into the backing array
    the parent's entry still points to: for an index below the length,
    the parent now reads the inserted value at that index, in place of
    the element that was there. *)
Theorem C10_Insert_changes_parent_view h j n t a off len cap p pn idx x v :
  nodes h !! j = Some n -> data n = VSlice t a off len cap ->
  slice_ok h a off len cap ->
  prev n = Some p -> nodes h !! p = Some pn ->
  is_raw (data pn) = false ->
  value_ok h (data pn) -> own_array h n a ->
  parent_slot h n = Some (data n) ->
  unwrapped h x = Some v ->
  (0 <= idx < Z.of_nat len)%Z ->
  exists h',
    Insert growcap j idx x h = Ok (j, h') /\
    nodes h' !! p = Some pn /\
    parent_slot h' n = Some (VSlice t a off len cap) /\
    slice_elems h' a off len !! Z.to_nat idx = Some v /\
    (slice_elems h a off len !! Z.to_nat idx <> Some v ->
     slice_elems h' a off len <> slice_elems h a off len).
Proof.
  intros Hj Hd Hok Hp Hpn Hraw Hvok Hown Hslot Hx Hidx.
  destruct (insertSlice_spec t a off len cap idx x v h Hok Hx ltac:(lia))
    as (a' & off' & cap' & h1 & E & _ & _ & Hmod & _).
  pose proof (insertSlice_old_cell t a off len cap idx x v h _ _ Hok Hx Hidx E) as Hcell.
  set (d := VSlice t a' off' (S len) cap') in *.
  destruct (no_write_back_frame h h1 j n t off len cap d a _ _ p pn
              Hj Hd Hp Hpn Hraw Hvok Hown Hmod) as (Hne & Hh' & Hpar & Hmaps & Hcont).
  cbn zeta in Hh', Hpar, Hmaps, Hcont.
  set (h' := write_back (set_data h1 j n d)
               (mkGoJson (prev n) (prevKey n) (prevIndex n) d)) in *.
  assert (Hn1 : nodes h1 = nodes h) by (by destruct Hmod as [-> _]).
  assert (Hj1 : nodes h1 !! j = Some n) by (by rewrite Hn1).
  assert (Hl : linked h j n).
  { unfold linked. rewrite Hp. split; [done |]. exists pn. split; [done |].
    by destruct (data pn) as [| | | | | | | | [] ? | [] ? ? ? ? |]. }
  assert (Harr : array_of h' a = array_of h1 a) by (by rewrite Hh').
  assert (Hnew : slice_elems h' a off len !! Z.to_nat idx = Some v).
  { rewrite slice_elems_lookup, decide_True by lia. by rewrite Harr. }
  exists h'. split.
  { unfold Insert. run. rewrite Hd. run.
    erewrite bind_Ok; [reflexivity |].
    apply maintainParent_linked.
    - by apply set_data_lookup.
    - by apply (linked_set_data h h1 j n _ a (off + Z.to_nat idx) (off + len + 1)). }
  split; [exact Hpar |]. split; [| split; [exact Hnew |]].
  - rewrite <- Hd, <- Hslot. unfold parent_slot, node_data. rewrite Hp, Hpar, Hpn. cbn.
    destruct (data pn) as [| | | | | | | | tm m | ts pa poff plen pcap |]; try done.
    + unfold contents in Hcont. by injection Hcont as ->.
    + unfold contents in Hcont. by injection Hcont as ->.
  - intros Hold Heq. apply Hold. by rewrite <- Heq.
Qed.

End AppendProps.

(** C1 (counterexample): in the decoded document [{"a": [1, 2, 3]}],
    after [Get("a").Append(4)] the root's map holds under ["a"] the grown
    slice itself, not the handle (handle 1) that was passed to [Set]. *)
Lemma C1_counterexample :
  Append double_cap 1 (VInt KInt 4) h_doc = Ok (1, h_doc_appended) /\
  parent_slot h_doc_appended (mkGoJson (Some 0) "a" 0 (VSlice RawSlice 1 0 4 6))
    = Some (VSlice RawSlice 1 0 4 6) /\
  parent_slot h_doc_appended (mkGoJson (Some 0) "a" 0 (VSlice RawSlice 1 0 4 6))
    <> Some (VNode 1).
Proof. split; [by vm_compute | split; by vm_compute]. Qed.

Lemma C1_Append_writes_back_value_witness :
  exists h' c a' off' cap',
    Append double_cap 1 (VInt KInt 4) h_doc = Ok (1, h') /\
    nodes h' !! 1 = Some c /\
    data c = VSlice RawSlice a' off' 4 cap' /\
    parent_slot h' c = Some (data c) /\
    parent_slot h' c <> Some (VNode 1).
Proof.
  apply (C1_Append_writes_back_value double_cap h_doc 1 doc_child RawSlice 0 0 3 3
           (VInt KInt 4) (VInt KInt 4) (VInt KInt 4)
           0 (mkGoJson None "" 0 (VMap RawMap (Some 0)))); try reflexivity.
  - split; cbn; lia.
  - split; [lia |]. eexists. split; [reflexivity |]. exists 0. split; [reflexivity | cbn; lia].
Defined.

(** C7 at [NewJson(NewJson(5))]: handle 2 wraps handle 1, which wraps
    5.  [Append] of handle 2 to the empty array stores 5; [Insert] of the
    same handle at position 0 stores handle 1, the value of handle 2. *)
Lemma C7_Append_unwraps_twice_witness :
  exists h1 a1 off1 cap1 h2 a2 off2 cap2,
    Value 2 h_nested = Ok (VNode 1, h_nested) /\
    Append double_cap 0 (VNode 2) h_nested = Ok (0, h1) /\
    node_data h1 0 = Some (VSlice RawSlice a1 off1 1 cap1) /\
    last (slice_elems h1 a1 off1 1) = Some (VInt KInt 5) /\
    (VInt KInt 5 <> VNode 1 -> last (slice_elems h1 a1 off1 1) <> Some (VNode 1)) /\
    Insert double_cap 0 (Z.of_nat 0) (VNode 2) h_nested = Ok (0, h2) /\
    node_data h2 0 = Some (VSlice RawSlice a2 off2 1 cap2) /\
    last (slice_elems h2 a2 off2 1) = Some (VNode 1).
Proof.
  apply (C7_Append_unwraps_twice double_cap h_nested 0
           (mkGoJson None "" 0 (VSlice RawSlice 0 0 0 0)) RawSlice 0 0 0 0
           2 (mkGoJson None "" 0 (VNode 1)) 1 (mkGoJson None "" 0 (VInt KInt 5)));
    try reflexivity.
  split; cbn; lia.
Defined.

(** The run of the example in full: the store after the [Append]. *)
Lemma Append_nested_handle :
  unwrapped h_nested (VNode 2) = Some (VNode 1) /\
  Append double_cap 0 (VNode 2) h_nested = Ok (0, h_nested_appended) /\
  node_data h_nested_appended 0 = Some (VSlice RawSlice 0 0 1 1) /\
  last (slice_elems h_nested_appended 0 0 1) = Some (VInt KInt 5) /\
  last (slice_elems h_nested_appended 0 0 1) <> Some (VNode 1).
Proof. repeat split; by vm_compute. Qed.

Lemma Append_extends_h_doc :
  (exists h' a' off' cap',
     Append double_cap 1 (VInt KInt 4) h_doc = Ok (1, h') /\
     node_data h' 1 = Some (VSlice RawSlice a' off' 4 cap') /\
     slice_elems h' a' off' 4
       = [VNumber "1"; VNumber "2"; VNumber "3"] ++ [VInt KInt 4] /\
     length (slice_elems h' a' off' 4) = 4 /\
     last (slice_elems h' a' off' 4) = Some (VInt KInt 4)) /\
  Append double_cap 0 (VInt KInt 4) h_doc = Ok (0, h_doc).
Proof.
  split.
  - apply (Append_extends double_cap h_doc 1 doc_child
             (VInt KInt 4) (VInt KInt 4) (VInt KInt 4)); try reflexivity.
    + split; cbn; lia.
    + split; [lia |]. eexists. split; [reflexivity |]. exists 0. split; [reflexivity | cbn; lia].
  - apply (Append_extends double_cap h_doc 0 (mkGoJson None "" 0 (VMap RawMap (Some 0)))
             (VInt KInt 4) (VInt KInt 4) (VInt KInt 4)); try reflexivity; exact I.
Qed.

(** C10 on the clone of [{"a": [1, 2, 3]}]: handle 1 is [Get("a")] of the
    [Dict] root.  After [Insert(1, 4)] through the child the root's entry
    still is the slice of length 3 on array 0, and reads [[1, 4, 3]]. *)
Lemma C10_Insert_changes_parent_view_witness :
  (exists h',
     Insert double_cap 1 1 (VInt KInt 4) h_dict_doc = Ok (1, h') /\
     nodes h' !! 0 = Some (mkGoJson None "" 0 (VMap DictT (Some 0))) /\
     parent_slot h' (mkGoJson (Some 0) "a" 0 (VSlice ListT 0 0 3 3))
       = Some (VSlice ListT 0 0 3 3) /\
     slice_elems h' 0 0 3 !! Z.to_nat 1 = Some (VInt KInt 4) /\
     (slice_elems h_dict_doc 0 0 3 !! Z.to_nat 1 <> Some (VInt KInt 4) ->
      slice_elems h' 0 0 3 <> slice_elems h_dict_doc 0 0 3)) /\
  slice_elems h_dict_doc 0 0 3 = [VNumber "1"; VNumber "2"; VNumber "3"] /\
  (forall h', Insert double_cap 1 1 (VInt KInt 4) h_dict_doc = Ok (1, h') ->
     slice_elems h' 0 0 3 = [VNumber "1"; VInt KInt 4; VNumber "3"]).
Proof.
  split; [| split; [reflexivity |]].
  - apply (C10_Insert_changes_parent_view double_cap h_dict_doc 1
             (mkGoJson (Some 0) "a" 0 (VSlice ListT 0 0 3 3)) ListT 0 0 3 3
             0 (mkGoJson None "" 0 (VMap DictT (Some 0))) 1
             (VInt KInt 4) (VInt KInt 4)); try reflexivity; try exact I.
    + split; cbn; lia.
    + lia.
  - intros h'. vm_compute. by intros [= <-].
Defined.

Lemma no_write_back_unless_raw_examples :
  ((exists h',
      Append double_cap 1 (VInt KInt 4) h_dict_doc = Ok (1, h') /\
      child_only_update h_dict_doc h' 1 0 (mkGoJson None "" 0 (VMap DictT (Some 0))) ListT
        ([VNumber "1"; VNumber "2"; VNumber "3"] ++ [VInt KInt 4])) /\
   (exists h',
      Insert double_cap 1 1 (VInt KInt 4) h_dict_doc = Ok (1, h') /\
      child_only_update h_dict_doc h' 1 0 (mkGoJson None "" 0 (VMap DictT (Some 0))) ListT
        ([VNumber "1"] ++ [VInt KInt 4] ++ [VNumber "2"; VNumber "3"]))) /\
  ((exists h',
      Append double_cap 1 (VInt KInt 4) h_list_doc = Ok (1, h') /\
      child_only_update h_list_doc h' 1 0 (mkGoJson None "" 0 (VSlice ListT 1 0 1 1)) ListT
        ([VNumber "1"; VNumber "2"; VNumber "3"] ++ [VInt KInt 4])) /\
   (exists h',
      Insert double_cap 1 0 (VInt KInt 4) h_list_doc = Ok (1, h') /\
      child_only_update h_list_doc h' 1 0 (mkGoJson None "" 0 (VSlice ListT 1 0 1 1)) ListT
        ([] ++ [VInt KInt 4] ++ [VNumber "1"; VNumber "2"; VNumber "3"]))).
Proof.
  split.
  - apply (no_write_back_unless_raw double_cap h_dict_doc 1
             (mkGoJson (Some 0) "a" 0 (VSlice ListT 0 0 3 3)) ListT 0 0 3 3
             0 (mkGoJson None "" 0 (VMap DictT (Some 0)))
             (VInt KInt 4) (VInt KInt 4) (VInt KInt 4) 1); try reflexivity; try exact I.
    + split; cbn; lia.
    + lia.
  - apply (no_write_back_unless_raw double_cap h_list_doc 1
             (mkGoJson (Some 0) "" 0 (VSlice ListT 0 0 3 3)) ListT 0 0 3 3
             0 (mkGoJson None "" 0 (VSlice ListT 1 0 1 1))
             (VInt KInt 4) (VInt KInt 4) (VInt KInt 4) 0); try reflexivity.
    + split; cbn; lia.
    + split; cbn; lia.
    + cbn. lia.
    + lia.
Qed.

(** *** Handles from [Get] and [Index] have sound parent links *)

Lemma Get_linked h j n key :
  nodes h !! j = Some n ->
  let c := mkGoJson (Some j) key 0 (fst (getMap key (data n) h)) in
  data c <> VNil -> linked (child_of h c) (length (nodes h)) c.
Proof.
  intros Hj c Hnn. unfold linked. cbn [prev c].
  pose proof (lookup_lt_Some _ _ _ Hj) as Hlt.
  split; [lia |]. exists n. split; [cbn; by rewrite lookup_app_l |].
  subst c. cbn in Hnn. unfold parent_ok.
  destruct (data n) as [| | | | | | | | [] m | [] ? ? ? ? |]; try done.
  cbn in Hnn. unfold map_index, map_of in Hnn.
  destruct m as [l |]; [| done]. exists l. split; [done |]. cbn.
  destruct (maps h !! l) eqn:E; [by eapply lookup_lt_Some | done].
Qed.

Lemma Index_linked h j n key c h' :
  nodes h !! j = Some n -> value_ok h (data n) ->
  Index j key h = Ok (c, h') ->
  exists cn, nodes h' !! c = Some cn /\ (data cn <> VNil -> linked h' c cn).
Proof.
  intros Hj Hvok E. pose proof (lookup_lt_Some _ _ _ Hj) as Hlt.
  destruct (data n) as [| | | | | | | | | t a off len cap |] eqn:Hd.
  10:{ destruct (in_range key len) eqn:Hr.
       - rewrite (Index_in_range h j n t a off len cap key Hj Hd Hr) in E.
         injection E as <- <-. eexists. split; [apply child_lookup |]. intros _.
         unfold linked. cbn [prev prevIndex]. split; [lia |].
         exists n. split; [cbn; by rewrite lookup_app_l |].
         rewrite Hd. unfold parent_ok. by destruct t.
       - by rewrite (Index_out_of_range h j n t a off len cap key Hj Hd Hr) in E. }
  all: rewrite (Index_non_slice h j n key Hj) in E by (by rewrite Hd);
       injection E as <- <-; eexists; (split; [apply child_lookup |]); done.
Qed.

(** ** [Clone] and [ShortNiceJson] *)

(** [handlerString]: a string longer than 120 bytes is cut to its first
    120 bytes followed by six dots, any other string is kept. *)
Lemma handlerString_spec js :
  handlerString js false = js /\
  (String.length js <= 120 -> handlerString js true = js) /\
  (120 < String.length js ->
   handlerString js true = (substring 0 120 js ++ "......")%string).
Proof.
  unfold handlerString. cbn [andb]. split; [done |].
  destruct (Nat.ltb_spec 120 (String.length js)); split; intros; (done || lia).
Qed.

Section CopyProps.
Variable growcap : nat -> nat -> nat.
Variable decode : string -> heap -> option (value * heap).

(** A scalar that is not a string comes back from [handlerVal] as it
    is. *)
Lemma handlerVal_leaf fuel cut v h :
  match v with
  | VMap _ _ | VSlice _ _ _ _ _ | VString _ => False
  | _ => True
  end ->
  handlerVal growcap (S fuel) cut v h = Ok (v, h).
Proof. by destruct v. Qed.

Lemma handlerVal_string fuel cut s h :
  handlerVal growcap (S fuel) cut (VString s) h = Ok (VString (handlerString s cut), h).
Proof. reflexivity. Qed.

Lemma NewJsonFromString_rejected s h :
  decode s h = None ->
  NewJsonFromString decode s h
    = Ok (length (nodes h), child_of h (mkGoJson None "" 0 VNil)).
Proof.
  intros E. unfold NewJsonFromString, decodeJson.
  unfold mbind, M_bind. by rewrite E.
Qed.

Lemma IsSlice_Ok h j n :
  nodes h !! j = Some n ->
  IsSlice j h = Ok (match data n with VSlice _ _ _ _ _ => true | _ => false end, h).
Proof.
  intros Hj. unfold IsSlice. run.
  by destruct (data n) as [| | | | | | | | | [] ? ? ? ? |].
Qed.

Lemma IsMap_Ok h j n :
  nodes h !! j = Some n ->
  IsMap j h = Ok (match data n with VMap _ _ => true | _ => false end, h).
Proof. intros Hj. unfold IsMap. run. by destruct (data n). Qed.

(** On a handle wrapping a string, both copies hand the string to
    [NewJson], which decodes it as JSON text. *)
Lemma Clone_string h j n s fuel :
  nodes h !! j = Some n -> data n = VString s ->
  Clone growcap decode fuel j h = NewJsonFromString decode s h.
Proof.
  intros Hj Hd. unfold Clone. cbn zeta.
  rewrite (bind_Ok _ _ _ _ _ (read_node_Ok _ _ _ Hj)).
  rewrite (bind_Ok _ _ _ _ _ (IsSlice_Ok _ _ _ Hj)), Hd.
  rewrite (bind_Ok _ _ _ _ _ (IsMap_Ok _ _ _ Hj)), Hd.
  reflexivity.
Qed.

Lemma ShortNiceJson_string h j n s fuel :
  nodes h !! j = Some n -> data n = VString s ->
  ShortNiceJson growcap decode fuel j h = NewJsonFromString decode s h.
Proof.
  intros Hj Hd. unfold ShortNiceJson. cbn zeta.
  rewrite (bind_Ok _ _ _ _ _ (read_node_Ok _ _ _ Hj)).
  rewrite (bind_Ok _ _ _ _ _ (IsSlice_Ok _ _ _ Hj)), Hd.
  rewrite (bind_Ok _ _ _ _ _ (IsMap_Ok _ _ _ Hj)), Hd.
  reflexivity.
Qed.

(** C8 (the code departs from the specification): the specification has
    [Clone] produce a tree equal to the original for every handle.  For a handle wrapping a string
    (the result of [Get] on a string field, say) [Clone] calls
    [NewJson(j.data)], which takes a string for JSON text and decodes it:
    when the text is not JSON the clone is an empty handle, [IsNil], not
    a copy of the string. *)
Theorem C8_Clone_string_root_not_copied h j n s fuel :
  nodes h !! j = Some n -> data n = VString s ->
  decode s h = None ->
  exists c h',
    Clone growcap decode fuel j h = Ok (c, h') /\
    node_data h' c = Some VNil /\ node_data h' c <> Some (VString s) /\
    node_data h' j = Some (VString s).
Proof.
  intros Hj Hd Hdec. eexists _, _.
  rewrite (Clone_string h j n s fuel Hj Hd), (NewJsonFromString_rejected s h Hdec).
  split; [reflexivity |]. unfold node_data. rewrite child_lookup.
  split; [done |]. split; [done |].
  cbn. rewrite lookup_app_l by (by eapply lookup_lt_Some). by rewrite Hj, <- Hd.
Qed.

(** C9 (the code departs from the specification): the specification has
    [ShortNiceJson] cut every string leaf longer than 120.  For a handle wrapping such a string the
    string is not cut but handed to [NewJson] and decoded as JSON text:
    when the text is not JSON the result is an empty handle, where
    [handlerString] would give the first 120 bytes and the marker. *)
Theorem C9_ShortNiceJson_string_root_not_cut h j n s fuel :
  nodes h !! j = Some n -> data n = VString s ->
  120 < String.length s ->
  decode s h = None ->
  exists c h',
    ShortNiceJson growcap decode fuel j h = Ok (c, h') /\
    node_data h' c = Some VNil /\
    node_data h' c <> Some (VString (handlerString s true)) /\
    handlerString s true = (substring 0 120 s ++ "......")%string.
Proof.
  intros Hj Hd Hlen Hdec. eexists _, _.
  rewrite (ShortNiceJson_string h j n s fuel Hj Hd), (NewJsonFromString_rejected s h Hdec).
  split; [reflexivity |]. unfold node_data. rewrite child_lookup.
  split; [done |]. split; [done |].
  by apply handlerString_spec.
Qed.

End CopyProps.

Lemma C8_Clone_string_root_not_copied_witness :
  exists c h',
    Clone double_cap decode_literal 1 0 (h_str "hello") = Ok (c, h') /\
    node_data h' c = Some VNil /\ node_data h' c <> Some (VString "hello") /\
    node_data h' 0 = Some (VString "hello").
Proof.
  apply (C8_Clone_string_root_not_copied double_cap decode_literal
           (h_str "hello") 0 (mkGoJson None "" 0 (VString "hello")) "hello" 1);
    reflexivity.
Defined.

Lemma C9_ShortNiceJson_string_root_not_cut_witness :
  exists c h',
    ShortNiceJson double_cap decode_literal 1 0 (h_str long_string) = Ok (c, h') /\
    node_data h' c = Some VNil /\
    node_data h' c <> Some (VString (handlerString long_string true)) /\
    handlerString long_string true = (substring 0 120 long_string ++ "......")%string.
Proof.
  apply (C9_ShortNiceJson_string_root_not_cut double_cap decode_literal
           (h_str long_string) 0 (mkGoJson None "" 0 (VString long_string))
           long_string 1); try reflexivity.
  vm_compute. lia.
Defined.

(** ** Deep copy of a document tree *)

Lemma depth_field k t fields : (k, t) ∈ fields -> depth t < depth (JObj fields).
Proof.
  intros Hin. cbn. apply Nat.lt_succ_r, max_list_elem_of_le.
  apply list_elem_of_fmap. by exists (k, t).
Qed.

Lemma depth_item t items : t ∈ items -> depth t < depth (JArr items).
Proof.
  intros Hin. cbn. apply Nat.lt_succ_r, max_list_elem_of_le.
  apply list_elem_of_fmap. by exists t.
Qed.

Lemma field_tree_lookup fields k t :
  NoDup fields.*1 -> (k, t) ∈ fields -> field_tree fields k = t.
Proof.
  intros Hnd Hin. unfold field_tree.
  by rewrite (elem_of_list_to_map_1 fields k t Hnd Hin).
Qed.

Lemma extends_refl h : extends h h.
Proof. repeat split; auto. Qed.

Lemma extends_trans h1 h2 h3 : extends h1 h2 -> extends h2 h3 -> extends h1 h3.
Proof.
  intros (Hn & Hml & Hm & Hal & Ha) (Hn' & Hml' & Hm' & Hal' & Ha').
  split; [congruence |]. split; [lia |]. split.
  { intros l Hl. rewrite Hm' by lia. by apply Hm. }
  split; [lia |]. intros a Hl. rewrite Ha' by lia. by apply Ha.
Qed.

(** A representation survives any change of the store outside the map
    objects and arrays it uses, and these may be over-approximated. *)
Lemma repr_in_frame (Pm Pa Pm' Pa' : nat -> Prop) h h' :
  (forall l, Pm l -> Pm' l /\ maps h' !! l = maps h !! l) ->
  (forall a, Pa a -> Pa' a /\ array_of h' a = array_of h a) ->
  forall n t v, depth t <= n ->
    repr_in Pm Pa h v t -> repr_in Pm' Pa' h' v t.
Proof.
  intros Hm Ha. induction n as [| n IH]; intros t v Hd Hr.
  - inversion Hr; subst; cbn in Hd; try lia; by constructor.
  - inversion Hr as [ | | ty l m fields Hl Hml Hnd Hdom Hf | ty a off len cap items Hlc Hpa Hf Hlen];
      subst; try by constructor.
    + destruct (Hm l Hl) as [Hl' Heq].
      eapply repr_obj; [done | by rewrite Heq | done | done |].
      apply Forall_forall. intros [k t] Hin.
      rewrite Forall_forall in Hf. destruct (Hf _ Hin) as (v & Hv & Hrv).
      exists v. split; [done |]. apply IH; [| done].
      pose proof (depth_field k t fields Hin). cbn in *. lia.
    + assert (Hel : slice_elems h' a off (length items) = slice_elems h a off (length items)).
      { destruct (decide (0 < cap)) as [Hpos | Hz].
        - unfold slice_elems. by rewrite (proj2 (Ha a (proj1 (Hpa Hpos)))).
        - replace (length items) with 0 by lia. unfold slice_elems. by rewrite !take_0. }
      apply repr_arr; [done | | | done].
      { intros Hpos. destruct (Hpa Hpos) as [Hp Hb]. destruct (Ha a Hp) as [? ->]. done. }
      rewrite Hel. apply Forall2_same_length_lookup_2; [by eapply Forall2_length |].
      intros i v t Hv Ht. apply IH.
      * pose proof (depth_item t items (list_elem_of_lookup_2 _ _ _ Ht)). cbn in *. lia.
      * by eapply Forall2_lookup_lr.
Qed.

(** Whatever a value stands for lies in the allocated part of the
    store. *)
Lemma repr_in_allocated (Pm Pa : nat -> Prop) h :
  forall n t v, depth t <= n ->
    repr_in Pm Pa h v t ->
    repr_in (fun l => l < length (maps h)) (fun a => a < length (arrays h)) h v t.
Proof.
  induction n as [| n IH]; intros t v Hd Hr.
  - inversion Hr; subst; cbn in Hd; try lia; by constructor.
  - inversion Hr as [ | | ty l m fields Hl Hml Hnd Hdom Hf | ty a off len cap items Hlc Hpa Hf Hlen];
      subst; try by constructor.
    + eapply repr_obj; [by eapply lookup_lt_Some | done | done | done |].
      apply Forall_forall. intros [k t] Hin.
      rewrite Forall_forall in Hf. destruct (Hf _ Hin) as (v & Hv & Hrv).
      exists v. split; [done |]. apply IH; [| done].
      pose proof (depth_field k t fields Hin). cbn in *. lia.
    + apply repr_arr; [done | | | done].
      { intros Hpos. destruct (Hpa Hpos) as [_ Hb]. split; [| done].
        eapply (slice_ok_allocated h a off (length items) cap); [by split | done]. }
      apply Forall2_same_length_lookup_2; [by eapply Forall2_length |].
      intros i v t Hv Ht. apply IH.
      * pose proof (depth_item t items (list_elem_of_lookup_2 _ _ _ Ht)). cbn in *. lia.
      * by eapply Forall2_lookup_lr.
Qed.


Lemma array_of_extends h h' a :
  extends h h' -> a < length (arrays h) -> array_of h' a = array_of h a.
Proof. intros (_ & _ & _ & _ & Ha) Hlt. unfold array_of. by rewrite Ha. Qed.

(** The original document is still there after the store has grown. *)
Lemma repr_extends h h' v t : repr h v t -> extends h h' -> repr h' v t.
Proof.
  intros Hr Hext.
  eapply (repr_in_frame _ _ _ _ h h'); [| | reflexivity |
    exact (repr_in_allocated _ _ h (depth t) t v (Nat.le_refl _) Hr)].
  - intros l Hl. split; [done |]. by apply Hext.
  - intros a Ha. split; [done |]. by apply array_of_extends.
Qed.

Section CopyTree.
Variable growcap : nat -> nat -> nat.
Variable cutLongStr : bool.

(** The loop of [handlerMap]: every entry visited is copied and stored in
    the result map [r0], which was allocated first. *)
Lemma handlerMap_loop (rec : value -> M value) (T : string -> json) h r0 :
  r0 = length (maps h) ->
  forall es h_cur m_ret,
    NoDup es.*1 ->
    Forall (fun kv => repr h kv.2 (T kv.1)) es ->
    (forall k v h1, (k, v) ∈ es -> repr h1 v (T k) ->
       exists v' h', rec v h1 = Ok (v', h') /\
                     copied h1 (cut_json cutLongStr (T k)) v' h') ->
    extends h h_cur -> maps h_cur !! r0 = Some m_ret ->
    (forall k, k ∈ es.*1 -> m_ret !! k = None) ->
    map_Forall (fun k v' =>
      repr_in (fun l => r0 < l < length (maps h_cur)) (new_arrays h h_cur) h_cur
              v' (cut_json cutLongStr (T k))) m_ret ->
    exists h' m_ret',
      range_loop es tt
        (fun _ '(key, val) => x ← rec val; map_assign (Some r0) key x) h_cur
        = Ok (tt, h') /\
      extends h h' /\ maps h' !! r0 = Some m_ret' /\
      (forall k, is_Some (m_ret' !! k) <-> is_Some (m_ret !! k) \/ k ∈ es.*1) /\
      map_Forall (fun k v' =>
        repr_in (fun l => r0 < l < length (maps h')) (new_arrays h h') h'
                v' (cut_json cutLongStr (T k))) m_ret'.
Proof.
  intros Hr0. induction es as [| [k v] es IH]; intros h_cur m_ret Hnd Hsrc Hrec Hext Hret Hfree Hdone.
  - exists h_cur, m_ret. split; [reflexivity |]. split; [done |]. split; [done |].
    split; [| done]. intros k. cbn. rewrite elem_of_nil. tauto.
  - cbn in Hnd. apply NoDup_cons in Hnd as [Hk Hnd].
    apply Forall_cons in Hsrc as [Hv Hsrc]. cbn in Hv.
    destruct (Hrec k v h_cur) as (v' & h2 & E & Hext2 & Hrv');
      [by left | by eapply repr_extends |].
    pose proof (lookup_lt_Some _ _ _ Hret) as Hr0lt.
    pose proof Hext2 as (Hn2 & Hml2 & Hm2 & Hal2 & Ha2).
    assert (Hret2 : maps h2 !! r0 = Some m_ret) by (by rewrite Hm2).
    set (h3 := mkHeap (nodes h2) (<[r0 := <[k := v']> m_ret]> (maps h2)) (arrays h2)).
    assert (E3 : map_assign (Some r0) k v' h2 = Ok (tt, h3)).
    { unfold map_assign, h3, map_of. by rewrite Hret2. }
    assert (Hm3 : forall l, l <> r0 -> maps h3 !! l = maps h2 !! l).
    { intros l Hl. cbn. by rewrite list_lookup_insert_ne. }
    assert (Hlen3 : length (maps h3) = length (maps h2)) by (cbn; by rewrite length_insert).
    destruct (IH h3 (<[k := v']> m_ret)) as (h' & m' & Eloop & Hext' & Hret' & Hdom' & Hdone').
    + done.
    + done.
    + intros k0 v0 h1 Hin. apply Hrec. by right.
    + pose proof Hext as (Hn & Hml & Hm & Hal & Ha).
      split; [cbn; congruence |]. split; [lia |]. split.
      { intros l Hl. rewrite Hm3 by lia. rewrite Hm2 by lia. by apply Hm. }
      split; [cbn; lia |]. intros a Hlt. cbn. rewrite Ha2 by lia. by apply Ha.
    + cbn. apply list_lookup_insert_eq. lia.
    + intros k0 Hk0. rewrite lookup_insert_ne; [apply Hfree; cbn; by right |].
      intros ->. done.
    + apply map_Forall_insert_2.
      * eapply (repr_in_frame _ _ _ _ h2 h3); [| | reflexivity | exact Hrv'].
        -- intros l [Hl1 Hl2]. split; [lia |]. apply Hm3. lia.
        -- intros a [Ha1 Ha2']. split; [| done].
           unfold new_arrays. destruct Hext as (_ & _ & _ & ? & _). cbn. lia.
      * eapply map_Forall_impl; [exact Hdone |]. intros k0 v0 Hr.
        eapply (repr_in_frame _ _ _ _ h_cur h3); [| | reflexivity | exact Hr].
        -- intros l [Hl1 Hl2]. split; [lia |]. rewrite Hm3 by lia. apply Hm2. lia.
        -- intros a [Ha1 Ha2']. split; [unfold new_arrays; cbn; lia |].
           change (array_of h3 a) with (array_of h2 a). by apply array_of_extends.
    + exists h', m'. split.
      { cbn [range_loop]. erewrite bind_Ok; [exact Eloop |].
        cbn. erewrite bind_Ok; [exact E3 | exact E]. }
      split; [done |]. split; [done |]. split; [| done].
      intros k0. rewrite Hdom'. cbn. rewrite elem_of_cons.
      destruct (decide (k0 = k)) as [-> | Hne].
      * rewrite lookup_insert_eq. split; [by right; left | intros _; left; by eexists].
      * rewrite lookup_insert_ne by done. tauto.
Qed.

Lemma cut_fields_keys (fields : list (string * json)) :
  (map (fun kt => (kt.1, cut_json cutLongStr kt.2)) fields).*1 = fields.*1.
Proof. induction fields as [| [k t] fs IH]; cbn; [done | by rewrite IH]. Qed.

Lemma handlerMap_body_eq (rec : value -> M value) ty m h :
  let r0 := length (maps h) in
  let h0 := mkHeap (nodes h) (maps h ++ [∅]) (arrays h) in
  handlerMap_body rec (VMap ty m) h
    = (range_loop (map_to_list (map_of h0 m)) tt
         (fun _ '(key, val) => x ← rec val; map_assign (Some r0) key x)
       ≫= fun _ => mret (VMap DictT (Some r0))) h0.
Proof. reflexivity. Qed.

(** [handlerMap] on a map object: a fresh [Dict] with a copy of every
    entry. *)
Lemma handlerMap_body_copies (rec : value -> M value) ty l m fields h :
  maps h !! l = Some m -> NoDup fields.*1 ->
  (forall k, is_Some (m !! k) -> k ∈ fields.*1) ->
  Forall (fun kt => exists v, m !! kt.1 = Some v /\ repr h v kt.2) fields ->
  (forall k t v h1, (k, t) ∈ fields -> repr h1 v t ->
     exists v' h', rec v h1 = Ok (v', h') /\ copied h1 (cut_json cutLongStr t) v' h') ->
  exists v' h',
    handlerMap_body rec (VMap ty (Some l)) h = Ok (v', h') /\
    copied h (cut_json cutLongStr (JObj fields)) v' h'.
Proof.
  intros Hl Hnd Hdom Hsrc Hrec.
  set (r0 := length (maps h)).
  set (h0 := mkHeap (nodes h) (maps h ++ [∅]) (arrays h)).
  set (T := field_tree fields).
  assert (Hentry : forall k v, m !! k = Some v ->
            exists t, (k, t) ∈ fields /\ T k = t /\ repr h v t).
  { intros k v Hkv. pose proof (Hdom k ltac:(by eexists)) as Hin.
    apply list_elem_of_fmap in Hin as ([k' t] & -> & Hin). cbn in *.
    exists t. split; [done |]. split; [by apply field_tree_lookup |].
    rewrite Forall_forall in Hsrc. destruct (Hsrc _ Hin) as (v0 & Hv0 & Hr). cbn in *.
    congruence. }
  destruct (handlerMap_loop rec T h r0 eq_refl (map_to_list m) h0 ∅)
    as (h' & m' & Eloop & Hext' & Hret' & Hdom' & Hdone').
  - apply NoDup_fst_map_to_list.
  - apply Forall_forall. intros [k v] Hin. apply elem_of_map_to_list in Hin.
    destruct (Hentry k v Hin) as (t & _ & <- & Hr). done.
  - intros k v h1 Hin Hr. apply elem_of_map_to_list in Hin.
    destruct (Hentry k v Hin) as (t & Hint & HT & _). rewrite HT in *.
    by eapply Hrec.
  - repeat split; cbn; try done.
    + rewrite length_app. lia.
    + intros l0 Hl0. by rewrite lookup_app_l.
  - cbn. by rewrite lookup_app_r, Nat.sub_diag.
  - intros k _. apply lookup_empty.
  - apply map_Forall_empty.
  - exists (VMap DictT (Some r0)), h'. split.
    + assert (Hm0 : map_of h0 (Some l) = m).
      { unfold map_of, h0. cbn. rewrite lookup_app_l by (by eapply lookup_lt_Some).
        by rewrite Hl. }
      rewrite handlerMap_body_eq. cbn zeta. fold r0 h0. rewrite Hm0.
      by erewrite bind_Ok by exact Eloop.
    + split; [done |]. cbn [cut_json].
      pose proof (lookup_lt_Some _ _ _ Hret') as Hr0lt.
      eapply repr_obj; [unfold new_maps; fold r0; lia | exact Hret' | | |].
      * by rewrite cut_fields_keys.
      * intros k Hk. rewrite cut_fields_keys. apply Hdom' in Hk as [Hk | Hk].
        { rewrite lookup_empty in Hk. by destruct Hk. }
        apply list_elem_of_fmap in Hk as ([k' v] & -> & Hin).
        apply elem_of_map_to_list in Hin. apply Hdom. by eexists.
      * apply Forall_fmap, Forall_forall. intros [k t] Hin. cbn.
        rewrite Forall_forall in Hsrc. destruct (Hsrc _ Hin) as (v & Hv & _). cbn in Hv.
        assert (Hsome : is_Some (m' !! k)).
        { apply Hdom'. right. apply list_elem_of_fmap. exists (k, v).
          split; [done |]. by apply elem_of_map_to_list. }
        destruct Hsome as [v' Hv']. exists v'. split; [done |].
        pose proof (Hdone' k v' Hv') as Hr. cbn in Hr. unfold T in Hr.
        rewrite (field_tree_lookup fields k t Hnd Hin) in Hr.
        eapply (repr_in_frame _ _ _ _ h' h'); [| | reflexivity | exact Hr].
        -- intros l0 [? ?]. split; [unfold new_maps; fold r0; lia | done].
        -- intros a ?. done.
Qed.

Lemma slice_ok_extends h h' a off len cap :
  extends h h' -> slice_ok h a off len cap -> slice_ok h' a off len cap.
Proof.
  intros Hext [? Hc]. split; [done |].
  destruct (decide (a < length (arrays h))) as [Hlt | Hge].
  - by rewrite (array_of_extends h h' a Hext Hlt).
  - unfold array_of in Hc. rewrite (lookup_ge_None_2 (arrays h) a) in Hc by lia.
    cbn in Hc. lia.
Qed.

Lemma modifies_array_of h h' a lo hi b :
  modifies h h' a lo hi -> b < length (arrays h) -> b <> a \/ hi <= lo ->
  array_of h' b = array_of h b.
Proof.
  intros (_ & _ & _ & Hc) Hb Hsep. destruct (Hc b Hb) as [Hlen Hcell].
  apply list_eq. intros i. apply Hcell. intros [-> ?]. lia.
Qed.

Lemma modifies_lookup h h' a lo hi b :
  modifies h h' a lo hi -> b < length (arrays h) -> b <> a \/ hi <= lo ->
  arrays h' !! b = arrays h !! b.
Proof.
  intros Hmod Hb Hsep. pose proof (modifies_array_of h h' a lo hi b Hmod Hb Hsep) as E.
  destruct Hmod as (_ & _ & Hl & _). unfold array_of in E.
  destruct (lookup_lt_is_Some_2 (arrays h) b Hb) as [x Hx].
  destruct (lookup_lt_is_Some_2 (arrays h') b ltac:(lia)) as [y Hy].
  rewrite Hx, Hy in *. cbn in E. by subst.
Qed.

(** The loop of [handlerSlice]: every element visited is copied and
    appended to the result, whose backing array is of the copy's own. *)
Lemma handlerSlice_loop (rec : value -> M value) h :
  forall vs ts h_cur ra roff rlen rcap done,
    Forall2 (repr h) vs ts ->
    (forall v t h1, t ∈ ts -> repr h1 v t ->
       exists v' h', rec v h1 = Ok (v', h') /\ copied h1 (cut_json cutLongStr t) v' h') ->
    extends h h_cur ->
    slice_ok h_cur ra roff rlen rcap ->
    (0 < rcap -> new_arrays h h_cur ra) ->
    Forall2 (repr_in (new_maps h h_cur) (fun a => new_arrays h h_cur a /\ a <> ra) h_cur)
            (slice_elems h_cur ra roff rlen) done ->
    exists h' ra' roff' rcap',
      range_loop vs (VSlice ListT ra roff rlen rcap)
        (fun ret val =>
           x ← rec val;
           match ret with
           | VSlice t ra roff rlen rcap => go_append growcap t ra roff rlen rcap [x]
           | _ => mret ret
           end) h_cur
        = Ok (VSlice ListT ra' roff' (rlen + length vs) rcap', h') /\
      extends h h' /\
      slice_ok h' ra' roff' (rlen + length vs) rcap' /\
      (0 < rcap' -> new_arrays h h' ra') /\
      Forall2 (repr_in (new_maps h h') (fun a => new_arrays h h' a /\ a <> ra') h')
              (slice_elems h' ra' roff' (rlen + length vs))
              (done ++ map (cut_json cutLongStr) ts).
Proof.
  induction vs as [| v vs IH]; intros ts h_cur ra roff rlen rcap done Hsrc Hrec Hext Hok Hnew Hdone.
  - apply Forall2_nil_inv_l in Hsrc as ->. exists h_cur, ra, roff, rcap.
    cbn. rewrite Nat.add_0_r, app_nil_r. done.
  - apply Forall2_cons_inv_l in Hsrc as (t & ts' & Hv & Hsrc & ->).
    destruct (Hrec v t h_cur) as (v' & h2 & E & Hext2 & Hrv');
      [by left | by eapply repr_extends |].
    pose proof (slice_ok_extends _ _ _ _ _ _ Hext2 Hok) as Hok2.
    destruct (go_append_spec growcap ListT ra roff rlen rcap [v'] h2 Hok2)
      as (ra' & roff' & rcap' & h3 & Eapp & Hok3 & Hel3 & Hmod3 & Hw3).
    cbn [length] in Eapp, Hok3, Hel3, Hmod3.
    pose proof Hext as (Hn & Hml & Hm & Hal & Ha).
    pose proof Hext2 as (Hn2 & Hml2 & Hm2 & Hal2 & Ha2).
    pose proof Hmod3 as (Hn3 & Hm3 & Hal3 & _).
    (* where the write went *)
    assert (Hsep : forall b, b < length (arrays h2) -> b <> ra \/ rcap = 0 ->
                    array_of h3 b = array_of h2 b).
    { intros b Hb [Hne | Hz].
      - eapply modifies_array_of; [exact Hmod3 | done | by left].
      - destruct Hw3 as [(-> & -> & ->) | (_ & _ & Hm0)].
        + destruct Hok3. lia.
        + eapply modifies_array_of; [exact Hm0 | done | right; lia]. }
    assert (Hra : 0 < rcap -> ra < length (arrays h_cur)).
    { intros Hpos. destruct (Hnew Hpos). lia. }
    assert (Hext3 : extends h h3).
    { split; [congruence |]. split; [rewrite Hm3; lia |]. split.
      { intros l Hl. rewrite Hm3, Hm2 by lia. by apply Hm. }
      split; [lia |]. intros a Hlt.
      destruct (decide (0 < rcap)) as [Hpos | Hz].
      - rewrite (modifies_lookup h2 h3 ra _ _ a Hmod3) by
          (first [lia | left; destruct (Hnew Hpos); lia]).
        rewrite Ha2 by lia. by apply Ha.
      - destruct Hw3 as [(-> & -> & ->) | (_ & _ & Hm0)]; [destruct Hok3; lia |].
        rewrite (modifies_lookup h2 h3 ra 0 0 a Hm0) by (first [lia | right; lia]).
        rewrite Ha2 by lia. by apply Ha. }
    assert (Hnew3 : 0 < rcap' -> new_arrays h h3 ra').
    { intros _. unfold new_arrays.
      destruct Hw3 as [(-> & -> & ->) | (-> & _ & _)].
      - assert (0 < rcap) as Hpos by (destruct Hok3; lia).
        destruct (Hnew Hpos). lia.
      - destruct Hok3 as [? Hc3]. 
        assert (length (arrays h2) < length (arrays h3)); [| lia].
        eapply (slice_ok_allocated h3 _ roff' (rlen + 1) rcap'); [by split | lia]. }
    assert (Hold : slice_elems h2 ra roff rlen = slice_elems h_cur ra roff rlen).
    { destruct (decide (0 < rcap)) as [Hpos | Hz].
      - unfold slice_elems. by rewrite (array_of_extends h_cur h2 ra Hext2 (Hra Hpos)).
      - destruct Hok. replace rlen with 0 by lia. unfold slice_elems. by rewrite !take_0. }
    destruct (IH ts' h3 ra' roff' (rlen + 1) rcap' (done ++ [cut_json cutLongStr t]))
      as (h' & ra'' & roff'' & rcap'' & Eloop & Hext' & Hok' & Hnew' & Hall').
    + done.
    + intros v0 t0 h1 Hin. apply Hrec. by right.
    + done.
    + done.
    + done.
    + rewrite Hel3, Hold. apply Forall2_app.
      * eapply Forall2_impl; [exact Hdone |]. intros v0 t0 Hr.
        eapply (repr_in_frame _ _ _ _ h_cur h3); [| | reflexivity | exact Hr].
        -- intros l [Hl1 Hl2]. split; [unfold new_maps; rewrite Hm3; lia |].
           rewrite Hm3. apply Hm2. lia.
        -- intros a [[Ha1 Ha2'] Hne]. split; [split |].
           ++ unfold new_arrays. lia.
           ++ destruct Hw3 as [(-> & _) | (-> & _)]; [done | lia].
           ++ rewrite Hsep by (first [lia | by left]). by apply array_of_extends.
      * constructor; [| constructor].
        eapply (repr_in_frame _ _ _ _ h2 h3); [| | reflexivity | exact Hrv'].
        -- intros l [Hl1 Hl2]. split; [unfold new_maps; rewrite Hm3; lia |].
           by rewrite Hm3.
        -- intros a [Ha1 Ha2']. split; [split |].
           ++ unfold new_arrays. lia.
           ++ destruct Hw3 as [(-> & -> & ->) | (-> & _ & _)]; [| lia].
              assert (0 < rcap) as Hpos by (destruct Hok3; lia).
              specialize (Hra Hpos). lia.
           ++ apply Hsep; [done |].
              destruct (decide (0 < rcap)) as [Hpos | Hz]; [left | right; lia].
              specialize (Hra Hpos). lia.
    + exists h', ra'', roff'', rcap''.
      replace (rlen + length (v :: vs)) with (rlen + 1 + length vs) by (cbn; lia).
      split.
      { cbn [range_loop]. erewrite bind_Ok; [exact Eloop |].
        erewrite bind_Ok; [exact Eapp | exact E]. }
      split; [done |]. split; [done |]. split; [done |].
      cbn [map]. by rewrite <- app_assoc in Hall'.
Qed.

Lemma handlerSlice_body_eq (rec : value -> M value) ty a off len cap h :
  handlerSlice_body growcap rec (VSlice ty a off len cap) h
    = range_loop (slice_elems h a off len) (VSlice ListT 0 0 0 0)
        (fun ret val =>
           x ← rec val;
           match ret with
           | VSlice t ra roff rlen rcap => go_append growcap t ra roff rlen rcap [x]
           | _ => mret ret
           end) h.
Proof. reflexivity. Qed.

(** [handlerSlice] on a slice: a fresh [List] with a copy of every
    element, in order. *)
Lemma handlerSlice_body_copies (rec : value -> M value) ty a off len cap items h :
  Forall2 (repr h) (slice_elems h a off len) items ->
  (forall v t h1, t ∈ items -> repr h1 v t ->
     exists v' h', rec v h1 = Ok (v', h') /\ copied h1 (cut_json cutLongStr t) v' h') ->
  exists v' h',
    handlerSlice_body growcap rec (VSlice ty a off len cap) h = Ok (v', h') /\
    copied h (cut_json cutLongStr (JArr items)) v' h'.
Proof.
  intros Hsrc Hrec.
  destruct (handlerSlice_loop rec h (slice_elems h a off len) items h 0 0 0 0 [])
    as (h' & ra' & roff' & rcap' & Eloop & Hext' & Hok' & Hnew' & Hall');
    [done | done | apply extends_refl | split; cbn; lia | lia | |].
  { unfold slice_elems. rewrite take_0. constructor. }
  cbn [Nat.add app] in *.
  eexists _, h'. split; [rewrite handlerSlice_body_eq; exact Eloop |].
  split; [done |]. cbn [cut_json].
  apply repr_arr.
  - by destruct Hok'.
  - intros Hpos. split; [by apply Hnew' |]. by destruct Hok'.
  - eapply Forall2_impl; [exact Hall' |]. intros v0 t0 Hr.
    eapply (repr_in_frame _ _ _ _ h' h'); [| | reflexivity | exact Hr].
    + done.
    + intros a0 [? _]. done.
  - rewrite length_map. symmetry. by eapply Forall2_length.
Qed.

(** The recursive copy: a value standing for a tree [t] is copied, given
    fuel beyond the depth of [t], into a value standing for [t] (with
    long strings cut, if asked) that uses only map objects and arrays
    allocated by the copy; the store is otherwise unchanged. *)
Lemma handlerVal_copies :
  forall fuel t v h, depth t < fuel -> repr h v t ->
    exists v' h',
      handlerVal growcap fuel cutLongStr v h = Ok (v', h') /\
      copied h (cut_json cutLongStr t) v' h'.
Proof.
  induction fuel as [| fuel IH]; intros t v h Hd Hr; [lia |].
  inversion Hr as [ v0 Hsc | ty | ty l m fields _ Hml Hnd Hdom Hf
                  | ty a off len cap items Hlc Hpa Hf Hlen]; subst.
  - destruct v; try done; eexists _, h; (split; [reflexivity |]);
      (split; [apply extends_refl | by apply repr_leaf]).
  - cbn [handlerVal]. rewrite handlerMap_body_eq. cbn zeta.
    unfold map_of. rewrite map_to_list_empty. cbn [range_loop].
    eexists _, _. split; [reflexivity |]. split.
    + repeat split; cbn; try done.
      * rewrite length_app. lia.
      * intros l0 Hl0. by rewrite lookup_app_l.
    + eapply (repr_obj _ _ _ _ _ ∅ []).
      * unfold new_maps. cbn. rewrite length_app. cbn. lia.
      * cbn. by rewrite lookup_app_r, Nat.sub_diag.
      * constructor.
      * intros k [x Hx]. by rewrite lookup_empty in Hx.
      * constructor.
  - cbn [handlerVal].
    apply (handlerMap_body_copies _ ty l m fields h Hml Hnd Hdom Hf).
    intros k t v h1 Hin Hr1. apply IH; [| done].
    pose proof (depth_field k t fields Hin). lia.
  - cbn [handlerVal].
    apply (handlerSlice_body_copies _ ty a off (length items) cap items h Hf).
    intros v t h1 Hin Hr1. apply IH; [| done].
    pose proof (depth_item t items Hin). lia.
Qed.

End CopyTree.

Lemma cut_json_false : forall n t, depth t <= n -> cut_json false t = t.
Proof.
  induction n as [| n IH]; intros [v | fields | items] Hd; cbn in Hd; try lia;
    try (by destruct v).
  - cbn. f_equal. rewrite <- (list_fmap_id fields) at 2.
    apply Forall_fmap_ext, Forall_forall. intros [k t] Hin. cbn. f_equal.
    apply IH. pose proof (depth_field k t fields Hin). cbn in *. lia.
  - cbn. f_equal. rewrite <- (list_fmap_id items) at 2.
    apply Forall_fmap_ext, Forall_forall. intros t Hin. cbn.
    apply IH. pose proof (depth_item t items Hin). cbn in *. lia.
Qed.

(** A document is unaffected by writes to map objects and arrays
    allocated after it. *)
Lemma repr_untouched h h' v t :
  repr h v t ->
  (forall l, l < length (maps h) -> maps h' !! l = maps h !! l) ->
  (forall a, a < length (arrays h) -> array_of h' a = array_of h a) ->
  repr h' v t.
Proof.
  intros Hr Hm Ha.
  eapply (repr_in_frame _ _ _ _ h h'); [| | reflexivity |
    exact (repr_in_allocated _ _ h (depth t) t v (Nat.le_refl _) Hr)].
  - intros l Hl. split; [done |]. by apply Hm.
  - intros a Hlt. split; [done |]. by apply Ha.
Qed.

Section CloneTree.
Variable growcap : nat -> nat -> nat.
Variable decode : string -> heap -> option (value * heap).

(** [Clone] and [ShortNiceJson] on a handle wrapping a container that
    stands for the tree [t]: the new handle wraps a copy standing for [t]
    (with long strings cut, for [ShortNiceJson]), built from map objects
    and arrays none of which existed before, and the old store is
    untouched. *)
Lemma rebuild_container cut fuel h j n t :
  nodes h !! j = Some n -> is_container (data n) = true ->
  repr h (data n) t -> depth t <= fuel ->
  exists v' h1,
    copied h (cut_json cut t) v' h1 /\
    (if cut then ShortNiceJson growcap decode fuel j h
     else Clone growcap decode fuel j h)
      = Ok (length (nodes h), child_of h1 (mkGoJson None "" 0 v')).
Proof.
  intros Hj Hc Hr Hd.
  destruct (handlerVal_copies growcap cut (S fuel) t (data n) h ltac:(lia) Hr)
    as (v' & h1 & E & Hcop).
  exists v', h1. split; [done |].
  pose proof Hcop as ((Hn1 & _) & Hrv').
  assert (Hnew : NewJson decode v' h1
                 = Ok (length (nodes h), child_of h1 (mkGoJson None "" 0 v'))).
  { rewrite <- Hn1. clear E Hcop.
    inversion Hr as [v0 Hsc | | |]; subst; cbn [cut_json] in Hrv'.
    - by destruct (data n).
    - by inversion Hrv'.
    - by inversion Hrv'.
    - by inversion Hrv'. }
  assert (Hgen : forall c,
    (n0 ← read_node j; s ← IsSlice j;
     if (s : bool) then x ← handlerSlice growcap fuel (data n0) c; NewJson decode x
     else m ← IsMap j;
          if (m : bool) then x ← handlerMap growcap fuel (data n0) c; NewJson decode x
          else NewJson decode (data n0)) h
    = (x ← handlerVal growcap (S fuel) c (data n); NewJson decode x) h).
  { intros c. rewrite (bind_Ok _ _ _ _ _ (read_node_Ok _ _ _ Hj)).
    rewrite (bind_Ok _ _ _ _ _ (IsSlice_Ok _ _ _ Hj)).
    destruct (data n) as [| | | | | | | | ty m | ty a off len cap |] eqn:Hdn; try done.
    by rewrite (bind_Ok _ _ _ _ _ (IsMap_Ok _ _ _ Hj)), Hdn. }
  destruct cut; unfold ShortNiceJson, Clone; cbn zeta; rewrite Hgen;
    by rewrite (bind_Ok _ _ _ _ _ E).
Qed.

End CloneTree.

(** [Clone] of a container: the clone stands for the same tree, shares no
    map object and no array with the original, and the original is intact
    -- also after any later write to the clone's own map objects and
    arrays. *)
Lemma Clone_container growcap decode fuel h j n t :
  nodes h !! j = Some n -> is_container (data n) = true ->
  repr h (data n) t -> depth t <= fuel ->
  exists c h' v',
    Clone growcap decode fuel j h = Ok (c, h') /\
    node_data h' c = Some v' /\
    repr_in (fun l => length (maps h) <= l) (fun a => length (arrays h) <= a) h' v' t /\
    repr_in (fun l => l < length (maps h)) (fun a => a < length (arrays h)) h' (data n) t /\
    node_data h' j = Some (data n) /\
    forall h2,
      (forall l, l < length (maps h) -> maps h2 !! l = maps h' !! l) ->
      (forall a, a < length (arrays h) -> array_of h2 a = array_of h' a) ->
      repr h2 (data n) t.
Proof.
  intros Hj Hc Hr Hd.
  destruct (rebuild_container growcap decode false fuel h j n t Hj Hc Hr Hd)
    as (v' & h1 & (Hext & Hrv') & E).
  rewrite (cut_json_false (depth t) t (Nat.le_refl _)) in Hrv'.
  pose proof Hext as (Hn1 & Hml & Hm & Hal & Ha).
  assert (Hold : repr_in (fun l => l < length (maps h)) (fun a => a < length (arrays h))
                   (child_of h1 (mkGoJson None "" 0 v')) (data n) t).
  { eapply (repr_in_frame _ _ _ _ h); [| | reflexivity |
      exact (repr_in_allocated _ _ h (depth t) t _ (Nat.le_refl _) Hr)].
    - intros l Hl. split; [done |]. cbn. by apply Hm.
    - intros a Hlt. split; [done |]. by apply (array_of_extends h h1). }
  eexists _, _, v'. split; [exact E |]. split.
  { unfold node_data. rewrite <- Hn1. by rewrite child_lookup. }
  split.
  { eapply (repr_in_frame _ _ _ _ h1); [| | reflexivity | exact Hrv'].
    - intros l [? ?]. done.
    - intros a [? ?]. done. }
  split; [exact Hold |]. split.
  { unfold node_data. cbn. rewrite Hn1, lookup_app_l by (by eapply lookup_lt_Some).
    by rewrite Hj. }
  intros h2 Hm2 Ha2.
  eapply (repr_in_frame _ _ _ _ _ h2); [| | reflexivity | exact Hold].
  - intros l Hl. split; [done |]. by apply Hm2.
  - intros a Hlt. split; [done |]. by apply Ha2.
Qed.

(** [ShortNiceJson] of a container: the result stands for the tree with
    [handlerString] applied to every string leaf and every other leaf as
    it was. *)
Lemma ShortNiceJson_container growcap decode fuel h j n t :
  nodes h !! j = Some n -> is_container (data n) = true ->
  repr h (data n) t -> depth t <= fuel ->
  exists c h' v',
    ShortNiceJson growcap decode fuel j h = Ok (c, h') /\
    node_data h' c = Some v' /\
    repr h' v' (cut_json true t).
Proof.
  intros Hj Hc Hr Hd.
  destruct (rebuild_container growcap decode true fuel h j n t Hj Hc Hr Hd)
    as (v' & h1 & (Hext & Hrv') & E).
  pose proof Hext as (Hn1 & _).
  eexists _, _, v'. split; [exact E |]. split.
  { unfold node_data. rewrite <- Hn1. by rewrite child_lookup. }
  eapply (repr_in_frame _ _ _ _ h1); [| | reflexivity | exact Hrv']; by intros.
Qed.

(** The document [{"a": [1, 2, 3]}] is a tree, and its clone is the
    [Dict] holding a [List] with the same three elements. *)
Lemma h_doc_repr : repr h_doc (VMap RawMap (Some 0)) t_doc.
Proof.
  eapply (repr_obj _ _ _ _ _ _ _ I); [reflexivity | | |].
  - cbn. apply NoDup_singleton.
  - intros k [v Hk]. cbn. apply list_elem_of_singleton.
    apply lookup_singleton_Some in Hk. by destruct Hk.
  - constructor; [| constructor]. eexists. split; [reflexivity |].
    apply repr_arr; [lia | intros _; split; [done | cbn; lia] | | done].
    repeat constructor.
Qed.

Lemma Clone_h_doc :
  exists h',
    Clone double_cap decode_literal 2 0 h_doc = Ok (2, h') /\
    node_data h' 2 = Some (VMap DictT (Some 1)) /\
    map_of h' (Some 1) !! "a" = Some (VSlice ListT 3 0 3 4) /\
    slice_elems h' 3 0 3 = [VNumber "1"; VNumber "2"; VNumber "3"].
Proof. eexists. split; [by vm_compute |]. by vm_compute. Qed.

(** On the clone, [Get("a").Append(4)] grows the child's own slice to
    four elements, while the entry of the clone's [Dict] still is the
    slice of three: there is no write-back into a [Dict]. *)
Lemma Clone_Get_Append_h_doc :
  exists h',
    (c ← Clone double_cap decode_literal 2 0; g ← Get c "a";
     Append double_cap g (VInt KInt 4)) h_doc = Ok (3, h') /\
    node_data h' 3 = Some (VSlice ListT 3 0 4 4) /\
    map_of h' (Some 1) !! "a" = Some (VSlice ListT 3 0 3 4).
Proof. eexists. split; [by vm_compute |]. by vm_compute. Qed.

(** * Further properties of the package *)

#[local] Hint Resolve unwrap_Ok write_data_Ok IsMap_Ok IsSlice_Ok IsNil_Ok : gorun.

(** ** Maps: [Set], [Get], [Remove], [Keys] *)

Lemma map_of_update h l m' l' :
  l < length (maps h) ->
  map_of (mkHeap (nodes h) (<[l := m']> (maps h)) (arrays h)) (Some l')
    = if decide (l' = l) then m' else map_of h (Some l').
Proof.
  intros Hl. unfold map_of. cbn. destruct (decide (l' = l)) as [-> | Hne].
  - by rewrite list_lookup_insert_eq.
  - by rewrite list_lookup_insert_ne.
Qed.

Lemma unwrapped_child h c x v :
  unwrapped h x = Some v -> unwrapped (child_of h c) x = Some v.
Proof.
  destruct x; try done. cbn. intros E.
  destruct (nodes h !! p) as [n |] eqn:Hp; [| done].
  by rewrite (lookup_app_l_Some _ _ _ _ Hp).
Qed.

Lemma node_data_child h c : node_data (child_of h c) (length (nodes h)) = Some (data c).
Proof. unfold node_data. by rewrite child_lookup. Qed.

(** X1 ([Set], [Get]): on a handle wrapping a map, [Set(key, x)] followed
    by [Get(key')] yields a child holding the value of [x] when
    [key' = key], and what the map held under [key'] before otherwise.
    [Set] touches no handle, no array and no other map object. *)
Theorem Set_then_Get h j n t l key x v key' :
  nodes h !! j = Some n -> data n = VMap t (Some l) -> l < length (maps h) ->
  unwrapped h x = Some v ->
  exists h1 c h2,
    Set_ j (VString key) x h = Ok (j, h1) /\
    Get j key' h1 = Ok (c, h2) /\
    node_data h2 c
      = Some (if decide (key' = key) then v else map_index h (Some l) key') /\
    nodes h1 = nodes h /\ arrays h1 = arrays h /\
    forall l', l' <> l -> maps h1 !! l' = maps h !! l'.
Proof.
  intros Hj Hd Hl Hx.
  eexists _, _, _. split; [by eapply Set_string_map |].
  split; [by eapply Get_Ok |].
  split; [| split; [done | split; [done |]]].
  - rewrite node_data_child. cbn [data]. rewrite Hd. cbn [getMap fst].
    unfold map_index. rewrite map_of_update by done. rewrite decide_True by done.
    destruct (decide (key' = key)) as [-> | Hne].
    + by rewrite lookup_insert_eq.
    + by rewrite lookup_insert_ne.
  - intros l' Hne. cbn. by rewrite list_lookup_insert_ne.
Qed.

Lemma Set_then_Get_witness :
  exists h1 c h2,
    Set_ 0 (VString "b") (VInt KInt 2) h_obj = Ok (0, h1) /\
    Get 0 "b" h1 = Ok (c, h2) /\
    node_data h2 c
      = Some (if decide ("b" = "b") then VInt KInt 2 else map_index h_obj (Some 0) "b") /\
    nodes h1 = nodes h_obj /\ arrays h1 = arrays h_obj /\
    forall l', l' <> 0 -> maps h1 !! l' = maps h_obj !! l'.
Proof.
  apply (Set_then_Get h_obj 0 (mkGoJson None "" 0 (VMap RawMap (Some 0))) RawMap 0
           "b" (VInt KInt 2) (VInt KInt 2) "b"); try reflexivity.
  cbn. lia.
Defined.

(** X2 ([Set], [setMap], [setSlice]): [Set] changes nothing and returns
    the receiver when the key does not fit the wrapped value: a string
    key on anything but a map, an [int] key on anything but a slice, a key
    of any other type.  In particular [Set] on an empty handle does not
    create a container. *)
Theorem Set_wrong_shape h j n key x v :
  nodes h !! j = Some n -> unwrapped h x = Some v ->
  match key, data n with
  | VString _, VMap _ _ => False
  | VInt KInt _, VSlice _ _ _ _ _ => False
  | _, _ => True
  end ->
  Set_ j key x h = Ok (j, h).
Proof.
  intros Hj Hx Hk. unfold Set_. run.
  destruct key as [| | | [] idx | | | s | | | |]; try reflexivity.
  - unfold setSlice. run. by destruct (data n).
  - unfold setMap. run. by destruct (data n).
Qed.

Lemma Set_wrong_shape_witness :
  Set_ 0 (VString "a") (VInt KInt 1) h_nil = Ok (0, h_nil) /\
  Set_ 0 (VInt KInt 0) (VInt KInt 1) h_obj = Ok (0, h_obj) /\
  Set_ 0 (VBool true) (VInt KInt 1) h_obj = Ok (0, h_obj).
Proof.
  split; [| split].
  - by apply (Set_wrong_shape h_nil 0 (mkGoJson None "" 0 VNil) (VString "a")
                (VInt KInt 1) (VInt KInt 1)).
  - by apply (Set_wrong_shape h_obj 0 (mkGoJson None "" 0 (VMap RawMap (Some 0)))
                (VInt KInt 0) (VInt KInt 1) (VInt KInt 1)).
  - by apply (Set_wrong_shape h_obj 0 (mkGoJson None "" 0 (VMap RawMap (Some 0)))
                (VBool true) (VInt KInt 1) (VInt KInt 1)).
Defined.

(** X3 ([Set], [setMap]): a handle can wrap a nil map (a [Dict] or map
    variable that was never made); [IsMap] is true of it and [Get] reads
    it as empty, but [Set] with a string key panics on the assignment. *)
Theorem Set_nil_map_panics h j n t key x v :
  nodes h !! j = Some n -> data n = VMap t None ->
  unwrapped h x = Some v ->
  IsMap j h = Ok (true, h) /\
  Set_ j (VString key) x h = Panic NilMapAssignment.
Proof.
  intros Hj Hd Hx. split.
  - erewrite IsMap_Ok by done. by rewrite Hd.
  - unfold Set_. run. rewrite Hd. unfold setMap. run. reflexivity.
Qed.

Lemma Set_nil_map_panics_witness :
  IsMap 0 (mkHeap [mkGoJson None "" 0 (VMap DictT None)] [] [])
    = Ok (true, mkHeap [mkGoJson None "" 0 (VMap DictT None)] [] []) /\
  Set_ 0 (VString "a") (VInt KInt 1) (mkHeap [mkGoJson None "" 0 (VMap DictT None)] [] [])
    = Panic NilMapAssignment.
Proof.
  by apply (Set_nil_map_panics (mkHeap [mkGoJson None "" 0 (VMap DictT None)] [] []) 0
              (mkGoJson None "" 0 (VMap DictT None)) DictT "a" (VInt KInt 1) (VInt KInt 1)).
Defined.

Lemma Remove_map h j n t l key :
  nodes h !! j = Some n -> data n = VMap t (Some l) ->
  Remove j (VString key) h
    = Ok (j, mkHeap (nodes h) (<[l := delete key (map_of h (Some l))]> (maps h)) (arrays h)).
Proof.
  intros Hj Hd. unfold Remove. run. rewrite Hd. run. rewrite Hd.
  by destruct t.
Qed.

(** X4 ([Remove], [Get], [IsNil]): on a handle wrapping a map (plain or
    [Dict]), [Remove(key)] deletes the entry and nothing else:
    afterwards [Get(key)] is a nil child, and [Get(key')] for any other
    key yields what it yielded before. *)
Theorem Remove_then_Get h j n t l key key' :
  nodes h !! j = Some n -> data n = VMap t (Some l) -> l < length (maps h) ->
  exists h1 c h2,
    Remove j (VString key) h = Ok (j, h1) /\
    map_of h1 (Some l) = delete key (map_of h (Some l)) /\
    Get j key' h1 = Ok (c, h2) /\
    node_data h2 c
      = Some (if decide (key' = key) then VNil else map_index h (Some l) key') /\
    (key' = key -> IsNil c h2 = Ok (true, h2)) /\
    nodes h1 = nodes h /\ arrays h1 = arrays h /\
    forall l', l' <> l -> maps h1 !! l' = maps h !! l'.
Proof.
  intros Hj Hd Hl.
  assert (Hc : fst (getMap key' (data n)
                 (mkHeap (nodes h) (<[l := delete key (map_of h (Some l))]> (maps h))
                    (arrays h)))
               = if decide (key' = key) then VNil else map_index h (Some l) key').
  { rewrite Hd. cbn [getMap fst]. unfold map_index.
    rewrite map_of_update by done. rewrite decide_True by done.
    destruct (decide (key' = key)) as [-> | Hne].
    - by rewrite lookup_delete_eq.
    - by rewrite lookup_delete_ne. }
  eexists _, _, _. split; [by eapply Remove_map |].
  split; [by rewrite map_of_update, decide_True |].
  split; [by eapply Get_Ok |].
  split; [rewrite node_data_child; cbn [data]; by rewrite Hc |].
  split; [| split; [done | split; [done |]]].
  - intros ->. erewrite IsNil_Ok by apply child_lookup. cbn [data].
    rewrite Hc. by rewrite decide_True.
  - intros l' Hne. cbn. by rewrite list_lookup_insert_ne.
Qed.

Lemma Remove_then_Get_witness :
  exists h1 c h2,
    Remove 0 (VString "a") h_obj = Ok (0, h1) /\
    map_of h1 (Some 0) = delete "a" (map_of h_obj (Some 0)) /\
    Get 0 "a" h1 = Ok (c, h2) /\
    node_data h2 c
      = Some (if decide ("a" = "a") then VNil else map_index h_obj (Some 0) "a") /\
    ("a" = "a" -> IsNil c h2 = Ok (true, h2)) /\
    nodes h1 = nodes h_obj /\ arrays h1 = arrays h_obj /\
    forall l', l' <> 0 -> maps h1 !! l' = maps h_obj !! l'.
Proof.
  apply (Remove_then_Get h_obj 0 (mkGoJson None "" 0 (VMap RawMap (Some 0))) RawMap 0
           "a" "a"); try reflexivity.
  cbn. lia.
Defined.

(** X5 ([Remove]): [Remove] changes nothing and returns the receiver when
    the key is not a string (removing from a sequence by index is not
    implemented), when the wrapped value is not a map, and when the key
    is absent from the map. *)
Theorem Remove_nothing h j n key :
  nodes h !! j = Some n ->
  match key, data n with
  | VString s, VMap _ m => map_of h m !! s = None
  | _, _ => True
  end ->
  Remove j key h = Ok (j, h).
Proof.
  intros Hj Hk. unfold Remove.
  destruct key as [| | | [] idx | | | s | | | |]; try reflexivity.
  run. destruct (data n) as [| | | | | | | | t m | |] eqn:Hd; try reflexivity.
  run. rewrite Hd.
  assert (E : map_delete m s h = Ok (tt, h)).
  { unfold map_delete. destruct m as [l |]; [| done].
    rewrite delete_id by done. do 2 f_equal. destruct h as [ns ms ars]. cbn. f_equal.
    unfold map_of in *. cbn in *.
    destruct (ms !! l) as [m |] eqn:Hm.
    - by apply list_insert_id.
    - apply list_insert_ge. by apply lookup_ge_None. }
  destruct t; by run.
Qed.

Lemma Remove_nothing_witness :
  Remove 0 (VInt KInt 0) h_one = Ok (0, h_one) /\
  Remove 0 (VString "a") h_one = Ok (0, h_one) /\
  Remove 0 (VString "b") h_obj = Ok (0, h_obj).
Proof.
  split; [| split].
  - by apply (Remove_nothing h_one 0 (mkGoJson None "" 0 (VSlice RawSlice 0 0 1 1))
                (VInt KInt 0)).
  - by apply (Remove_nothing h_one 0 (mkGoJson None "" 0 (VSlice RawSlice 0 0 1 1))
                (VString "a")).
  - by apply (Remove_nothing h_obj 0 (mkGoJson None "" 0 (VMap RawMap (Some 0)))
                (VString "b")).
Defined.

(** X6 ([Keys], [Set], [Remove]): on a handle wrapping a plain map,
    [Keys] after [Set(key, x)] lists every key once: [key] and the keys
    that were there; after [Remove(key)] it lists the keys that were
    there except [key]. *)
Theorem Keys_after_Set_Remove h j n l key x v :
  nodes h !! j = Some n -> data n = VMap RawMap (Some l) -> l < length (maps h) ->
  unwrapped h x = Some v ->
  (exists h1 ks,
     Set_ j (VString key) x h = Ok (j, h1) /\ Keys j h1 = Ok (ks, h1) /\ NoDup ks /\
     forall k, k ∈ ks <-> k = key \/ is_Some (map_of h (Some l) !! k)) /\
  (exists h1 ks,
     Remove j (VString key) h = Ok (j, h1) /\ Keys j h1 = Ok (ks, h1) /\ NoDup ks /\
     forall k, k ∈ ks <-> k <> key /\ is_Some (map_of h (Some l) !! k)).
Proof.
  intros Hj Hd Hl Hx. split.
  - eexists _. 
    edestruct (Keys_raw_map
      (mkHeap (nodes h) (<[l := <[key := v]> (map_of h (Some l))]> (maps h)) (arrays h))
      j n (Some l) Hj Hd) as (ks & E & Hnd & Hks).
    exists ks. split; [by eapply Set_string_map |]. split; [exact E |].
    split; [exact Hnd |]. intros k. rewrite Hks, map_of_update, decide_True by done.
    rewrite lookup_insert_is_Some. destruct (decide (key = k)); intuition congruence.
  - eexists _.
    edestruct (Keys_raw_map
      (mkHeap (nodes h) (<[l := delete key (map_of h (Some l))]> (maps h)) (arrays h))
      j n (Some l) Hj Hd) as (ks & E & Hnd & Hks).
    exists ks. split; [by eapply Remove_map |]. split; [exact E |].
    split; [exact Hnd |]. intros k. rewrite Hks, map_of_update, decide_True by done.
    rewrite lookup_delete_is_Some. intuition congruence.
Qed.

Lemma Keys_after_Set_Remove_witness :
  (exists h1 ks,
     Set_ 0 (VString "b") (VInt KInt 2) h_obj = Ok (0, h1) /\ Keys 0 h1 = Ok (ks, h1) /\
     NoDup ks /\
     forall k, k ∈ ks <-> k = "b" \/ is_Some (map_of h_obj (Some 0) !! k)) /\
  (exists h1 ks,
     Remove 0 (VString "b") h_obj = Ok (0, h1) /\ Keys 0 h1 = Ok (ks, h1) /\ NoDup ks /\
     forall k, k ∈ ks <-> k <> "b" /\ is_Some (map_of h_obj (Some 0) !! k)).
Proof.
  apply (Keys_after_Set_Remove h_obj 0 (mkGoJson None "" 0 (VMap RawMap (Some 0))) 0
           "b" (VInt KInt 2) (VInt KInt 2)); try reflexivity.
  cbn. lia.
Defined.

(** X7 ([Get], [Set]): [Get] hands out the map object itself, not a
    copy.  When the map of [j] holds another map under [k], a [Set]
    through the child [j.Get(k)] is seen by every later navigation from
    [j]: [j.Get(k).Get(k2).Value()] is the value set. *)
Theorem Set_through_child h j n t l k t' l' k2 x v :
  nodes h !! j = Some n -> data n = VMap t (Some l) ->
  map_of h (Some l) !! k = Some (VMap t' (Some l')) ->
  l' < length (maps h) -> l' <> l ->
  unwrapped h x = Some v ->
  exists h',
    (c ← Get j k; Set_ c (VString k2) x;;
     c2 ← Get j k; c3 ← Get c2 k2; Value c3) h = Ok (v, h').
Proof.
  intros Hj Hd Hk Hl' Hne Hx.
  set (c := mkGoJson (Some j) k 0 (VMap t' (Some l'))).
  assert (Hg : Get j k h = Ok (length (nodes h), child_of h c)).
  { erewrite Get_Ok by done. rewrite Hd. cbn [getMap fst]. unfold map_index.
    by rewrite Hk. }
  set (h1 := child_of h c).
  set (h2 := mkHeap (nodes h1) (<[l' := <[k2 := v]> (map_of h1 (Some l'))]> (maps h1))
               (arrays h1)).
  assert (Hs : Set_ (length (nodes h)) (VString k2) x h1 = Ok (length (nodes h), h2)).
  { eapply Set_string_map; [apply child_lookup | done | by apply unwrapped_child]. }
  assert (Hj2 : nodes h2 !! j = Some n).
  { cbn. by apply lookup_app_l_Some. }
  assert (Hg2 : Get j k h2 = Ok (length (nodes h2), child_of h2 c)).
  { erewrite Get_Ok by done. rewrite Hd. cbn [getMap fst]. unfold map_index.
    subst h2. rewrite map_of_update by done. rewrite decide_False by done.
    change (map_of h1 (Some l)) with (map_of h (Some l)). by rewrite Hk. }
  set (h3 := child_of h2 c).
  assert (Hg3 : Get (length (nodes h2)) k2 h3
                = Ok (length (nodes h3), child_of h3 (mkGoJson (Some (length (nodes h2))) k2 0 v))).
  { erewrite Get_Ok by apply child_lookup. cbn [data c getMap fst]. unfold map_index.
    change (map_of h3 (Some l')) with (map_of h2 (Some l')).
    subst h2. rewrite map_of_update by done. rewrite decide_True by done.
    by rewrite lookup_insert_eq. }
  eexists. run. erewrite Value_Ok by apply child_lookup. reflexivity.
Qed.

Lemma Set_through_child_witness :
  exists h',
    (c ← Get 0 "a"; Set_ c (VString "b") (VInt KInt 7);;
     c2 ← Get 0 "a"; c3 ← Get c2 "b"; Value c3)
      (mkHeap [mkGoJson None "" 0 (VMap RawMap (Some 0))]
              [{[ "a" := VMap RawMap (Some 1) ]}; ∅] [])
    = Ok (VInt KInt 7, h').
Proof.
  apply (Set_through_child
           (mkHeap [mkGoJson None "" 0 (VMap RawMap (Some 0))]
                   [{[ "a" := VMap RawMap (Some 1) ]}; ∅] [])
           0 (mkGoJson None "" 0 (VMap RawMap (Some 0))) RawMap 0 "a" RawMap 1 "b"
           (VInt KInt 7) (VInt KInt 7)); try reflexivity.
  - cbn. lia.
  - lia.
Defined.

(** ** Sequences: [Set], [Index], [Insert], [Append] *)

Lemma slice_elems_write1 h a off len cap i v :
  slice_ok h a off len cap -> i < len ->
  slice_elems (mkHeap (nodes h) (maps h)
                 (<[a := list_inserts (off + i) [v] (array_of h a)]> (arrays h))) a off len
    = <[i := v]> (slice_elems h a off len).
Proof.
  intros [Hlc Hcap] Hi. unfold slice_elems. rewrite array_of_write, decide_True by done.
  cbn [list_inserts]. rewrite drop_insert_ge by lia.
  rewrite take_insert_lt by lia. f_equal. lia.
Qed.

(** X8 ([Set], [Index], [Len]): on a handle wrapping a sequence,
    [Set(idx, x)] with an index within the length overwrites that one
    element: the length stays what it was, [Index(idx)] then yields the
    value of [x], and [Index(idx')] for any other index within the length
    yields the element that was there. *)
Theorem Set_then_Index h j n t a off len cap idx x v idx' :
  nodes h !! j = Some n -> data n = VSlice t a off len cap ->
  slice_ok h a off len cap -> unwrapped h x = Some v ->
  in_range idx len = true -> in_range idx' len = true ->
  exists h1 c h2,
    Set_ j (VInt KInt idx) x h = Ok (j, h1) /\
    Len j h1 = Ok (len, h1) /\
    slice_elems h1 a off len = <[Z.to_nat idx := v]> (slice_elems h a off len) /\
    Index j idx' h1 = Ok (c, h2) /\
    node_data h2 c
      = Some (if decide (idx' = idx) then v
              else default VNil (slice_elems h a off len !! Z.to_nat idx')).
Proof.
  intros Hj Hd Hok Hx Hr Hr'.
  pose proof (in_range_lt _ _ Hr) as Hi. pose proof (in_range_lt _ _ Hr') as Hi'.
  set (h1 := mkHeap (nodes h) (maps h)
               (<[a := list_inserts (off + Z.to_nat idx) [v] (array_of h a)]> (arrays h))).
  assert (Hel : slice_elems h1 a off len = <[Z.to_nat idx := v]> (slice_elems h a off len))
    by (by eapply slice_elems_write1).
  exists h1. eexists _, _. split; [by eapply Set_int_slice |].
  split; [unfold Len; run; by rewrite Hd |].
  split; [exact Hel |].
  split; [by eapply (Index_in_range h1) |].
  rewrite node_data_child. cbn [data]. f_equal.
  pose proof (slice_elems_lookup h1 a off len (Z.to_nat idx')) as E.
  rewrite decide_True in E by done. rewrite <- E, Hel.
  assert (Hlen : length (slice_elems h a off len) = len)
    by (by eapply slice_elems_length).
  destruct (decide (idx' = idx)) as [-> | Hne].
  - by rewrite list_lookup_insert_eq by lia.
  - rewrite list_lookup_insert_ne; [done |].
    unfold in_range in Hr, Hr'. intros Heq. apply Hne. lia.
Qed.

Lemma Set_then_Index_witness :
  exists h1 c h2,
    Set_ 1 (VInt KInt 1) (VInt KInt 9) h_doc = Ok (1, h1) /\
    Len 1 h1 = Ok (3, h1) /\
    slice_elems h1 0 0 3 = <[Z.to_nat 1 := VInt KInt 9]> (slice_elems h_doc 0 0 3) /\
    Index 1 2 h1 = Ok (c, h2) /\
    node_data h2 c
      = Some (if decide (2 = 1)%Z then VInt KInt 9
              else default VNil (slice_elems h_doc 0 0 3 !! Z.to_nat 2)).
Proof.
  apply (Set_then_Index h_doc 1 doc_child RawSlice 0 0 3 3 1 (VInt KInt 9) (VInt KInt 9) 2);
    try reflexivity.
  split; cbn; lia.
Defined.

(** X9 ([Set], [setSlice]): [Set] never grows a sequence.  With an [int]
    key that is negative or not below the length (the length itself
    included) it panics with an index-out-of-range fault. *)
Theorem Set_index_out_of_range_panics h j n t a off len cap idx x v :
  nodes h !! j = Some n -> data n = VSlice t a off len cap ->
  unwrapped h x = Some v ->
  (idx < 0 \/ Z.of_nat len <= idx)%Z ->
  Set_ j (VInt KInt idx) x h = Panic IndexOutOfRange.
Proof.
  intros Hj Hd Hx Hr. unfold Set_. run. rewrite Hd. unfold setSlice. run.
  unfold slice_assign.
  replace (in_range idx len) with false; [reflexivity |].
  unfold in_range. symmetry. apply andb_false_iff. destruct Hr; [left | right]; lia.
Qed.

Lemma Set_index_out_of_range_panics_witness :
  Set_ 1 (VInt KInt 3) (VInt KInt 9) h_doc = Panic IndexOutOfRange.
Proof.
  apply (Set_index_out_of_range_panics h_doc 1 doc_child RawSlice 0 0 3 3 3
           (VInt KInt 9) (VInt KInt 9)); try reflexivity.
  right. cbn. lia.
Defined.

(** The write-back into the parent leaves alone the handle's own array
    and every array allocated by the operation. *)
Lemma write_back_own h h1 j n d a lo hi b :
  nodes h !! j = Some n -> linked h j n -> own_array h n a ->
  modifies h h1 a lo hi ->
  b = a \/ length (arrays h) <= b ->
  array_of (write_back (set_data h1 j n d)
              (mkGoJson (prev n) (prevKey n) (prevIndex n) d)) b
    = array_of h1 b.
Proof.
  intros Hj Hl Hown Hmod Hb.
  rewrite write_back_array; [done |]. cbn [prev].
  unfold linked, own_array in *. destruct (prev n) as [p |]; [| done].
  destruct Hl as (Hne & pn & Hpn & Hpok).
  unfold node_data in *. rewrite set_data_lookup_ne by done.
  destruct Hmod as (Hn1 & _). rewrite Hn1, Hpn in *. cbn in *.
  destruct (data pn) as [| | | | | | | | | [] pa poff plen pcap |]; try done.
  destruct Hpok as [Hr Hpok]. apply in_range_lt in Hr.
  assert (pa < length (arrays h)).
  { eapply slice_ok_allocated; [exact Hpok |]. destruct Hpok. lia. }
  destruct Hb as [-> | Hb]; [done | lia].
Qed.

Lemma write_back_set_nodes h1 j n d c q :
  q <> j -> nodes (write_back (set_data h1 j n d) c) !! q = nodes h1 !! q.
Proof. intros Hq. by rewrite write_back_nodes, set_data_lookup_ne. Qed.

Section SequenceProps.

Variable growcap : nat -> nat -> nat.

(** X10 ([Insert], [insertSlice], [Len]): on a handle wrapping a sequence
    of length [len], [Insert(idx, x)] with [0 <= idx <= len] leaves the
    handle wrapping a sequence of length [len + 1]: the elements before
    position [idx], the value of [x] (a handle argument is unwrapped
    once), then the elements from position [idx] on.  With [idx = len] it
    is an append. *)
Theorem Insert_elements h j n t a off len cap idx x v :
  nodes h !! j = Some n -> data n = VSlice t a off len cap ->
  slice_ok h a off len cap -> unwrapped h x = Some v ->
  (0 <= idx <= Z.of_nat len)%Z ->
  linked h j n -> own_array h n a ->
  exists h' a' off' cap',
    Insert growcap j idx x h = Ok (j, h') /\
    node_data h' j = Some (VSlice t a' off' (S len) cap') /\
    slice_elems h' a' off' (S len)
      = take (Z.to_nat idx) (slice_elems h a off len) ++ [v]
        ++ drop (Z.to_nat idx) (slice_elems h a off len) /\
    Len j h' = Ok (S len, h') /\
    (idx = Z.of_nat len ->
     slice_elems h' a' off' (S len) = slice_elems h a off len ++ [v]).
Proof.
  intros Hj Hd Hok Hx Hidx Hl Hown.
  destruct (Insert_result growcap h j n t a off len cap idx x v Hj Hd Hok Hx Hidx Hl)
    as (a' & off' & cap' & h1 & E & Hok1 & Hel & Hmod & Hw).
  cbn zeta in E. cbn [data] in E.
  set (d := VSlice t a' off' (S len) cap') in *.
  set (c := mkGoJson (prev n) (prevKey n) (prevIndex n) d) in *.
  assert (Hj1 : nodes h1 !! j = Some n) by (destruct Hmod as [-> _]; done).
  assert (Hjc : nodes (write_back (set_data h1 j n d) c) !! j = Some c)
    by (by apply node_data_write_back_set).
  assert (Hels : slice_elems (write_back (set_data h1 j n d) c) a' off' (S len)
                 = take (Z.to_nat idx) (slice_elems h a off len) ++ [v]
                   ++ drop (Z.to_nat idx) (slice_elems h a off len)).
  { rewrite <- Hel. apply slice_elems_ext. intros k _.
    unfold c. rewrite (write_back_own h h1 j n d a _ _ a' Hj Hl Hown Hmod); [done |].
    destruct Hw as [(-> & _) | Hw]; [by left | by right]. }
  exists (write_back (set_data h1 j n d) c), a', off', cap'.
  split; [exact E |]. split; [unfold node_data; by rewrite Hjc |].
  split; [exact Hels |]. split.
  - unfold Len. run. reflexivity.
  - intros ->. rewrite Hels, Nat2Z.id.
    assert (Hlen : length (slice_elems h a off len) = len)
      by (by eapply slice_elems_length).
    rewrite take_ge, drop_ge by lia. by rewrite app_nil_r.
Qed.


(** X11 ([Insert], [insertSlice]): the edges of [Insert].  On a sequence
    of length [len] an index below [0] or above [len] panics with a
    slice-bounds fault (the slicing [v[index:]] is unguarded); on a handle
    that wraps anything but a sequence [Insert] changes nothing and
    returns the receiver. *)
Theorem Insert_edges h j n idx x v :
  nodes h !! j = Some n -> unwrapped h x = Some v ->
  match data n with
  | VSlice _ _ _ len _ =>
      (idx < 0 \/ Z.of_nat len < idx)%Z ->
      Insert growcap j idx x h = Panic SliceBoundsOutOfRange
  | _ => Insert growcap j idx x h = Ok (j, h)
  end.
Proof.
  intros Hj Hx. unfold Insert.
  destruct (data n) as [| | | | | | | | | t a off len cap |] eqn:Hd;
    try (run; rewrite Hd; unfold insertSlice; by run).
  intros Hr. run. rewrite Hd. unfold insertSlice. run.
  replace ((0 <=? idx)%Z && (idx <=? Z.of_nat len)%Z) with false; [reflexivity |].
  symmetry. apply andb_false_iff. destruct Hr; [left | right]; lia.
Qed.

(** X12 ([Append], [appendSlice], [maintainParent]): [Append] through one
    handle changes no other handle, and the first [len] cells of the
    sequence it started from are not written.  So a second handle on the
    same sequence keeps its length and its elements: it does not see the
    appended element. *)
Theorem Append_keeps_old_view h j n t a off len cap x v1 v2 :
  nodes h !! j = Some n -> data n = VSlice t a off len cap ->
  slice_ok h a off len cap ->
  unwrapped h x = Some v1 -> unwrapped h v1 = Some v2 ->
  linked h j n -> own_array h n a ->
  exists h',
    Append growcap j x h = Ok (j, h') /\
    length (nodes h') = length (nodes h) /\
    (forall q, q <> j -> nodes h' !! q = nodes h !! q) /\
    slice_elems h' a off len = slice_elems h a off len /\
    forall q qn, q <> j -> nodes h !! q = Some qn -> data qn = data n ->
      Len q h' = Ok (len, h').
Proof.
  intros Hj Hd Hok Hx1 Hx2 Hl Hown.
  destruct (Append_result growcap h j n t a off len cap x v1 v2 Hj Hd Hok Hx1 Hx2 Hl)
    as (a' & off' & cap' & h1 & E & Hok1 & Hel & Hmod & Hw).
  cbn zeta in E. cbn [data] in E.
  set (d := VSlice t a' off' (S len) cap') in *.
  set (c := mkGoJson (prev n) (prevKey n) (prevIndex n) d) in *.
  assert (Hn1 : nodes h1 = nodes h) by (by destruct Hmod as [-> _]).
  assert (Hq : forall q, q <> j ->
            nodes (write_back (set_data h1 j n d) c) !! q = nodes h !! q).
  { intros q Hne. by rewrite write_back_set_nodes, Hn1. }
  exists (write_back (set_data h1 j n d) c).
  split; [exact E |]. split; [| split; [exact Hq | split]].
  - rewrite write_back_nodes. cbn. by rewrite length_insert, Hn1.
  - transitivity (slice_elems h1 a off len).
    + apply slice_elems_ext. intros k _. unfold c.
      rewrite (write_back_own h h1 j n d a _ _ a Hj Hl Hown Hmod); [done | by left].
    + eapply modifies_slice_elems; [exact Hmod | exact Hok | right; left; lia].
  - intros q qn Hne Hqn Hdq. unfold Len.
    erewrite bind_Ok by (apply read_node_Ok; rewrite Hq by done; exact Hqn).
    by rewrite Hdq, Hd.
Qed.

(** X13 ([Insert], [insertSlice]): [insertSlice] builds its result by
    appending to the prefix [v[0:index]], which writes into the array the
    sequence started from.  After [Insert(idx, x)] with [idx] below the
    length, the old cell at [idx] holds the value of [x], also when the
    result moved to a fresh array; the cells before it are as they were.
    So a second handle on the same sequence keeps its length but now
    shows the inserted value in place of its element [idx]. *)
Theorem Insert_overwrites_old_view h j n t a off len cap idx x v :
  nodes h !! j = Some n -> data n = VSlice t a off len cap ->
  slice_ok h a off len cap -> unwrapped h x = Some v ->
  (0 <= idx < Z.of_nat len)%Z ->
  linked h j n -> own_array h n a ->
  exists h',
    Insert growcap j idx x h = Ok (j, h') /\
    (forall q, q <> j -> nodes h' !! q = nodes h !! q) /\
    slice_elems h' a off len !! Z.to_nat idx = Some v /\
    take (Z.to_nat idx) (slice_elems h' a off len)
      = take (Z.to_nat idx) (slice_elems h a off len).
Proof.
  intros Hj Hd Hok Hx Hidx Hl Hown.
  destruct (insertSlice_spec growcap t a off len cap idx x v h Hok Hx ltac:(lia))
    as (a' & off' & cap' & h1 & E & _ & _ & Hmod & _).
  pose proof (insertSlice_old_cell growcap t a off len cap idx x v h _ _ Hok Hx Hidx E)
    as Hcell.
  set (d := VSlice t a' off' (S len) cap') in *.
  set (c := mkGoJson (prev n) (prevKey n) (prevIndex n) d).
  assert (Hn1 : nodes h1 = nodes h) by (by destruct Hmod as [-> _]).
  assert (Hj1 : nodes h1 !! j = Some n) by (by rewrite Hn1).
  exists (write_back (set_data h1 j n d) c). split.
  { unfold Insert. run. rewrite Hd. run.
    erewrite bind_Ok; [reflexivity |].
    apply maintainParent_linked.
    - by apply set_data_lookup.
    - by apply (linked_set_data h h1 j n _ a (off + Z.to_nat idx) (off + len + 1)). }
  assert (Harr : array_of (write_back (set_data h1 j n d) c) a = array_of h1 a).
  { unfold c. rewrite (write_back_own h h1 j n d a _ _ a Hj Hl Hown Hmod); [done | by left]. }
  split; [| split].
  - intros q Hne. by rewrite write_back_set_nodes, Hn1.
  - rewrite slice_elems_lookup, decide_True by lia. by rewrite Harr.
  - rewrite <- !(proj1 (slice_elems_take_drop _ a off len (Z.to_nat idx) ltac:(lia))).
    transitivity (slice_elems h1 a off (Z.to_nat idx)).
    + apply slice_elems_ext. intros k _. by rewrite Harr.
    + destruct Hok as [Hlc Hcap].
      eapply (modifies_slice_elems h h1 a _ _ a off (Z.to_nat idx) cap);
        [exact Hmod | split; [lia | done] | right; left; lia].
Qed.

End SequenceProps.

Lemma Insert_elements_witness :
  exists h' a' off' cap',
    Insert double_cap 1 1 (VInt KInt 4) h_doc = Ok (1, h') /\
    node_data h' 1 = Some (VSlice RawSlice a' off' 4 cap') /\
    slice_elems h' a' off' 4
      = take (Z.to_nat 1) (slice_elems h_doc 0 0 3) ++ [VInt KInt 4]
        ++ drop (Z.to_nat 1) (slice_elems h_doc 0 0 3) /\
    Len 1 h' = Ok (4, h') /\
    (1%Z = Z.of_nat 3 ->
     slice_elems h' a' off' 4 = slice_elems h_doc 0 0 3 ++ [VInt KInt 4]).
Proof.
  apply (Insert_elements double_cap h_doc 1 doc_child RawSlice 0 0 3 3 1 (VInt KInt 4) (VInt KInt 4));
    try reflexivity.
  - split; cbn; lia.
  - lia.
  - split; [lia |]. eexists. split; [reflexivity |]. exists 0. split; [reflexivity | cbn; lia].
Defined.

Lemma Insert_edges_witness :
  Insert double_cap 1 4 (VInt KInt 4) h_doc = Panic SliceBoundsOutOfRange /\
  Insert double_cap 0 0 (VInt KInt 4) h_doc = Ok (0, h_doc).
Proof.
  split.
  - apply (Insert_edges double_cap h_doc 1 doc_child 4 (VInt KInt 4) (VInt KInt 4));
      try reflexivity.
    right. cbn. lia.
  - by apply (Insert_edges double_cap h_doc 0 (mkGoJson None "" 0 (VMap RawMap (Some 0)))
                0 (VInt KInt 4) (VInt KInt 4)).
Defined.

Lemma Append_keeps_old_view_witness :
  exists h',
    Append double_cap 0 (VInt KInt 4) h_shared = Ok (0, h') /\
    length (nodes h') = length (nodes h_shared) /\
    (forall q, q <> 0 -> nodes h' !! q = nodes h_shared !! q) /\
    slice_elems h' 0 0 3 = slice_elems h_shared 0 0 3 /\
    forall q qn, q <> 0 -> nodes h_shared !! q = Some qn ->
      data qn = data (mkGoJson None "" 0 (VSlice RawSlice 0 0 3 4)) ->
      Len q h' = Ok (3, h').
Proof.
  apply (Append_keeps_old_view double_cap h_shared 0
           (mkGoJson None "" 0 (VSlice RawSlice 0 0 3 4)) RawSlice 0 0 3 4
           (VInt KInt 4) (VInt KInt 4) (VInt KInt 4)); try reflexivity.
  split; cbn; lia.
Defined.

Lemma Insert_overwrites_old_view_witness :
  exists h',
    Insert double_cap 0 1 (VInt KInt 4) h_shared = Ok (0, h') /\
    (forall q, q <> 0 -> nodes h' !! q = nodes h_shared !! q) /\
    slice_elems h' 0 0 3 !! Z.to_nat 1 = Some (VInt KInt 4) /\
    take (Z.to_nat 1) (slice_elems h' 0 0 3)
      = take (Z.to_nat 1) (slice_elems h_shared 0 0 3).
Proof.
  apply (Insert_overwrites_old_view double_cap h_shared 0
           (mkGoJson None "" 0 (VSlice RawSlice 0 0 3 4)) RawSlice 0 0 3 4
           1 (VInt KInt 4) (VInt KInt 4)); try reflexivity.
  - split; cbn; lia.
  - lia.
Defined.

(** ** Navigation *)

Lemma lookup_path_maps h h' v keys :
  maps h' = maps h -> lookup_path h' v keys = lookup_path h v keys.
Proof.
  intros Hm. revert v. induction keys as [| k keys IH]; intros v; [done |].
  cbn [lookup_path]. rewrite IH. f_equal.
  destruct v; try done. cbn. unfold map_index, map_of. by rewrite Hm.
Qed.

Lemma lookup_path_nil h keys : lookup_path h VNil keys = VNil.
Proof. induction keys; [done | done]. Qed.

Lemma lookup_path_not_map h v keys :
  keys <> [] -> (forall t m, v <> VMap t m) -> lookup_path h v keys = VNil.
Proof.
  intros Hk Hv. destruct keys as [| k keys]; [done |]. cbn [lookup_path].
  destruct v; try apply lookup_path_nil. by destruct (Hv t m).
Qed.

(** X14 ([Get], [getMap]): navigation by key never fails and never
    writes.  [Get] along any path of keys, present or not, returns a
    handle; it wraps the value found under the path, and nil from the
    first point on where a key is absent or the value reached is not a
    map.  Only handles are allocated: maps, arrays and the handles that
    existed are as they were. *)
Theorem GetPath_total keys h j n :
  nodes h !! j = Some n ->
  exists c h',
    GetPath j keys h = Ok (c, h') /\
    node_data h' c = Some (lookup_path h (data n) keys) /\
    maps h' = maps h /\ arrays h' = arrays h /\
    take (length (nodes h)) (nodes h') = nodes h /\
    (keys <> [] -> (forall t m, data n <> VMap t m) -> IsNil c h' = Ok (true, h')).
Proof.
  intros Hj.
  assert (G : exists c h',
    GetPath j keys h = Ok (c, h') /\
    node_data h' c = Some (lookup_path h (data n) keys) /\
    maps h' = maps h /\ arrays h' = arrays h /\
    take (length (nodes h)) (nodes h') = nodes h).
  { revert h j n Hj. induction keys as [| k keys IH]; intros h j n Hj.
    - exists j, h. cbn. unfold node_data. rewrite Hj.
      by rewrite take_ge.
    - set (c := mkGoJson (Some j) k 0 (fst (getMap k (data n) h))).
      destruct (IH (child_of h c) (length (nodes h)) c (child_lookup h c))
        as (c' & h' & E & Hv & Hm & Ha & Hn).
      exists c', h'. split; [| split; [| split; [| split]]].
      + cbn [GetPath]. erewrite bind_Ok by (by eapply Get_Ok). exact E.
      + rewrite Hv. f_equal. cbn [lookup_path data c]. by apply lookup_path_maps.
      + by rewrite Hm.
      + by rewrite Ha.
      + cbn in Hn. rewrite length_app in Hn. cbn in Hn.
        apply (f_equal (take (length (nodes h)))) in Hn.
        rewrite take_take, take_app_length in Hn.
        by replace (length (nodes h) `min` (length (nodes h) + 1))
          with (length (nodes h)) in Hn by lia. }
  destruct G as (c & h' & E & Hv & Hm & Ha & Hn).
  exists c, h'. repeat (split; [done |]).
  intros Hk Hnm. unfold node_data in Hv.
  destruct (nodes h' !! c) as [cn |] eqn:Hc; [| done].
  erewrite IsNil_Ok by done. injection Hv as ->.
  by rewrite lookup_path_not_map.
Qed.

Lemma GetPath_total_witness :
  exists c h',
    GetPath 0 ["a"; "b"; "c"] h_obj = Ok (c, h') /\
    node_data h' c = Some (lookup_path h_obj (VMap RawMap (Some 0)) ["a"; "b"; "c"]) /\
    maps h' = maps h_obj /\ arrays h' = arrays h_obj /\
    take (length (nodes h_obj)) (nodes h') = nodes h_obj /\
    (["a"; "b"; "c"] <> [] -> (forall t m, VMap RawMap (Some 0) <> VMap t m) ->
     IsNil c h' = Ok (true, h')).
Proof.
  by apply (GetPath_total ["a"; "b"; "c"] h_obj 0 (mkGoJson None "" 0 (VMap RawMap (Some 0)))).
Defined.

(** ** Coercion *)

Section IntegerProps.

Variable ParseFloat : string -> spec_float * option numerr.

(** X15 ([ToInt], [ToFloat64]): for a value of a Go integer type that
    lies within that type and does not exceed the largest [int], [ToInt]
    returns the value itself without error, and for every integer type
    but [int32] [ToFloat64] returns the nearest double; a [uint64] above
    the largest [int] is reported as an overflow by both. *)
Theorem integer_coercions k n :
  in_kind k n ->
  ((n <= MaxInt64)%Z ->
   ToInt (VInt k n) = (n, None) /\
   (k <> KInt32 -> ToFloat64 ParseFloat (VInt k n) = (float64_of_int n, None))) /\
  (k = KUint64 -> (MaxInt64 < n)%Z ->
   ToInt (VInt k n) = (0%Z, Some (Overflowed (VInt k n))) /\
   snd (ToFloat64 ParseFloat (VInt k n)) = Some (Overflowed (VInt k n))).
Proof.
  intros Hk. split.
  - intros Hn. split; [by apply ToInt_width |].
    intros Hne. by apply ToFloat64_width.
  - intros -> Hn. split; [by apply ToInt_uint64_overflow |].
    by apply ToFloat64_uint64_overflow.
Qed.

End IntegerProps.

Lemma integer_coercions_witness :
  (ToInt (VInt KUint8 200) = (200%Z, None) /\
   ToFloat64 (fun _ => (S754_zero false, None)) (VInt KUint8 200)
     = (float64_of_int 200, None)) /\
  (ToInt (VInt KUint64 (2 ^ 63)) = (0%Z, Some (Overflowed (VInt KUint64 (2 ^ 63)))) /\
   snd (ToFloat64 (fun _ => (S754_zero false, None)) (VInt KUint64 (2 ^ 63)))
     = Some (Overflowed (VInt KUint64 (2 ^ 63)))).
Proof.
  split.
  - destruct (integer_coercions (fun _ => (S754_zero false, None)) KUint8 200) as [H _].
    { unfold in_kind. cbn. lia. }
    destruct H as [H1 H2]; [unfold MaxInt64; lia |]. split; [exact H1 | by apply H2].
  - destruct (integer_coercions (fun _ => (S754_zero false, None)) KUint64 (2 ^ 63))
      as [_ H].
    { unfold in_kind. cbn. unfold maxUint64. lia. }
    apply H; [done | unfold MaxInt64; lia].
Defined.

Lemma parse_digits_dot s : forall n,
  Contains s "." = true ->
  parse_digits s n = (0%Z, Some ErrSyntax) \/ parse_digits s n = (maxUint64, Some ErrRange).
Proof.
  induction s as [| c s IH]; intros n Hc; [done |].
  cbn [parse_digits]. destruct (is_digit c) eqn:Hd; [| by left].
  destruct (maxUint64 / 10 + 1 <=? n)%Z; [by right |].
  destruct (maxUint64 <? n * 10 + digit_val c)%Z; [by right |].
  apply IH. cbn [Contains] in Hc. apply orb_true_iff in Hc as [Hc | Hc]; [| done].
  apply Ascii.eqb_eq in Hc. by subst c.
Qed.

(** X16 ([ToInt], json.Number case): a decoded JSON number is kept as
    its text, and [ToInt] parses that text as a whole with [ParseInt].
    Unlike a string value, which is cut at the first dot, a number whose
    text has a dot is an error; a number written with digits only that
    fits in [int] is returned as it is. *)
Theorem ToInt_number s :
  (Contains s "." = true ->
   exists z e, ToInt (VNumber s) = (z, Some (NumError e))) /\
  (s <> EmptyString -> all_digits s = true -> (digits_value s 0 <= MaxInt64)%Z ->
   ToInt (VNumber s) = (digits_value s 0, None)).
Proof.
  split.
  - intros Hc. cbn [ToInt]. unfold ParseInt.
    destruct s as [| c s']; [done |].
    set (body := if Ascii.eqb c "+" || Ascii.eqb c "-" then s' else String c s').
    assert (Hb : Contains body "." = true).
    { subst body. destruct (Ascii.eqb c "+" || Ascii.eqb c "-") eqn:Hs; [| done].
      cbn [Contains] in Hc. apply orb_true_iff in Hc as [Hc | Hc]; [| done].
      apply Ascii.eqb_eq in Hc. by subst c. }
    assert (Hu : ParseUint body = (0%Z, Some ErrSyntax)
                 \/ ParseUint body = (maxUint64, Some ErrRange)).
    { unfold ParseUint. destruct body; [done |]. by apply parse_digits_dot. }
    destruct Hu as [-> | ->]; [by eexists _, _ |].
    destruct (Ascii.eqb c "-"); cbn; by eexists _, _.
  - intros Hne Hd Hfit. destruct s as [| c s']; [done |].
    cbn [ToInt]. pose proof (Atoi_digits c s' Hd Hfit) as E. unfold Atoi in E.
    rewrite E. cbn [fmap option_fmap option_map]. f_equal.
    apply to_int_id. split; [| done].
    pose proof (digits_value_ge (String c s') 0 Hd ltac:(lia)). unfold MinInt64. lia.
Qed.

(** ** Copies *)

Lemma unwrap_cases x h :
  (exists v, unwrap x h = Ok (v, h)) \/ unwrap x h = Panic InvalidPointer.
Proof.
  destruct x; try (left; by eexists).
  cbn. unfold Value, read_node, mbind, M_bind.
  destruct (nodes h !! p); [left; by eexists | by right].
Qed.

(** What a successful [Set] can have written: entries of the map object
    the receiver wraps, or cells of the array its slice lives in. *)
Lemma Set_writes h j n key x r h2 :
  nodes h !! j = Some n ->
  Set_ j key x h = Ok (r, h2) ->
  nodes h2 = nodes h /\
  (forall l, (forall t, data n <> VMap t (Some l)) -> maps h2 !! l = maps h !! l) /\
  (forall a, (forall t off len cap, data n <> VSlice t a off len cap \/ len = 0) ->
     array_of h2 a = array_of h a).
Proof.
  intros Hj. unfold Set_. run.
  destruct key as [| | | [] idx | | | s | | | |]; try (by intros [= _ <-]).
  - unfold setSlice. rewrite bind_assoc.
    destruct (unwrap_cases x h) as [[v Ex] | Ex];
      [| by rewrite (bind_Panic _ _ _ _ Ex)].
    rewrite (bind_Ok _ _ _ _ _ Ex). run.
    destruct (data n) as [| | | | | | | | | t a off len cap |] eqn:Hd;
      try (by intros [= _ <-]).
    unfold slice_assign. destruct (in_range idx len) eqn:Hr; [| done].
    cbn. intros [= _ <-]. split; [done |]. split; [done |].
    intros a' Ha'. pose proof (array_of_write h a (off + Z.to_nat idx) [v] a') as Hw.
    cbn [list_inserts] in Hw. rewrite Hw. case_decide as E; [| done]. subst a'.
    destruct (Ha' t off len cap) as [? | ->]; [done |].
    apply in_range_lt in Hr. lia.
  - unfold setMap. rewrite bind_assoc.
    destruct (unwrap_cases x h) as [[v Ex] | Ex];
      [| by rewrite (bind_Panic _ _ _ _ Ex)].
    rewrite (bind_Ok _ _ _ _ _ Ex). run.
    destruct (data n) as [| | | | | | | | t [l |] | |] eqn:Hd;
      try (by intros [= _ <-]); try done.
    cbn. intros [= _ <-]. split; [done |]. split; [| done].
    intros l' Hl'. cbn. apply list_lookup_insert_ne. intros ->. by destruct (Hl' t).
Qed.

(** A value reached inside a document is nil or again a document over
    the same map objects and arrays. *)
Lemma repr_in_child_frame (Pm Pa : nat -> Prop) h c v t :
  repr_in Pm Pa h v t -> repr_in Pm Pa (child_of h c) v t.
Proof.
  intros Hr. eapply (repr_in_frame _ _ _ _ h); [| | reflexivity | exact Hr]; by intros.
Qed.

Lemma repr_in_Get (Pm Pa : nat -> Prop) h v t key :
  repr_in Pm Pa h v t ->
  fst (getMap key v h) = VNil \/ exists t', repr_in Pm Pa h (fst (getMap key v h)) t'.
Proof.
  intros Hr. inversion Hr as [v0 Hsc | ty | ty l m fields Hl Hm Hnd Hdom Hf | ]; subst.
  - left. by destruct v.
  - left. cbn. unfold map_index. cbn. by rewrite lookup_empty.
  - cbn. unfold map_index, map_of. rewrite Hm. cbn.
    destruct (m !! key) as [v0 |] eqn:Hk; [| by left]. right. cbn.
    pose proof (Hdom key ltac:(by eexists)) as Hin.
    apply list_elem_of_fmap in Hin as ([k' t'] & -> & Hin).
    rewrite Forall_forall in Hf. destruct (Hf _ Hin) as (v1 & Hv1 & Hr1). cbn in *.
    exists t'. congruence.
  - by left.
Qed.

Lemma repr_in_Index (Pm Pa : nat -> Prop) h ty a off len cap t i :
  repr_in Pm Pa h (VSlice ty a off len cap) t -> i < len ->
  let v := default VNil (array_of h a !! (off + i)) in
  v = VNil \/ exists t', repr_in Pm Pa h v t'.
Proof.
  intros Hr Hi v. subst v.
  inversion Hr as [v0 Hsc | | | ty' a' off' len' cap' items Hlc Hpa Hf Hlen]; subst;
    [done |].
  pose proof (slice_elems_lookup h a off (length items) i) as El.
  rewrite decide_True in El by done. rewrite <- El.
  destruct (slice_elems h a off (length items) !! i) as [v |] eqn:Hv; [| by left].
  right. destruct (Forall2_lookup_l _ _ _ _ _ Hf Hv) as (t' & _ & Hr'). by exists t'.
Qed.

Lemma Navigate_inside (Pm Pa : nat -> Prop) path : forall h j n q h1,
  nodes h !! j = Some n ->
  data n = VNil \/ (exists t, repr_in Pm Pa h (data n) t) ->
  Navigate j path h = Ok (q, h1) ->
  maps h1 = maps h /\ arrays h1 = arrays h /\
  exists qn, nodes h1 !! q = Some qn /\
    (data qn = VNil \/ exists t, repr_in Pm Pa h1 (data qn) t).
Proof.
  induction path as [| [key | idx] path IH]; intros h j n q h1 Hj Hin E.
  - cbn in E. injection E as <- <-. split; [done |]. split; [done |]. by exists n.
  - cbn [Navigate] in E. erewrite bind_Ok in E by (by eapply Get_Ok).
    set (c := mkGoJson (Some j) key 0 (fst (getMap key (data n) h))) in E.
    destruct (IH (child_of h c) _ c q h1 (child_lookup h c)) as (Hm & Ha & Hq); [| exact E |].
    + cbn [data c]. destruct Hin as [-> | [t Hr]]; [by left |].
      destruct (repr_in_Get Pm Pa h (data n) t key Hr) as [-> | [t' Hr']]; [by left |].
      right. exists t'. by apply repr_in_child_frame.
    + done.
  - cbn [Navigate] in E.
    destruct (data n) as [| | | | | | | | | ty a off len cap |] eqn:Hd.
    10:{ destruct (in_range idx len) eqn:Hr.
         2:{ by rewrite (bind_Panic _ _ _ _
                           (Index_out_of_range h j n ty a off len cap idx Hj Hd Hr)) in E. }
         erewrite bind_Ok in E by (by eapply Index_in_range).
         set (c := mkGoJson (Some j) "" idx
                     (default VNil (array_of h a !! (off + Z.to_nat idx)))) in E.
         destruct (IH (child_of h c) _ c q h1 (child_lookup h c)) as (Hm & Ha & Hq);
           [| exact E | done].
         cbn [data c]. destruct Hin as [? | [t Hrep]]; [done |].
         destruct (repr_in_Index Pm Pa h ty a off len cap t (Z.to_nat idx) Hrep
                     (in_range_lt _ _ Hr)) as [-> | [t' Hr']]; [by left |].
         right. exists t'. by apply repr_in_child_frame. }
    all: erewrite bind_Ok in E by (eapply Index_non_slice; [exact Hj | by rewrite Hd]);
      destruct (IH (child_of h (mkGoJson (Some j) "" idx VNil)) _ _ q h1
                  (child_lookup h _)) as (Hm & Ha & Hq); [by left | exact E | done].
Qed.

(** A [Set] through a handle inside a document writes only to that
    document's own map objects and arrays. *)
Lemma Set_inside_frame (Pm Pa : nat -> Prop) h q qn key x r h2 :
  nodes h !! q = Some qn ->
  data qn = VNil \/ (exists t, repr_in Pm Pa h (data qn) t) ->
  Set_ q key x h = Ok (r, h2) ->
  (forall l, ~ Pm l -> maps h2 !! l = maps h !! l) /\
  (forall a, ~ Pa a -> array_of h2 a = array_of h a).
Proof.
  intros Hq Hin E. destruct (Set_writes _ _ _ _ _ _ _ Hq E) as (_ & Hm & Ha).
  split.
  - intros l Hl. apply Hm. intros ty Heq. destruct Hin as [Hn | [t Hr]]; [congruence |].
    rewrite Heq in Hr. inversion Hr; subst; done.
  - intros a Hna. apply Ha. intros ty off len cap.
    destruct (decide (len = 0)) as [-> | Hne]; [by right | left].
    intros Heq. destruct Hin as [Hn | [t Hr]]; [congruence |].
    rewrite Heq in Hr.
    inversion Hr as [? Hsc | | | ? ? ? ? ? ? Hlc Hpa]; subst; [done |].
    destruct Hpa as [Hpa _]; [lia | done].
Qed.

(** X17 ([Clone], [handlerVal], [handlerMap], [handlerSlice]): [Clone]
    of a handle wrapping a container (of any nesting depth) returns a
    fresh root handle on a copy that stands for the same document tree.
    The copy shares nothing with the original at any depth: every map
    object and array of the copy was allocated by [Clone], every one of
    the original existed before.  So the two are independent: a [Set]
    through any handle reached by navigating ([Get], [Index]) from the
    clone leaves the original standing for that tree, and a [Set]
    through any handle reached by navigating from the original leaves the
    clone standing for it. *)
Theorem Clone_independent growcap decode fuel h j n t :
  nodes h !! j = Some n -> is_container (data n) = true ->
  repr h (data n) t -> depth t <= fuel ->
  exists c h' v',
    Clone growcap decode fuel j h = Ok (c, h') /\
    nodes h' !! c = Some (mkGoJson None "" 0 v') /\
    nodes h' !! j = Some n /\
    repr_in (fun l => length (maps h) <= l) (fun a => length (arrays h) <= a) h' v' t /\
    repr_in (fun l => l < length (maps h)) (fun a => a < length (arrays h))
            h' (data n) t /\
    (forall path key x q h1 h2,
       Navigate c path h' = Ok (q, h1) -> Set_ q key x h1 = Ok (q, h2) ->
       repr h2 (data n) t) /\
    (forall path key x q h1 h2,
       Navigate j path h' = Ok (q, h1) -> Set_ q key x h1 = Ok (q, h2) ->
       repr h2 v' t).
Proof.
  intros Hj Hc Hr Hd.
  destruct (rebuild_container growcap decode false fuel h j n t Hj Hc Hr Hd)
    as (v' & h1 & (Hext & Hrv') & E).
  rewrite (cut_json_false (depth t) t (Nat.le_refl _)) in Hrv'.
  pose proof Hext as (Hn1 & Hml & Hm & Hal & Ha).
  set (h' := child_of h1 (mkGoJson None "" 0 v')) in *.
  assert (Hcn : nodes h' !! length (nodes h) = Some (mkGoJson None "" 0 v')).
  { rewrite <- Hn1. apply child_lookup. }
  assert (Hjn : nodes h' !! j = Some n).
  { cbn. rewrite Hn1. by apply lookup_app_l_Some. }
  assert (Hold : repr_in (fun l => l < length (maps h)) (fun a => a < length (arrays h))
                   h' (data n) t).
  { eapply (repr_in_frame _ _ _ _ h); [| | reflexivity |
      exact (repr_in_allocated _ _ h (depth t) t _ (Nat.le_refl _) Hr)].
    - intros l Hl. split; [done |]. cbn. by apply Hm.
    - intros a Hlt. split; [done |]. by apply (array_of_extends h h1). }
  assert (Hnew : repr_in (fun l => length (maps h) <= l) (fun a => length (arrays h) <= a)
                   h' v' t).
  { eapply (repr_in_frame _ _ _ _ h1); [| | reflexivity | exact Hrv'].
    - by intros l [? ?].
    - by intros a [? ?]. }
  exists (length (nodes h)), h', v'.
  split; [exact E |]. split; [exact Hcn |]. split; [exact Hjn |].
  split; [exact Hnew |]. split; [exact Hold |]. split.
  - intros path key x q h2 h3 En Es.
    destruct (Navigate_inside _ _ path h' _ _ q h2 Hcn (or_intror (ex_intro _ t Hnew)) En)
      as (Hm2 & Ha2 & qn & Hq & Hin).
    destruct (Set_inside_frame _ _ h2 q qn key x q h3 Hq Hin Es) as [Hfm Hfa].
    eapply (repr_in_frame _ _ _ _ h' h3); [| | reflexivity | exact Hold].
    + intros l Hl. cbn beta in Hl. split; [done |].
      rewrite Hfm by lia. by rewrite Hm2.
    + intros a Hl. cbn beta in Hl. split; [done |].
      rewrite Hfa by lia. unfold array_of. by rewrite Ha2.
  - intros path key x q h2 h3 En Es.
    destruct (Navigate_inside _ _ path h' _ _ q h2 Hjn (or_intror (ex_intro _ t Hold)) En)
      as (Hm2 & Ha2 & qn & Hq & Hin).
    destruct (Set_inside_frame _ _ h2 q qn key x q h3 Hq Hin Es) as [Hfm Hfa].
    eapply (repr_in_frame _ _ _ _ h' h3); [| | reflexivity | exact Hnew].
    + intros l Hl. cbn beta in Hl. split; [done |].
      rewrite Hfm by lia. by rewrite Hm2.
    + intros a Hl. cbn beta in Hl. split; [done |].
      rewrite Hfa by lia. unfold array_of. by rewrite Ha2.
Qed.

Lemma Clone_independent_witness :
  exists c h' v',
    Clone double_cap decode_literal 2 0 h_doc = Ok (c, h') /\
    nodes h' !! c = Some (mkGoJson None "" 0 v') /\
    nodes h' !! 0 = Some (mkGoJson None "" 0 (VMap RawMap (Some 0))) /\
    repr_in (fun l => length (maps h_doc) <= l) (fun a => length (arrays h_doc) <= a)
            h' v' t_doc /\
    repr_in (fun l => l < length (maps h_doc)) (fun a => a < length (arrays h_doc))
            h' (VMap RawMap (Some 0)) t_doc /\
    (forall path key x q h1 h2,
       Navigate c path h' = Ok (q, h1) -> Set_ q key x h1 = Ok (q, h2) ->
       repr h2 (VMap RawMap (Some 0)) t_doc) /\
    (forall path key x q h1 h2,
       Navigate 0 path h' = Ok (q, h1) -> Set_ q key x h1 = Ok (q, h2) ->
       repr h2 v' t_doc).
Proof.
  apply (Clone_independent double_cap decode_literal 2 h_doc 0
           (mkGoJson None "" 0 (VMap RawMap (Some 0))) t_doc); try reflexivity.
  exact h_doc_repr.
Defined.

Lemma length_substring n m s :
  n + m <= String.length s -> String.length (substring n m s) = m.
Proof.
  revert n m. induction s as [| c s IH]; intros [| n] [| m]; cbn; intros H;
    try done; try lia.
  - f_equal. apply (IH 0 m). lia.
  - apply (IH n 0). lia.
  - apply (IH n (S m)). lia.
Qed.

Lemma substring_app_prefix s1 s2 :
  substring 0 (String.length s1) (s1 ++ s2)%string = s1.
Proof. induction s1 as [| c s1 IH]; simpl; [by destruct s2 | by rewrite IH]. Qed.

Lemma string_length_app s1 s2 :
  String.length (s1 ++ s2)%string = String.length s1 + String.length s2.
Proof. induction s1 as [| c s1 IH]; simpl; [done | by rewrite IH]. Qed.

Lemma handlerString_cut js :
  String.length (handlerString js true) <= 126 /\
  handlerString (handlerString js true) true = handlerString js true.
Proof.
  destruct (handlerString_spec js) as (Hf & Hshort & Hlong).
  destruct (le_lt_dec (String.length js) 120) as [Hle | Hgt].
  - rewrite (Hshort Hle). split; [lia | by apply Hshort].
  - rewrite (Hlong Hgt).
    assert (Hl : String.length (substring 0 120 js) = 120)
      by (apply length_substring; lia).
    assert (Hlen : String.length (substring 0 120 js ++ "......")%string = 126)
      by (by rewrite string_length_app, Hl).
    split; [lia |].
    destruct (handlerString_spec (substring 0 120 js ++ "......")%string) as (_ & _ & Hl2).
    rewrite Hl2 by lia. f_equal. rewrite <- Hl at 1. apply substring_app_prefix.
Qed.

(** X18 ([handlerString]): with cutting on, the result is never longer
    than 126 bytes, a string of at most 120 bytes is returned as it is,
    and cutting what was cut changes nothing more; with cutting off the
    string is returned as it is. *)
Theorem handlerString_bounded js :
  String.length (handlerString js true) <= 126 /\
  (String.length js <= 120 -> handlerString js true = js) /\
  handlerString (handlerString js true) true = handlerString js true /\
  handlerString js false = js.
Proof.
  destruct (handlerString_spec js) as (Hf & Hshort & _).
  destruct (handlerString_cut js) as [Hlen Hidem].
  done.
Qed.

Lemma cut_json_idem c : forall n t, depth t <= n ->
  cut_json c (cut_json c t) = cut_json c t.
Proof.
  induction n as [| n IH]; intros [v | fields | items] Hd; cbn in Hd; try lia.
  - destruct v; try done. cbn. do 2 f_equal.
    destruct c; [apply handlerString_cut | done].
  - destruct v; try done. cbn. do 2 f_equal.
    destruct c; [apply handlerString_cut | done].
  - cbn. f_equal. rewrite <- list_fmap_compose.
    apply Forall_fmap_ext, Forall_forall. intros [k t] Hin. cbn. f_equal.
    apply IH. pose proof (depth_field k t fields Hin). cbn in *. lia.
  - cbn. f_equal. rewrite <- list_fmap_compose.
    apply Forall_fmap_ext, Forall_forall. intros t Hin. cbn.
    apply IH. pose proof (depth_item t items Hin). cbn in *. lia.
Qed.

Lemma depth_cut_json c : forall n t, depth t <= n -> depth (cut_json c t) = depth t.
Proof.
  induction n as [| n IH]; intros [v | fields | items] Hd; cbn in Hd; try lia;
    try (by destruct v).
  - cbn. f_equal. f_equal. change (map ?f ?l) with (f <$> l).
    rewrite <- list_fmap_compose.
    apply Forall_fmap_ext, Forall_forall. intros [k t] Hin. cbn.
    apply IH. pose proof (depth_field k t fields Hin). cbn in *. lia.
  - cbn. f_equal. f_equal. change (map ?f ?l) with (f <$> l).
    rewrite <- list_fmap_compose.
    apply Forall_fmap_ext, Forall_forall. intros t Hin. cbn.
    apply IH. pose proof (depth_item t items Hin). cbn in *. lia.
Qed.

Lemma repr_container h v t :
  repr h v t -> is_container v = true ->
  is_scalar v = false /\ forall c v' h', repr h' v' (cut_json c t) -> is_container v' = true.
Proof.
  intros Hr Hc. inversion Hr as [v0 Hsc | | |]; subst.
  - by destruct v.
  - split; [done |]. intros c v' h' Hr'. cbn in Hr'. by inversion Hr'.
  - split; [done |]. intros c v' h' Hr'. cbn in Hr'. by inversion Hr'.
  - split; [done |]. intros c v' h' Hr'. cbn in Hr'. by inversion Hr'.
Qed.

(** X19 ([ShortNiceJson], [handlerVal], [handlerString]):
    [ShortNiceJson] of a handle wrapping a container returns a fresh
    handle on a copy of the document in which every string longer than
    120 bytes is cut to its first 120 bytes followed by six dots and
    everything else is as it was; the original still stands for the
    uncut document; and [ShortNiceJson] of the result stands for the same
    cut document again. *)
Theorem ShortNiceJson_stable growcap decode fuel h j n t :
  nodes h !! j = Some n -> is_container (data n) = true ->
  repr h (data n) t -> depth t <= fuel ->
  exists c h' v',
    ShortNiceJson growcap decode fuel j h = Ok (c, h') /\
    node_data h' c = Some v' /\
    repr h' v' (cut_json true t) /\
    repr h' (data n) t /\
    exists c2 h2 v2,
      ShortNiceJson growcap decode fuel c h' = Ok (c2, h2) /\
      node_data h2 c2 = Some v2 /\
      repr h2 v2 (cut_json true t).
Proof.
  intros Hj Hc Hr Hd.
  destruct (rebuild_container growcap decode true fuel h j n t Hj Hc Hr Hd)
    as (v' & h1 & (Hext & Hrv') & E).
  pose proof Hext as (Hn1 & _).
  set (h' := child_of h1 (mkGoJson None "" 0 v')) in *.
  assert (Hcn : nodes h' !! length (nodes h) = Some (mkGoJson None "" 0 v')).
  { rewrite <- Hn1. apply child_lookup. }
  assert (Hv' : repr h' v' (cut_json true t)).
  { eapply (repr_in_frame _ _ _ _ h1); [| | reflexivity | exact Hrv']; by intros. }
  assert (Ho : repr h' (data n) t).
  { eapply (repr_in_frame _ _ _ _ h1); [| | reflexivity | exact (repr_extends _ _ _ _ Hr Hext)];
      by intros. }
  destruct (repr_container h (data n) t Hr Hc) as [_ Hcont].
  destruct (ShortNiceJson_container growcap decode fuel h' (length (nodes h))
              (mkGoJson None "" 0 v') (cut_json true t) Hcn)
    as (c2 & h2 & v2 & E2 & Hn2 & Hr2).
  { cbn [data]. by eapply Hcont. }
  { exact Hv'. }
  { by rewrite (depth_cut_json true (depth t) t). }
  rewrite (cut_json_idem true (depth t) t (Nat.le_refl _)) in Hr2.
  exists (length (nodes h)), h', v'. split; [exact E |].
  split; [unfold node_data; by rewrite Hcn |].
  split; [exact Hv' |]. split; [exact Ho |].
  by exists c2, h2, v2.
Qed.

(** The decoded document [{"s": <200 bytes>}]. *)
Lemma h_long_repr :
  repr (mkHeap [mkGoJson None "" 0 (VMap RawMap (Some 0))]
               [{[ "s" := VString long_string ]}] [])
       (VMap RawMap (Some 0)) (JObj [("s", JLeaf (VString long_string))]).
Proof.
  eapply (repr_obj _ _ _ _ _ _ _ I); [reflexivity | | |].
  - cbn. apply NoDup_singleton.
  - intros k [v Hk]. cbn. apply list_elem_of_singleton.
    apply lookup_singleton_Some in Hk. by destruct Hk.
  - constructor; [| constructor]. eexists. split; [reflexivity |].
    by apply repr_leaf.
Qed.

Lemma ShortNiceJson_stable_witness :
  exists c h' v',
    ShortNiceJson double_cap decode_literal 1 0
      (mkHeap [mkGoJson None "" 0 (VMap RawMap (Some 0))]
              [{[ "s" := VString long_string ]}] []) = Ok (c, h') /\
    node_data h' c = Some v' /\
    repr h' v' (cut_json true (JObj [("s", JLeaf (VString long_string))])) /\
    repr h' (VMap RawMap (Some 0)) (JObj [("s", JLeaf (VString long_string))]) /\
    exists c2 h2 v2,
      ShortNiceJson double_cap decode_literal 1 c h' = Ok (c2, h2) /\
      node_data h2 c2 = Some v2 /\
      repr h2 v2 (cut_json true (JObj [("s", JLeaf (VString long_string))])).
Proof.
  apply (ShortNiceJson_stable double_cap decode_literal 1
           (mkHeap [mkGoJson None "" 0 (VMap RawMap (Some 0))]
                   [{[ "s" := VString long_string ]}] [])
           0 (mkGoJson None "" 0 (VMap RawMap (Some 0)))
           (JObj [("s", JLeaf (VString long_string))])); try reflexivity.
  exact h_long_repr.
Defined.

(** ** Constructors *)

(** X20 ([NewErrJson], [NewJsonFromString], [Set]): given that the
    decoder builds the text [{}] as an empty plain map, [NewErrJson]
    returns a root handle on a map with exactly the two entries
    [err_msg], the message as a string, and [err], the code as an [int];
    [Keys] lists these two keys. *)
Theorem NewErrJson_fields decode errcode errmsg h l h1 :
  decode "{}" h = Some (VMap RawMap (Some l), h1) ->
  maps h1 !! l = Some ∅ ->
  exists r h',
    NewErrJson decode errcode errmsg h = Ok (r, h') /\
    nodes h' !! r = Some (mkGoJson None "" 0 (VMap RawMap (Some l))) /\
    map_of h' (Some l)
      = <["err" := VInt KInt errcode]> (<["err_msg" := VString errmsg]> ∅) /\
    (forall k, is_Some (map_of h' (Some l) !! k) <-> k = "err" \/ k = "err_msg") /\
    exists ks, Keys r h' = Ok (ks, h') /\ NoDup ks /\
      forall k, k ∈ ks <-> k = "err" \/ k = "err_msg".
Proof.
  intros Hdec Hl.
  pose proof (lookup_lt_Some _ _ _ Hl) as Hlt.
  set (root := mkGoJson None "" 0 (VMap RawMap (Some l))).
  set (h2 := child_of h1 root).
  assert (E0 : NewJsonFromString decode "{}" h = Ok (length (nodes h1), h2)).
  { unfold NewJsonFromString, decodeJson, mbind, M_bind. by rewrite Hdec. }
  assert (Hr : nodes h2 !! length (nodes h1) = Some root) by apply child_lookup.
  assert (Hm2 : map_of h2 (Some l) = ∅) by (unfold map_of; cbn; by rewrite Hl).
  pose proof (Set_string_map h2 _ root "err_msg" RawMap l (VString errmsg) (VString errmsg)
                Hr eq_refl eq_refl) as E1.
  rewrite Hm2 in E1.
  set (h3 := mkHeap (nodes h2) (<[l := <["err_msg" := VString errmsg]> ∅]> (maps h2))
               (arrays h2)) in E1.
  assert (Hm3 : map_of h3 (Some l) = <["err_msg" := VString errmsg]> ∅).
  { unfold h3. rewrite map_of_update by done. by rewrite decide_True. }
  pose proof (Set_string_map h3 _ root "err" RawMap l (VInt KInt errcode) (VInt KInt errcode)
                Hr eq_refl eq_refl) as E2.
  rewrite Hm3 in E2.
  set (h4 := mkHeap (nodes h3)
               (<[l := <["err" := VInt KInt errcode]> (<["err_msg" := VString errmsg]> ∅)]>
                  (maps h3)) (arrays h3)) in E2.
  assert (Hm4 : map_of h4 (Some l)
                = <["err" := VInt KInt errcode]> (<["err_msg" := VString errmsg]> ∅)).
  { unfold h4. rewrite map_of_update by (cbn; by rewrite length_insert).
    by rewrite decide_True. }
  assert (Hdom : forall k, is_Some (map_of h4 (Some l) !! k) <-> k = "err" \/ k = "err_msg").
  { intros k. rewrite Hm4, !lookup_insert_is_Some, lookup_empty, is_Some_alt.
    destruct (decide ("err" = k)), (decide ("err_msg" = k)); intuition congruence. }
  destruct (Keys_raw_map h4 (length (nodes h1)) root (Some l) Hr eq_refl)
    as (ks & Ek & Hnd & Hks).
  exists (length (nodes h1)), h4. split.
  { unfold NewErrJson. rewrite (bind_Ok _ _ _ _ _ E0).
    rewrite (bind_Ok _ _ _ _ _ E1). by rewrite (bind_Ok _ _ _ _ _ E2). }
  split; [exact Hr |]. split; [exact Hm4 |]. split; [exact Hdom |].
  exists ks. split; [exact Ek |]. split; [exact Hnd |].
  intros k. by rewrite Hks, Hdom.
Qed.

Lemma NewErrJson_fields_witness :
  exists r h',
    NewErrJson decode_object 404 "not found" (mkHeap [] [] []) = Ok (r, h') /\
    nodes h' !! r = Some (mkGoJson None "" 0 (VMap RawMap (Some 0))) /\
    map_of h' (Some 0)
      = <["err" := VInt KInt 404]> (<["err_msg" := VString "not found"]> ∅) /\
    (forall k, is_Some (map_of h' (Some 0) !! k) <-> k = "err" \/ k = "err_msg") /\
    exists ks, Keys r h' = Ok (ks, h') /\ NoDup ks /\
      forall k, k ∈ ks <-> k = "err" \/ k = "err_msg".
Proof.
  by apply (NewErrJson_fields decode_object 404 "not found" (mkHeap [] [] []) 0
              (mkHeap [] [∅] [])).
Defined.

(** X21 ([NewJson], [NewJsonFromString], [NewJsonFromBytes],
    [decodeJson]): the constructors never report a decoding error.  For
    a string or byte slice the decoder rejects, [NewJson] returns a fresh
    empty root handle and leaves the store as it was otherwise; on that
    handle [IsNil] is true, [Len] is 0, [Keys] is empty, and [Get] yields
    a nil child. *)
Theorem NewJson_rejected decode s d h :
  decode s h = None -> d = VString s \/ d = VBytes s ->
  exists c h',
    NewJson decode d h = Ok (c, h') /\
    h' = child_of h (mkGoJson None "" 0 VNil) /\ c = length (nodes h) /\
    IsNil c h' = Ok (true, h') /\ Len c h' = Ok (0, h') /\ Keys c h' = Ok ([], h') /\
    forall key, exists g h2, Get c key h' = Ok (g, h2) /\ IsNil g h2 = Ok (true, h2).
Proof.
  intros Hdec Hd.
  set (h' := child_of h (mkGoJson None "" 0 VNil)).
  assert (Hc : nodes h' !! length (nodes h) = Some (mkGoJson None "" 0 VNil))
    by apply child_lookup.
  exists (length (nodes h)), h'. split.
  { destruct Hd as [-> | ->]; cbn [NewJson];
      unfold NewJsonFromString, NewJsonFromBytes, decodeJson, mbind, M_bind;
      by rewrite Hdec. }
  split; [done |]. split; [done |].
  split; [by erewrite IsNil_Ok by done |].
  split; [unfold Len; by run |].
  split; [by eapply Keys_nil |].
  intros key. eexists _, _. split; [by eapply Get_Ok |].
  by erewrite IsNil_Ok by apply child_lookup.
Qed.

Lemma NewJson_rejected_witness :
  exists c h',
    NewJson decode_literal (VString "hello") h_nil = Ok (c, h') /\
    h' = child_of h_nil (mkGoJson None "" 0 VNil) /\ c = length (nodes h_nil) /\
    IsNil c h' = Ok (true, h') /\ Len c h' = Ok (0, h') /\ Keys c h' = Ok ([], h') /\
    forall key, exists g h2, Get c key h' = Ok (g, h2) /\ IsNil g h2 = Ok (true, h2).
Proof.
  apply (NewJson_rejected decode_literal "hello" (VString "hello") h_nil);
    [reflexivity | by left].
Defined.

(** ** Iteration: [RangeSlice], [RangeMap], [Array] *)

Lemma logged_Ok {K St : Type} (f : visitor K St) s log k v h s' ret h' :
  f s k v h = Ok ((s', ret), h') ->
  logged f (s, log) k v h = Ok (((s', log ++ [mkCall k v h ret]), ret), h').
Proof. intros E. unfold logged. cbn [fst snd]. by run. Qed.

Lemma until_false_cons answers : until_false answers -> until_false (true :: answers).
Proof.
  intros [m [-> | ->]]; exists (S m); [by left | by right].
Qed.

Lemma until_false_stop : until_false [false].
Proof. exists 0. by right. Qed.

Lemma until_false_nil : until_false [].
Proof. exists 0. by left. Qed.

Section RangeLoops.

Context {St : Type}.

(** The slice loop, call by call. *)
Lemma range_slice_logged (f : visitor Z St) a off :
  returns f ->
  forall n i s log h,
    exists s' calls h',
      range_slice a off i n (logged f) (s, log) h = Ok ((s', log ++ calls), h') /\
      range_slice a off i n f s h = Ok (s', h') /\
      call_key <$> calls = Z.of_nat <$> seq i (length calls) /\
      length calls <= n /\
      until_false (call_ans <$> calls) /\
      (last (call_ans <$> calls) <> Some false -> length calls = n) /\
      Forall (fun c => call_val c
                = default VNil (array_of (call_store c) a !! (off + Z.to_nat (call_key c))))
             calls /\
      (keeps_store f -> h' = h /\ Forall (fun c => call_store c = h) calls).
Proof.
  intros Hret. induction n as [| n IH]; intros i s log h.
  - exists s, [], h. cbn [range_slice]. rewrite app_nil_r.
    split_and!; try done. apply until_false_nil.
  - destruct (Hret s (Z.of_nat i) (default VNil (array_of h a !! (off + i))) h)
      as ([s1 ret] & h1 & E).
    set (c := mkCall (Z.of_nat i) (default VNil (array_of h a !! (off + i))) h ret).
    assert (Hc : call_val c
                 = default VNil (array_of (call_store c) a !! (off + Z.to_nat (call_key c))))
      by (cbn; by rewrite Nat2Z.id).
    destruct ret.
    + destruct (IH (S i) s1 (log ++ [c]) h1)
        as (s' & calls & h' & El & Ef & Hk & Hlen & Hu & Hall & Hv & Hkeep).
      exists s', (c :: calls), h'. split; [| split; [| split; [| split; [| split;
        [| split; [| split]]]]]].
      * cbn [range_slice]. run. erewrite bind_Ok by (by apply logged_Ok).
        cbn [negb]. rewrite <- app_assoc in El. exact El.
      * cbn [range_slice]. run. exact Ef.
      * cbn. by rewrite Hk.
      * cbn. lia.
      * by apply until_false_cons.
      * cbn [fmap list_fmap length]. intros Hl. f_equal. apply Hall.
        destruct calls as [| c' calls']; [done |]. exact Hl.
      * by constructor.
      * intros Hks. pose proof (Hks _ _ _ _ _ _ E) as ->.
        destruct (Hkeep Hks) as [-> Hst]. split; [done |]. by constructor.
    + exists s1, [c], h1. split; [| split; [| split; [| split; [| split;
        [| split; [| split]]]]]].
      * cbn [range_slice]. run. by erewrite bind_Ok by (by apply logged_Ok).
      * cbn [range_slice]. by run.
      * done.
      * cbn. lia.
      * apply until_false_stop.
      * done.
      * by repeat constructor.
      * intros Hks. pose proof (Hks _ _ _ _ _ _ E) as ->. split; [done |].
        by repeat constructor.
Qed.

(** The map loop, call by call. *)
Lemma range_map_logged (f : visitor string St) m :
  returns f ->
  forall keys s log h,
    exists s' calls h',
      range_map m keys (logged f) (s, log) h = Ok ((s', log ++ calls), h') /\
      range_map m keys f s h = Ok (s', h') /\
      (call_key <$> calls) `sublist_of` keys /\
      until_false (call_ans <$> calls) /\
      Forall (fun c => map_of (call_store c) m !! call_key c = Some (call_val c)) calls /\
      (keeps_store f ->
       h' = h /\ Forall (fun c => call_store c = h) calls /\
       (last (call_ans <$> calls) <> Some false ->
        call_key <$> calls = filter (fun k => is_Some (map_of h m !! k)) keys)).
Proof.
  intros Hret. induction keys as [| key keys IH]; intros s log h.
  - exists s, [], h. cbn [range_map]. rewrite app_nil_r.
    split_and!; try done. apply until_false_nil.
  - destruct (map_of h m !! key) as [val |] eqn:Hkey.
    2:{ destruct (IH s log h) as (s' & calls & h' & El & Ef & Hk & Hu & Hv & Hkeep).
        exists s', calls, h'. split_and!; try done.
        - cbn [range_map]. run. by rewrite Hkey.
        - cbn [range_map]. run. by rewrite Hkey.
        - by apply sublist_cons.
        - intros Hks. destruct (Hkeep Hks) as (-> & Hst & Hall). split_and!; try done.
          intros Hl. rewrite filter_cons_False; [by apply Hall |].
          rewrite Hkey. by intros [? ?]. }
    destruct (Hret s key val h) as ([s1 ret] & h1 & E).
    set (c := mkCall key val h ret).
    destruct ret.
    + destruct (IH s1 (log ++ [c]) h1)
        as (s' & calls & h' & El & Ef & Hk & Hu & Hv & Hkeep).
      exists s', (c :: calls), h'. split_and!.
      * cbn [range_map]. run. rewrite Hkey. erewrite bind_Ok by (by apply logged_Ok).
        cbn [negb]. rewrite <- app_assoc in El. exact El.
      * cbn [range_map]. run. rewrite Hkey. run. exact Ef.
      * cbn. by apply sublist_skip.
      * by apply until_false_cons.
      * by constructor.
      * intros Hks. pose proof (Hks _ _ _ _ _ _ E) as ->.
        destruct (Hkeep Hks) as (-> & Hst & Hall). split_and!; [done | by constructor |].
        intros Hl. rewrite filter_cons_True by (by rewrite Hkey).
        cbn [fmap list_fmap]. f_equal. apply Hall.
        destruct calls as [| c' calls']; [done |]. exact Hl.
    + exists s1, [c], h1. split_and!.
      * cbn [range_map]. run. rewrite Hkey. by erewrite bind_Ok by (by apply logged_Ok).
      * cbn [range_map]. run. rewrite Hkey. by run.
      * cbn. apply sublist_skip, sublist_nil_l.
      * apply until_false_stop.
      * by repeat constructor.
      * intros Hks. pose proof (Hks _ _ _ _ _ _ E) as ->. split_and!; [done | |].
        -- by repeat constructor.
        -- intros Hl. by destruct Hl.
Qed.

End RangeLoops.

Lemma filter_all {A} (P : A -> Prop) `{!forall x, Decision (P x)} (l : list A) :
  Forall P l -> filter P l = l.
Proof.
  induction 1 as [| x l Hx _ IH]; [done |].
  by rewrite filter_cons_True, IH.
Qed.

Lemma pairs_eq (M : gmap string value) (l1 l2 : list (string * value)) :
  l1.*1 = l2.*1 ->
  Forall (fun kv => M !! kv.1 = Some kv.2) l1 ->
  Forall (fun kv => M !! kv.1 = Some kv.2) l2 ->
  l1 = l2.
Proof.
  revert l2. induction l1 as [| [k v] l1 IH]; intros [| [k' v'] l2] Hk H1 H2;
    try done.
  cbn in Hk. injection Hk as -> Hk.
  apply Forall_cons in H1 as [Hv H1]. apply Forall_cons in H2 as [Hv' H2].
  cbn in Hv, Hv'. rewrite Hv in Hv'. injection Hv' as ->.
  f_equal. by apply IH.
Qed.





(** X24 ([Array], [Len], [Set]): [Array] returns an error exactly on the
    handles that do not wrap a sequence.  On a sequence it returns the
    wrapped slice itself as a plain slice (a [List] is retyped, not
    copied) with [Len()] elements: what [Set] then writes through the
    handle shows in the slice [Array] returned. *)
Theorem Array_shares h j n :
  nodes h !! j = Some n ->
  match data n with
  | VSlice _ a off len cap =>
      Array j h = Ok ((VSlice RawSlice a off len cap, None), h) /\
      Len j h = Ok (len, h) /\
      forall idx x v,
        slice_ok h a off len cap -> unwrapped h x = Some v -> in_range idx len = true ->
        exists h1,
          ('(s, _) ← Array j; Set_ j (VInt KInt idx) x;; mret s) h
            = Ok (VSlice RawSlice a off len cap, h1) /\
          slice_elems h1 a off len = <[Z.to_nat idx := v]> (slice_elems h a off len)
  | d =>
      Array j h = Ok ((nil_slice, Some (NotArray d)), h) /\ Len j h = Ok (0, h)
  end.
Proof.
  intros Hj.
  assert (Hlen : Len j h = Ok (match data n with VSlice _ _ _ len _ => len | _ => 0 end, h)).
  { unfold Len. run. by destruct (data n). }
  assert (Harr : Array j h
    = Ok (match data n with
          | VSlice _ a off len cap => (VSlice RawSlice a off len cap, None)
          | d => (nil_slice, Some (NotArray d))
          end, h)).
  { unfold Array. erewrite bind_Ok by (by apply IsSlice_Ok).
    erewrite bind_Ok by (by apply read_node_Ok).
    by destruct (data n) as [| | | | | | | | | [] a off len cap |]. }
  destruct (data n) as [| | | | | | | | | t a off len cap |] eqn:Hd; try done.
  split; [done |]. split; [done |].
  intros idx x v Hok Hx Hr. eexists.
  rewrite (bind_Ok _ _ _ _ _ Harr).
  erewrite bind_Ok by (by eapply Set_int_slice). split; [reflexivity |].
  eapply slice_elems_write1; [done | by apply in_range_lt].
Qed.

Lemma Array_shares_witness :
  Array 1 h_dict_doc = Ok ((VSlice RawSlice 0 0 3 3, None), h_dict_doc) /\
  Len 1 h_dict_doc = Ok (3, h_dict_doc) /\
  forall idx x v,
    slice_ok h_dict_doc 0 0 3 3 -> unwrapped h_dict_doc x = Some v ->
    in_range idx 3 = true ->
    exists h1,
      ('(s, _) ← Array 1; Set_ 1 (VInt KInt idx) x;; mret s) h_dict_doc
        = Ok (VSlice RawSlice 0 0 3 3, h1) /\
      slice_elems h1 0 0 3 = <[Z.to_nat idx := v]> (slice_elems h_dict_doc 0 0 3).
Proof.
  by apply (Array_shares h_dict_doc 1 (mkGoJson (Some 0) "a" 0 (VSlice ListT 0 0 3 3))).
Defined.

(** ** [Append] seen from the parent *)

Section Propagation.

Variable growcap : nat -> nat -> nat.

(** X25 ([Get], [Append], [maintainParent], [Len], [Index]): the
    write-back end to end.  When the plain map of [j] holds a sequence of
    length [len] under [k], then after [j.Get(k).Append(x)] a new
    navigation from [j] sees the grown sequence: [j.Get(k).Len()] is
    [len + 1] and [j.Get(k).Index(len).Value()] is the appended value. *)
Theorem Append_seen_from_parent h j n l k t a off len cap x v1 v2 :
  nodes h !! j = Some n -> data n = VMap RawMap (Some l) ->
  map_of h (Some l) !! k = Some (VSlice t a off len cap) ->
  slice_ok h a off len cap ->
  unwrapped h x = Some v1 -> unwrapped h v1 = Some v2 ->
  (exists h',
     (c ← Get j k; Append growcap c x;; c2 ← Get j k; Len c2) h = Ok (S len, h')) /\
  (exists h',
     (c ← Get j k; Append growcap c x;; c2 ← Get j k;
      e ← Index c2 (Z.of_nat len); Value e) h = Ok (v2, h')).
Proof.
  intros Hj Hd Hk Hok Hx1 Hx2.
  pose proof (lookup_lt_Some _ _ _ Hj) as Hjlt.
  set (d0 := VSlice t a off len cap).
  set (c0 := mkGoJson (Some j) k 0 d0).
  set (hc := child_of h c0).
  set (cid := length (nodes h)).
  assert (Hgm : fst (getMap k (data n) h) = d0).
  { rewrite Hd. cbn. unfold map_index. by rewrite Hk. }
  assert (Hg : Get j k h = Ok (cid, hc)).
  { erewrite Get_Ok by done. by rewrite Hgm. }
  assert (Hl : linked hc cid c0).
  { pose proof (Get_linked h j n k Hj) as G. cbn zeta in G. rewrite Hgm in G.
    by apply G. }
  assert (Hc0 : nodes hc !! cid = Some c0) by apply child_lookup.
  destruct (Append_result growcap hc cid c0 t a off len cap x v1 v2 Hc0 eq_refl Hok
              (unwrapped_child _ _ _ _ Hx1) (unwrapped_child _ _ _ _ Hx2) Hl)
    as (a' & off' & cap' & h1 & E & Hok1 & Hel & Hmod & _).
  cbn zeta in E. cbn [data prev prevKey prevIndex c0] in E.
  set (d := VSlice t a' off' (S len) cap') in *.
  set (c := mkGoJson (Some j) k 0 d) in *.
  set (hs := set_data h1 cid c0 d) in *.
  set (hf := write_back hs c) in *.
  assert (Hn1 : nodes h1 = nodes hc) by (by destruct Hmod as [-> _]).
  assert (Hjs : nodes hs !! j = Some n).
  { unfold hs. rewrite set_data_lookup_ne by (unfold cid; lia).
    rewrite Hn1. cbn. by apply lookup_app_l_Some. }
  assert (Hjf : nodes hf !! j = Some n) by (unfold hf; by rewrite write_back_nodes).
  assert (Hslot : parent_slot hf c = Some d).
  { eapply (write_back_slot hs cid c j n); [| done | exact Hjs | by rewrite Hd].
    apply (linked_set_data hc h1 cid c0 d a (off + len) (off + len + 1)); done. }
  assert (Hkf : map_of hf (Some l) !! k = Some d).
  { unfold parent_slot in Hslot. cbn [prev c] in Hslot.
    unfold node_data in Hslot. rewrite Hjf in Hslot. cbn in Hslot.
    by rewrite Hd in Hslot. }
  set (c2 := mkGoJson (Some j) k 0 d).
  assert (Hg2 : Get j k hf = Ok (length (nodes hf), child_of hf c2)).
  { erewrite Get_Ok by done. rewrite Hd. cbn [getMap fst]. unfold map_index.
    by rewrite Hkf. }
  assert (Hc2 : nodes (child_of hf c2) !! length (nodes hf) = Some c2)
    by apply child_lookup.
  split.
  - eexists. rewrite (bind_Ok _ _ _ _ _ Hg). rewrite (bind_Ok _ _ _ _ _ E).
    rewrite (bind_Ok _ _ _ _ _ Hg2). unfold Len. by run.
  - assert (Harr : array_of (child_of hf c2) a' = array_of h1 a').
    { change (array_of (child_of hf c2) a') with (array_of hf a').
      unfold hf. rewrite write_back_array; [done |].
      cbn [prev c]. unfold node_data. rewrite Hjs. cbn. by rewrite Hd. }
    assert (Hcell : array_of h1 a' !! (off' + len) = Some v2).
    { pose proof (slice_elems_lookup h1 a' off' (S len) len) as El.
      rewrite decide_True in El by lia. rewrite <- El, Hel.
      destruct Hok as [Hlc Hcap].
      assert (length (slice_elems hc a off len) = len)
        by (by apply (slice_elems_length hc a off len cap)).
      rewrite lookup_app_r by lia. by replace (len - _) with 0 by lia. }
    assert (Hi : Index (length (nodes hf)) (Z.of_nat len) (child_of hf c2)
                 = Ok (length (nodes (child_of hf c2)),
                       child_of (child_of hf c2)
                         (mkGoJson (Some (length (nodes hf))) "" (Z.of_nat len) v2))).
    { erewrite (Index_in_range _ _ c2 t a' off' (S len) cap'); [| done | done |].
      - rewrite Nat2Z.id, Harr, Hcell. done.
      - unfold in_range. apply andb_true_iff.
        split; [apply Z.leb_le | apply Z.ltb_lt]; lia. }
    eexists. rewrite (bind_Ok _ _ _ _ _ Hg). rewrite (bind_Ok _ _ _ _ _ E).
    rewrite (bind_Ok _ _ _ _ _ Hg2). rewrite (bind_Ok _ _ _ _ _ Hi).
    erewrite Value_Ok by apply child_lookup. done.
Qed.

(** X26 ([Index], [Append], [maintainParent], [setSlice], [Len]): the
    same for a sequence nested in a plain sequence.  When the plain slice
    of [j] holds a sequence of length [len] at an index [idx] within its
    length, then after [j.Index(idx).Append(x)] a new [j.Index(idx)] wraps
    a sequence of length [len + 1]. *)
Theorem Append_seen_from_parent_slice h j n pa poff plen pcap idx t a off len cap
    x v1 v2 :
  nodes h !! j = Some n -> data n = VSlice RawSlice pa poff plen pcap ->
  slice_ok h pa poff plen pcap -> in_range idx plen = true ->
  array_of h pa !! (poff + Z.to_nat idx) = Some (VSlice t a off len cap) ->
  slice_ok h a off len cap ->
  unwrapped h x = Some v1 -> unwrapped h v1 = Some v2 ->
  exists h',
    (c ← Index j idx; Append growcap c x;; c2 ← Index j idx; Len c2) h
      = Ok (S len, h').
Proof.
  intros Hj Hd Hpok Hr Hcell Hok Hx1 Hx2.
  pose proof (lookup_lt_Some _ _ _ Hj) as Hjlt.
  set (d0 := VSlice t a off len cap).
  set (c0 := mkGoJson (Some j) "" idx d0).
  set (hc := child_of h c0).
  set (cid := length (nodes h)).
  assert (Hg : Index j idx h = Ok (cid, hc)).
  { erewrite Index_in_range by done. by rewrite Hcell. }
  assert (Hjc : nodes hc !! j = Some n) by (cbn; by apply lookup_app_l_Some).
  assert (Hl : linked hc cid c0).
  { unfold linked. cbn [prev c0]. split; [unfold cid; lia |].
    exists n. split; [done |]. rewrite Hd. cbn. done. }
  assert (Hc0 : nodes hc !! cid = Some c0) by apply child_lookup.
  destruct (Append_result growcap hc cid c0 t a off len cap x v1 v2 Hc0 eq_refl Hok
              (unwrapped_child _ _ _ _ Hx1) (unwrapped_child _ _ _ _ Hx2) Hl)
    as (a' & off' & cap' & h1 & E & Hok1 & Hel & Hmod & _).
  cbn zeta in E. cbn [data prev prevKey prevIndex c0] in E.
  set (d := VSlice t a' off' (S len) cap') in *.
  set (c := mkGoJson (Some j) "" idx d) in *.
  set (hs := set_data h1 cid c0 d) in *.
  set (hf := write_back hs c) in *.
  assert (Hn1 : nodes h1 = nodes hc) by (by destruct Hmod as [-> _]).
  assert (Hjs : nodes hs !! j = Some n).
  { unfold hs. rewrite set_data_lookup_ne by (unfold cid; lia). by rewrite Hn1. }
  assert (Hjf : nodes hf !! j = Some n) by (unfold hf; by rewrite write_back_nodes).
  assert (Hslot : parent_slot hf c = Some d).
  { eapply (write_back_slot hs cid c j n); [| done | exact Hjs | by rewrite Hd].
    apply (linked_set_data hc h1 cid c0 d a (off + len) (off + len + 1)); done. }
  assert (Hkf : array_of hf pa !! (poff + Z.to_nat idx) = Some d).
  { unfold parent_slot in Hslot. cbn [prev c prevIndex] in Hslot.
    unfold node_data in Hslot. rewrite Hjf in Hslot. cbn in Hslot.
    rewrite Hd in Hslot. rewrite slice_elems_lookup in Hslot.
    by rewrite decide_True in Hslot by (by apply in_range_lt). }
  eexists. rewrite (bind_Ok _ _ _ _ _ Hg). rewrite (bind_Ok _ _ _ _ _ E).
  erewrite bind_Ok by (by eapply (Index_in_range hf)).
  rewrite Hkf. unfold Len. erewrite bind_Ok by (apply read_node_Ok, child_lookup).
  done.
Qed.

End Propagation.

Lemma Append_seen_from_parent_witness :
  (exists h',
     (c ← Get 0 "a"; Append double_cap c (VInt KInt 4);; c2 ← Get 0 "a"; Len c2) h_doc
       = Ok (4, h')) /\
  (exists h',
     (c ← Get 0 "a"; Append double_cap c (VInt KInt 4);; c2 ← Get 0 "a";
      e ← Index c2 (Z.of_nat 3); Value e) h_doc = Ok (VInt KInt 4, h')).
Proof.
  apply (Append_seen_from_parent double_cap h_doc 0
           (mkGoJson None "" 0 (VMap RawMap (Some 0))) 0 "a" RawSlice 0 0 3 3
           (VInt KInt 4) (VInt KInt 4) (VInt KInt 4)); try reflexivity.
  split; cbn; lia.
Defined.

Lemma Append_seen_from_parent_slice_witness :
  exists h',
    (c ← Index 0 0; Append double_cap c (VInt KInt 4);; c2 ← Index 0 0; Len c2)
      (mkHeap [mkGoJson None "" 0 (VSlice RawSlice 1 0 1 1)] []
              [[VNumber "1"; VNumber "2"; VNumber "3"]; [VSlice RawSlice 0 0 3 3]])
    = Ok (4, h').
Proof.
  apply (Append_seen_from_parent_slice double_cap
           (mkHeap [mkGoJson None "" 0 (VSlice RawSlice 1 0 1 1)] []
                   [[VNumber "1"; VNumber "2"; VNumber "3"]; [VSlice RawSlice 0 0 3 3]])
           0 (mkGoJson None "" 0 (VSlice RawSlice 1 0 1 1)) 1 0 1 1 0 RawSlice 0 0 3 3
           (VInt KInt 4) (VInt KInt 4) (VInt KInt 4)); try reflexivity.
  - split; cbn; lia.
  - split; cbn; lia.
Defined.

Lemma ToInt_number_witness :
  (exists z e, ToInt (VNumber "42.9") = (z, Some (NumError e))) /\
  ToInt (VNumber "42") = (42%Z, None).
Proof.
  split.
  - by apply (proj1 (ToInt_number "42.9")).
  - by apply (proj2 (ToInt_number "42")).
Defined.

(** ** Building a [List] *)

Section ListProps.

Variable growcap : nat -> nat -> nat.

(** X27 ([List.Add], [appendSlice], [NewList]): [Add] on a [List] of
    length [len] never fails its type assertion: it returns a [List] of
    length [len + 1] holding the old elements followed by the value of
    the argument (a handle argument is unwrapped).  The receiver is not
    updated: its first [len] elements are as they were.  On the empty
    list of [NewList] the result holds just the new element. *)
Theorem List_Add_extends h a off len cap x v :
  slice_ok h a off len cap -> unwrapped h x = Some v ->
  exists a' off' cap' h',
    List_Add growcap a off len cap x h
      = Ok (Some (VSlice ListT a' off' (S len) cap'), h') /\
    slice_elems h' a' off' (S len) = slice_elems h a off len ++ [v] /\
    slice_elems h' a off len = slice_elems h a off len /\
    nodes h' = nodes h /\ maps h' = maps h /\
    (len = 0 -> slice_elems h' a' off' 1 = [v]).
Proof.
  intros Hok Hx.
  destruct (appendSlice_spec growcap ListT a off len cap x v h Hok Hx)
    as (a' & off' & cap' & h' & E & Hok' & Hel & Hmod & _).
  exists a', off', cap', h'. split; [| split; [| split; [| split; [| split]]]].
  - unfold List_Add. by rewrite (bind_Ok _ _ _ _ _ E).
  - exact Hel.
  - eapply modifies_slice_elems; [exact Hmod | exact Hok | right; left; lia].
  - by destruct Hmod as [-> _].
  - by destruct Hmod as (_ & -> & _).
  - intros ->. rewrite Hel. unfold slice_elems. by rewrite take_0.
Qed.

End ListProps.

Lemma List_Add_extends_witness :
  exists a' off' cap' h',
    List_Add double_cap 0 0 0 0 (VInt KInt 1) (mkHeap [] [] [])
      = Ok (Some (VSlice ListT a' off' 1 cap'), h') /\
    slice_elems h' a' off' 1 = slice_elems (mkHeap [] [] []) 0 0 0 ++ [VInt KInt 1] /\
    slice_elems h' 0 0 0 = slice_elems (mkHeap [] [] []) 0 0 0 /\
    nodes h' = nodes (mkHeap [] [] []) /\ maps h' = maps (mkHeap [] [] []) /\
    (0 = 0 -> slice_elems h' a' off' 1 = [VInt KInt 1]).
Proof.
  apply (List_Add_extends double_cap (mkHeap [] [] []) 0 0 0 0 (VInt KInt 1) (VInt KInt 1));
    [split; cbn; lia | reflexivity].
Defined.
